(** * Lyrical-Flow: timeline clock, frame compositor, clip editing and export

    A shallow embedding of the timeline logic of the editor (the main
    controller component and [types.ts]).

    Numbers.  JavaScript numbers are modelled as exact rationals ([Q]);
    rounding of IEEE doubles, [NaN] and the infinities are not modelled.
    Equalities between computed numbers are therefore stated with [==]
    ([Qeq]).  The falsy test of [x || d] is the test [x == 0].  A division
    by zero, [NaN] or an infinity in JavaScript, is 0 in [Q]; no statement
    below depends on the value of one. *)

From Stdlib Require Import QArith Qminmax Qround Qabs Lqa.
From Stdlib Require Import List String Ascii ZArith Lia Bool Permutation.
Import ListNotations.

Local Open Scope Q_scope.

(** ** JavaScript number helpers *)

Module JS.

(** [a < b] *)
Definition lt (a b : Q) : bool := negb (Qle_bool b a).

(** [a <= b] *)
Definition le (a b : Q) : bool := Qle_bool a b.

(** [a >= b] *)
Definition ge (a b : Q) : bool := Qle_bool b a.

(** [a > b] *)
Definition gt (a b : Q) : bool := negb (Qle_bool a b).

(** [x || d] on numbers: [d] when [x] is falsy, that is zero. *)
Definition or_default (x d : Q) : Q := if Qeq_bool x 0 then d else x.

(** [Math.max], [Math.min], [Math.floor], [Math.pow(x, 3)]. *)
Definition max (a b : Q) : Q := Qmax a b.
Definition min (a b : Q) : Q := Qmin a b.
Definition floor (a : Q) : Z := Qfloor a.
Definition pow3 (a : Q) : Q := a * a * a.

(** [s.substring(0, n)] for an integer [n]; a negative [n] counts as 0 and
    [n] past the end stops at the end. *)
Definition substring0 (n : Z) (s : string) : string :=
  String.substring 0 (Z.to_nat n) s.

(** [s.startsWith(p)] *)
Definition startsWith (p s : string) : bool := String.prefix p s.

(** [arr.splice(start, deleteCount, ...items)] for a non-negative [start]:
    the removed elements and the array afterwards.  A [start] past the end
    is clamped to the length, which [firstn] and [skipn] do as well. *)
Definition splice {A : Type} (start deleteCount : nat) (items arr : list A)
  : list A * list A :=
  (firstn deleteCount (skipn start arr),
   firstn start arr ++ items ++ skipn deleteCount (skipn start arr)).

(** [arr[i] = v] for [i] inside the array. *)
Definition set_index {A : Type} (i : nat) (v : A) (arr : list A) : list A :=
  firstn i arr ++ v :: skipn (S i) arr.

(** [arr.findIndex(p)]; [None] stands for [-1]. *)
Fixpoint findIndex {A : Type} (p : A -> bool) (arr : list A) : option nat :=
  match arr with
  | [] => None
  | x :: rest => if p x then Some O else option_map S (findIndex p rest)
  end.

End JS.

(** ** Data model ([types.ts]) *)

Module Subtitle.
Record t : Type := mk
  { id : string; startTime : Q; endTime : Q; text : string }.
End Subtitle.

Module CropData.
Record t : Type := mk { x : Q; y : Q; scale : Q }.
End CropData.

Module ImageAdjustments.
Record t : Type := mk
  { brightness : Q; contrast : Q; saturation : Q;
    sepia : Q; grayscale : Q; blur : Q }.
End ImageAdjustments.

Inductive TextAnimation : Type :=
| AnimNone | AnimFade | AnimSlideUp | AnimTypewriter.

Module TextOverlay.
Record t : Type := mk
  { id : string; text : string; x : Q; y : Q;
    fontSize : Q; fontFamily : string; color : string; opacity : Q;
    animation : TextAnimation; animationDuration : Q }.
End TextOverlay.

Module File.
Record t : Type := mk { name : string; type : string }.
End File.

Module ImageAsset.
Record t : Type := mk
  { id : string; url : string; file : File.t;
    crop : option CropData.t;
    adjustments : option ImageAdjustments.t;
    duration : Q;
    textOverlays : list TextOverlay.t }.
End ImageAsset.

Module AudioAsset.
Record t : Type := mk { url : string; file : File.t; duration : Q }.
End AudioAsset.

Inductive AppState : Type := IDLE | PROCESSING | READY | EXPORTING.

Inductive TransitionEffect : Type :=
| TransNone | TransFade | TransSlide | TransZoom.

Inductive VideoResolution : Type := R720p | R1080p.

Inductive VideoFrameRate : Type := Fps30 | Fps60.

Inductive ToastType : Type := ToastInfo | ToastSuccess | ToastError.

Definition TransitionEffect_eqb (a b : TransitionEffect) : bool :=
  match a, b with
  | TransNone, TransNone | TransFade, TransFade
  | TransSlide, TransSlide | TransZoom, TransZoom => true
  | _, _ => false
  end.

(** ** Timeline clock *)

(** [images.reduce((acc, img) => acc + img.duration, 0)] *)
Definition totalImageDuration (images : list ImageAsset.t) : Q :=
  fold_left (fun acc img => acc + ImageAsset.duration img) images 0.

(** [audioAsset?.duration || 0] *)
Definition mainAudioDuration (audioAsset : option AudioAsset.t) : Q :=
  match audioAsset with
  | Some a => JS.or_default (AudioAsset.duration a) 0
  | None => 0
  end.

(** [Math.max(audioAsset?.duration || 0, totalImageDuration || 10)] *)
Definition totalDuration (audioAsset : option AudioAsset.t)
  (images : list ImageAsset.t) : Q :=
  JS.max (mainAudioDuration audioAsset)
         (JS.or_default (totalImageDuration images) 10).

(** The [for] loop of [getActiveImageIndex], entered at index [i] with
    [accumulatedTime]; [None] when the loop runs to its end. *)
Fixpoint getActiveImageIndex_loop (currentTime : Q)
  (rest : list ImageAsset.t) (i : nat) (accumulatedTime : Q) : option nat :=
  match rest with
  | [] => None
  | img :: rest' =>
      if JS.ge currentTime accumulatedTime
         && JS.lt currentTime (accumulatedTime + ImageAsset.duration img)
      then Some i
      else getActiveImageIndex_loop currentTime rest' (S i)
             (accumulatedTime + ImageAsset.duration img)
  end.

(** [getActiveImageIndex]: [-1] for no clips, the last index when the loop
    finds nothing ("Default to last if at end"). *)
Definition getActiveImageIndex (images : list ImageAsset.t)
  (currentTime : Q) : Z :=
  if (List.length images =? 0)%nat then (-1)%Z
  else match getActiveImageIndex_loop currentTime images 0 0 with
       | Some i => Z.of_nat i
       | None => (Z.of_nat (List.length images) - 1)%Z
       end.

(** The [for] loop at the head of [drawCanvas]: the pair
    [(activeIndex, activeImageStartTime)], which stays at its initial value
    [(-1, 0)] when no clip contains [currentTime]. *)
Fixpoint drawCanvas_loop (currentTime : Q)
  (rest : list ImageAsset.t) (i : nat) (accumulatedTime : Q) : Z * Q :=
  match rest with
  | [] => ((-1)%Z, 0)
  | img :: rest' =>
      let dur := ImageAsset.duration img in
      if JS.ge currentTime accumulatedTime
         && JS.lt currentTime (accumulatedTime + dur)
      then (Z.of_nat i, accumulatedTime)
      else drawCanvas_loop currentTime rest' (S i) (accumulatedTime + dur)
  end.

(** Start time of clip [idx]: the sum of the durations before it (the
    [lst] loop of [renderLayer]). *)
Definition cumulativeStart (images : list ImageAsset.t) (idx : nat) : Q :=
  totalImageDuration (firstn idx images).

(** ** The 2D canvas context

    The drawing state of a [CanvasRenderingContext2D] as far as [drawCanvas]
    touches it, with the stack of [save]/[restore].  A drawing call emits a
    [Paint] that records the part of the state its pixels depend on; the
    pixels of a frame are those of its list of paints, painted in order.
    A call returns or throws; what follows a throwing call in a sequence is
    not run, and the context stays as the throwing call left it. *)

Module Canvas.

Record Font : Type :=
  { bold : bool; px : Q; family : string }.

(** One function of a CSS [filter] list: name, argument and unit. *)
Record FilterFn : Type :=
  { fn : string; arg : Q; unit_ : string }.

Inductive Xform : Type :=
| Translate (tx ty : Q)
| Scale (sx sy : Q).

(** The state every drawing call depends on. *)
Record Common : Type :=
  { globalAlpha : Q;
    transform : list Xform;
    filter : list FilterFn;
    shadowColor : string;
    shadowBlur : Q }.

Record DrawingState : Type :=
  { common : Common;
    fillStyle : string;
    strokeStyle : string;
    lineWidth : Q;
    font : Font;
    textAlign : string;
    textBaseline : string }.

Record Ctx : Type :=
  { cur : DrawingState; stack : list DrawingState }.

(** The state of the image request of an [<img>] element: still loading,
    completely available with the natural size of the image, or broken
    (the data could not be fetched or decoded). *)
Inductive ImageRequest : Type :=
| Unavailable
| CompletelyAvailable (naturalWidth naturalHeight : Q)
| Broken.

Record HTMLImageElement : Type :=
  { src : string; request : ImageRequest }.

(** [el.complete], [el.width] and [el.height] of an element made by
    [new Image()] and given a source: complete once the request is
    completely available or broken, and as large as the image when its
    size is known, 0 otherwise. *)
Definition complete (el : HTMLImageElement) : bool :=
  match request el with
  | Unavailable => false
  | CompletelyAvailable _ _ | Broken => true
  end.

Definition width (el : HTMLImageElement) : Q :=
  match request el with
  | CompletelyAvailable w _ => w
  | Unavailable | Broken => 0
  end.

Definition height (el : HTMLImageElement) : Q :=
  match request el with
  | CompletelyAvailable _ h => h
  | Unavailable | Broken => 0
  end.

(** What [drawImage] does with an image argument: it throws for a broken
    request, draws nothing for an image that is not available or has no
    size, and draws otherwise. *)
Inductive Usability : Type := Good | Bad | Failure.

Definition usability (el : HTMLImageElement) : Usability :=
  match request el with
  | Broken => Failure
  | Unavailable => Bad
  | CompletelyAvailable w h =>
      if Qeq_bool w 0 || Qeq_bool h 0 then Bad else Good
  end.

Inductive Paint : Type :=
| FillRect (g : Common) (style : string) (x y w h : Q)
| FillText (g : Common) (style : string) (f : Font)
    (align baseline : string) (text : string) (x y : Q)
| StrokeText (g : Common) (style : string) (lw : Q) (f : Font)
    (align baseline : string) (text : string) (x y : Q)
| DrawImage (g : Common) (el : HTMLImageElement) (dx dy : Q)
    (dsize : option (Q * Q)).

(** How a call ends: it returns, or it throws the exception named. *)
Inductive Completion : Type :=
| Returned
| Threw (name : string).

(** A run of a canvas command: the context afterwards, the paints emitted
    and how the run ended. *)
Record Run : Type :=
  { ctx : Ctx; painted : list Paint; completion : Completion }.

Definition Cmd : Type := Ctx -> Run.

Definition skip : Cmd :=
  fun c => {| ctx := c; painted := []; completion := Returned |}.

Definition throw (name : string) : Cmd :=
  fun c => {| ctx := c; painted := []; completion := Threw name |}.

(** [a; b]: [b] runs only when [a] has returned. *)
Definition seq (a b : Cmd) : Cmd :=
  fun c =>
    let r1 := a c in
    match completion r1 with
    | Returned =>
        let r2 := b (ctx r1) in
        {| ctx := ctx r2;
           painted := painted r1 ++ painted r2;
           completion := completion r2 |}
    | Threw _ => r1
    end.

Definition forEach {A : Type} (f : A -> Cmd) (l : list A) : Cmd :=
  fold_right (fun a k => seq (f a) k) skip l.

Definition modify (f : DrawingState -> DrawingState) : Cmd :=
  fun c =>
    {| ctx := {| cur := f (cur c); stack := stack c |};
       painted := []; completion := Returned |}.

Definition modify_common (f : Common -> Common) : Cmd :=
  modify (fun s =>
    {| common := f (common s); fillStyle := fillStyle s;
       strokeStyle := strokeStyle s; lineWidth := lineWidth s;
       font := font s; textAlign := textAlign s;
       textBaseline := textBaseline s |}).

Definition emit (f : DrawingState -> Paint) : Cmd :=
  fun c => {| ctx := c; painted := [f (cur c)]; completion := Returned |}.

(** [ctx.save()] and [ctx.restore()]; restoring with an empty stack does
    nothing. *)
Definition save : Cmd :=
  fun c =>
    {| ctx := {| cur := cur c; stack := cur c :: stack c |};
       painted := []; completion := Returned |}.

Definition restore : Cmd :=
  fun c =>
    match stack c with
    | [] => skip c
    | s :: st =>
        {| ctx := {| cur := s; stack := st |};
           painted := []; completion := Returned |}
    end.

(** Setters.  [globalAlpha] ignores a value outside [0, 1] and
    [lineWidth] a value that is not positive, as the canvas does. *)
Definition set_fillStyle (v : string) : Cmd :=
  modify (fun s =>
    {| common := common s; fillStyle := v; strokeStyle := strokeStyle s;
       lineWidth := lineWidth s; font := font s; textAlign := textAlign s;
       textBaseline := textBaseline s |}).

Definition set_strokeStyle (v : string) : Cmd :=
  modify (fun s =>
    {| common := common s; fillStyle := fillStyle s; strokeStyle := v;
       lineWidth := lineWidth s; font := font s; textAlign := textAlign s;
       textBaseline := textBaseline s |}).

Definition set_lineWidth (v : Q) : Cmd :=
  modify (fun s =>
    {| common := common s; fillStyle := fillStyle s;
       strokeStyle := strokeStyle s;
       lineWidth := if JS.gt v 0 then v else lineWidth s;
       font := font s; textAlign := textAlign s;
       textBaseline := textBaseline s |}).

Definition set_font (v : Font) : Cmd :=
  modify (fun s =>
    {| common := common s; fillStyle := fillStyle s;
       strokeStyle := strokeStyle s; lineWidth := lineWidth s;
       font := v; textAlign := textAlign s;
       textBaseline := textBaseline s |}).

Definition set_textAlign (v : string) : Cmd :=
  modify (fun s =>
    {| common := common s; fillStyle := fillStyle s;
       strokeStyle := strokeStyle s; lineWidth := lineWidth s;
       font := font s; textAlign := v; textBaseline := textBaseline s |}).

Definition set_textBaseline (v : string) : Cmd :=
  modify (fun s =>
    {| common := common s; fillStyle := fillStyle s;
       strokeStyle := strokeStyle s; lineWidth := lineWidth s;
       font := font s; textAlign := textAlign s; textBaseline := v |}).

Definition set_globalAlpha (v : Q) : Cmd :=
  modify_common (fun g =>
    {| globalAlpha := if JS.ge v 0 && JS.le v 1 then v else globalAlpha g;
       transform := transform g; filter := filter g;
       shadowColor := shadowColor g; shadowBlur := shadowBlur g |}).

Definition set_filter (v : list FilterFn) : Cmd :=
  modify_common (fun g =>
    {| globalAlpha := globalAlpha g; transform := transform g; filter := v;
       shadowColor := shadowColor g; shadowBlur := shadowBlur g |}).

(** [ctx.filter += ...] *)
Definition append_filter (v : list FilterFn) : Cmd :=
  modify_common (fun g =>
    {| globalAlpha := globalAlpha g; transform := transform g;
       filter := filter g ++ v;
       shadowColor := shadowColor g; shadowBlur := shadowBlur g |}).

Definition set_shadowColor (v : string) : Cmd :=
  modify_common (fun g =>
    {| globalAlpha := globalAlpha g; transform := transform g;
       filter := filter g; shadowColor := v; shadowBlur := shadowBlur g |}).

Definition set_shadowBlur (v : Q) : Cmd :=
  modify_common (fun g =>
    {| globalAlpha := globalAlpha g; transform := transform g;
       filter := filter g; shadowColor := shadowColor g; shadowBlur := v |}).

Definition apply_xform (t : Xform) : Cmd :=
  modify_common (fun g =>
    {| globalAlpha := globalAlpha g; transform := transform g ++ [t];
       filter := filter g;
       shadowColor := shadowColor g; shadowBlur := shadowBlur g |}).

Definition translate (tx ty : Q) : Cmd := apply_xform (Translate tx ty).
Definition scale (sx sy : Q) : Cmd := apply_xform (Scale sx sy).

(** Drawing calls. *)
Definition fillRect (x y w h : Q) : Cmd :=
  emit (fun s => FillRect (common s) (fillStyle s) x y w h).

Definition fillText (text : string) (x y : Q) : Cmd :=
  emit (fun s => FillText (common s) (fillStyle s) (font s)
                   (textAlign s) (textBaseline s) text x y).

Definition strokeText (text : string) (x y : Q) : Cmd :=
  emit (fun s => StrokeText (common s) (strokeStyle s) (lineWidth s)
                   (font s) (textAlign s) (textBaseline s) text x y).

(** [ctx.drawImage(el, ...)] throws [InvalidStateError] for an element
    whose request is broken. *)
Definition drawImage (el : HTMLImageElement) (dx dy : Q)
  (dsize : option (Q * Q)) : Cmd :=
  match usability el with
  | Failure => throw "InvalidStateError"
  | Bad => skip
  | Good => emit (fun s => DrawImage (common s) el dx dy dsize)
  end.

(** The state of a context just obtained from a canvas. *)
Definition initial : Ctx :=
  {| cur :=
       {| common :=
            {| globalAlpha := 1; transform := []; filter := [];
               shadowColor := "rgba(0, 0, 0, 0)"; shadowBlur := 0 |};
          fillStyle := "#000000"; strokeStyle := "#000000";
          lineWidth := 1;
          font := {| bold := false; px := 10; family := "sans-serif" |};
          textAlign := "start"; textBaseline := "alphabetic" |};
     stack := [] |}.

End Canvas.

Declare Scope canvas_scope.
Delimit Scope canvas_scope with canvas.
Notation "a ;; b" := (Canvas.seq a b)
  (at level 61, right associativity) : canvas_scope.

(** ** Frame compositor ([drawCanvas]) *)

Local Open Scope canvas_scope.

Definition BASE_WIDTH : Q := 1280.

Module HTMLCanvasElement.
Record t : Type := mk { width : Q; height : Q }.
End HTMLCanvasElement.

(** [RESOLUTIONS[resolution]], the size the canvas element is given. *)
Definition RESOLUTIONS (r : VideoResolution) : HTMLCanvasElement.t :=
  match r with
  | R720p => HTMLCanvasElement.mk 1280 720
  | R1080p => HTMLCanvasElement.mk 1920 1080
  end.

(** [Map.get] on [imageElementsRef.current], kept as an association list. *)
Fixpoint Map_get {V : Type} (k : string) (m : list (string * V)) : option V :=
  match m with
  | [] => None
  | (k', v) :: rest => if String.eqb k' k then Some v else Map_get k rest
  end.

(** What the closure of [drawCanvas] reads: the state it captures and the
    two refs ([canvasRef], with [None] for a missing canvas or context, and
    [imageElementsRef]). *)
Record Scene : Type :=
  { images : list ImageAsset.t;
    audioAsset : option AudioAsset.t;
    currentTime : Q;
    lyrics : list Subtitle.t;
    transitionEffect : TransitionEffect;
    transitionDuration : Q;
    canvas : option HTMLCanvasElement.t;
    imageElements : list (string * Canvas.HTMLImageElement) }.

Definition default_crop : CropData.t := CropData.mk 0 0 1.

Definition default_adjustments : ImageAdjustments.t :=
  ImageAdjustments.mk 100 100 100 0 0 0.

(** The [filter] string of a layer. *)
Definition adjustment_filter (adj : ImageAdjustments.t)
  : list Canvas.FilterFn :=
  [ Canvas.Build_FilterFn "brightness" (ImageAdjustments.brightness adj) "%";
    Canvas.Build_FilterFn "contrast" (ImageAdjustments.contrast adj) "%";
    Canvas.Build_FilterFn "saturate" (ImageAdjustments.saturation adj) "%";
    Canvas.Build_FilterFn "sepia"
      (JS.or_default (ImageAdjustments.sepia adj) 0) "%";
    Canvas.Build_FilterFn "grayscale"
      (JS.or_default (ImageAdjustments.grayscale adj) 0) "%";
    Canvas.Build_FilterFn "blur"
      (JS.or_default (ImageAdjustments.blur adj) 0) "px" ].

(** [renderLayer(idx, opacity)].  An [idx] outside the array, which the
    callers exclude, draws nothing here.  There is no [try] around the
    drawing calls: when the first [drawImage] throws, the two states saved
    before it stay on the stack and the rest of [drawCanvas] is not run.
    (The element is then without size, and the scale of the copy behind is
    a division by zero; nothing stated below depends on it.) *)
Definition renderLayer (s : Scene) (width height scaleRatio : Q)
  (idx : nat) (opacity : Q) : Canvas.Cmd :=
  match nth_error (images s) idx with
  | None => Canvas.skip
  | Some img =>
      let c := match ImageAsset.crop img with
               | Some c => c | None => default_crop end in
      let adj := match ImageAsset.adjustments img with
                 | Some a => a | None => default_adjustments end in
      match Map_get (ImageAsset.id img) (imageElements s) with
      | None => Canvas.skip
      | Some el =>
          if Canvas.complete el then
            let ia := Canvas.width el / Canvas.height el in
            let ca := width / height in
            let rw := if JS.gt ia ca then height * ia else width in
            let rh := if JS.gt ia ca then height else width / ia in
            let verticalBias :=
              if JS.gt rh height then (rh - height) * 0.25 else 0 in
            let lst := cumulativeStart (images s) idx in
            let kb :=
              JS.max 0 (currentTime s - lst) / ImageAsset.duration img in
            let z := 1 + (kb * 0.1) in
            let fs := CropData.scale c * z in
            let bgScale :=
              JS.max (width / Canvas.width el) (height / Canvas.height el)
              * 1.2 in
            Canvas.save ;;
            Canvas.set_globalAlpha (JS.max 0 (JS.min 1 opacity)) ;;
            Canvas.set_filter (adjustment_filter adj) ;;
            Canvas.translate (width / 2) (height / 2) ;;
            Canvas.save ;;
            Canvas.scale bgScale bgScale ;;
            Canvas.append_filter
              [ Canvas.Build_FilterFn "blur" 20 "px";
                Canvas.Build_FilterFn "brightness" 0.5 "" ] ;;
            Canvas.drawImage el (- Canvas.width el / 2)
              (- Canvas.height el / 2) None ;;
            Canvas.restore ;;
            Canvas.translate (CropData.x c * scaleRatio)
              ((CropData.y c * scaleRatio) + verticalBias) ;;
            Canvas.scale fs fs ;;
            Canvas.set_shadowColor "rgba(0,0,0,0.5)" ;;
            Canvas.set_shadowBlur 20 ;;
            Canvas.drawImage el (- rw / 2) (- rh / 2) (Some (rw, rh)) ;;
            Canvas.restore
          else Canvas.skip
      end
  end.

(** [tl], the time left in the active clip. *)
Definition timeLeft (s : Scene) (imgObj : ImageAsset.t)
  (activeImageStartTime : Q) : Q :=
  ImageAsset.duration imgObj - (currentTime s - activeImageStartTime).

(** [Math.min(transitionDuration, imgObj.duration/2)] *)
Definition transitionWindow (s : Scene) (imgObj : ImageAsset.t) : Q :=
  JS.min (transitionDuration s) (ImageAsset.duration imgObj / 2).

(** [it], whether the transition to the next clip is being drawn. *)
Definition transitionActive (s : Scene) (imgObj : ImageAsset.t)
  (activeIndex : Z) (activeImageStartTime : Q) : bool :=
  negb (TransitionEffect_eqb (transitionEffect s) TransNone)
  && JS.le (timeLeft s imgObj activeImageStartTime)
           (transitionWindow s imgObj)
  && (activeIndex <? Z.of_nat (List.length (images s)) - 1)%Z.

(** [p], the opacity of the next clip during the transition. *)
Definition transitionProgress (s : Scene) (imgObj : ImageAsset.t)
  (activeImageStartTime : Q) : Q :=
  1 - (timeLeft s imgObj activeImageStartTime / transitionWindow s imgObj).

(** The [if (it) ... else ...] statement that draws the clip layers. *)
Definition drawLayers (s : Scene) (width height scaleRatio : Q)
  (imgObj : ImageAsset.t) (activeIndex : Z) (activeImageStartTime : Q)
  : Canvas.Cmd :=
  if transitionActive s imgObj activeIndex activeImageStartTime then
    renderLayer s width height scaleRatio (Z.to_nat activeIndex) 1 ;;
    renderLayer s width height scaleRatio (Z.to_nat (activeIndex + 1))
      (transitionProgress s imgObj activeImageStartTime)
  else renderLayer s width height scaleRatio (Z.to_nat activeIndex) 1.

(** The locals of the overlay callback. *)
Definition animDuration (ov : TextOverlay.t) : Q :=
  JS.or_default (TextOverlay.animationDuration ov) 1.5.

Definition progress (ov : TextOverlay.t) (relativeTime : Q) : Q :=
  JS.min (JS.max (relativeTime / animDuration ov) 0) 1.

Definition renderOpacity (ov : TextOverlay.t) (relativeTime : Q) : Q :=
  match TextOverlay.animation ov with
  | AnimFade | AnimSlideUp =>
      TextOverlay.opacity ov * progress ov relativeTime
  | AnimNone | AnimTypewriter => TextOverlay.opacity ov
  end.

Definition renderY (ov : TextOverlay.t) (height scaleRatio : Q)
  (relativeTime : Q) : Q :=
  match TextOverlay.animation ov with
  | AnimSlideUp =>
      let offset := 40 * scaleRatio in
      let ease := 1 - JS.pow3 (1 - progress ov relativeTime) in
      (TextOverlay.y ov * height) + offset - (offset * ease)
  | _ => TextOverlay.y ov * height
  end.

(** [charCount] of the typewriter branch. *)
Definition charCount (ov : TextOverlay.t) (relativeTime : Q) : Z :=
  JS.floor (inject_Z (Z.of_nat (String.length (TextOverlay.text ov)))
            * progress ov relativeTime).

Definition renderText (ov : TextOverlay.t) (relativeTime : Q) : string :=
  match TextOverlay.animation ov with
  | AnimTypewriter =>
      JS.substring0 (charCount ov relativeTime) (TextOverlay.text ov)
  | _ => TextOverlay.text ov
  end.

(** The callback of [imgObj.textOverlays.forEach]. *)
Definition drawOverlay (s : Scene) (width height scaleRatio : Q)
  (activeImageStartTime : Q) (ov : TextOverlay.t) : Canvas.Cmd :=
  let relativeTime := currentTime s - activeImageStartTime in
  Canvas.save ;;
  Canvas.set_globalAlpha (renderOpacity ov relativeTime) ;;
  Canvas.set_fillStyle (TextOverlay.color ov) ;;
  Canvas.set_font
    (Canvas.Build_Font true (TextOverlay.fontSize ov * scaleRatio)
       (TextOverlay.fontFamily ov)) ;;
  Canvas.set_textAlign "center" ;;
  Canvas.set_textBaseline "middle" ;;
  Canvas.set_shadowColor "rgba(0,0,0,0.8)" ;;
  Canvas.set_shadowBlur 4 ;;
  Canvas.fillText (renderText ov relativeTime)
    (TextOverlay.x ov * width) (renderY ov height scaleRatio relativeTime) ;;
  Canvas.restore.

(** The [if (images.length > 0)] block. *)
Definition drawClips (s : Scene) (width height scaleRatio : Q)
  : Canvas.Cmd :=
  let '(activeIndex, activeImageStartTime) :=
    drawCanvas_loop (currentTime s) (images s) 0 0 in
  if (activeIndex =? -1)%Z then Canvas.skip
  else
    match nth_error (images s) (Z.to_nat activeIndex) with
    | None => Canvas.skip
    | Some imgObj =>
        drawLayers s width height scaleRatio imgObj activeIndex
          activeImageStartTime ;;
        Canvas.forEach
          (drawOverlay s width height scaleRatio activeImageStartTime)
          (ImageAsset.textOverlays imgObj)
    end.

(** [lyrics.find(l => currentTime >= l.startTime && currentTime <= l.endTime)] *)
Definition currentLyric (s : Scene) : option Subtitle.t :=
  List.find
    (fun l => JS.ge (currentTime s) (Subtitle.startTime l)
              && JS.le (currentTime s) (Subtitle.endTime l))
    (lyrics s).

(** The "Render Lyrics Subtitles" block. *)
Definition drawLyrics (s : Scene) (width height scaleRatio : Q)
  : Canvas.Cmd :=
  if (0 <? List.length (lyrics s))%nat then
    match currentLyric s with
    | None => Canvas.skip
    | Some l =>
        Canvas.save ;;
        Canvas.set_font (Canvas.Build_Font true (42 * scaleRatio) "Inter") ;;
        Canvas.set_textAlign "center" ;;
        Canvas.set_textBaseline "bottom" ;;
        Canvas.set_fillStyle "white" ;;
        Canvas.set_shadowColor "rgba(0,0,0,0.8)" ;;
        Canvas.set_shadowBlur 4 ;;
        Canvas.set_strokeStyle "black" ;;
        Canvas.set_lineWidth (4 * scaleRatio) ;;
        Canvas.strokeText (Subtitle.text l) (width / 2)
          (height - (50 * scaleRatio)) ;;
        Canvas.fillText (Subtitle.text l) (width / 2)
          (height - (50 * scaleRatio)) ;;
        Canvas.restore
    end
  else Canvas.skip.

(** Whether [drawCanvas] takes the placeholder branch:
    [images.length === 0 && !audioAsset]. *)
Definition emptyProject (s : Scene) : bool :=
  (List.length (images s) =? 0)%nat
  && match audioAsset s with Some _ => false | None => true end.

Definition drawCanvas (s : Scene) : Canvas.Cmd :=
  match canvas s with
  | None => Canvas.skip
  | Some cv =>
      let width := HTMLCanvasElement.width cv in
      let height := HTMLCanvasElement.height cv in
      let scaleRatio := width / BASE_WIDTH in
      Canvas.set_fillStyle "#000" ;;
      Canvas.fillRect 0 0 width height ;;
      if emptyProject s then
        Canvas.set_fillStyle "#1e1e24" ;;
        Canvas.fillRect 0 0 width height ;;
        Canvas.set_fillStyle "#4b5563" ;;
        Canvas.set_font (Canvas.Build_Font false (30 * scaleRatio) "Inter") ;;
        Canvas.set_textAlign "center" ;;
        Canvas.fillText "LyricalFlow Studio" (width / 2) (height / 2)
      else
        (if (0 <? List.length (images s))%nat
         then drawClips s width height scaleRatio
         else Canvas.skip) ;;
        drawLyrics s width height scaleRatio
  end.

(** The frame of a scene: what [drawCanvas] paints, up to the throwing
    call when it throws. *)
Definition frame (s : Scene) (c : Canvas.Ctx) : list Canvas.Paint :=
  Canvas.painted (drawCanvas s c).

(** ** Clip insertion and reordering *)

Module Editing.

(** [imageFiles]: the files whose type starts with [image/]. *)
Definition imageFiles (files : list File.t) : list File.t :=
  List.filter (fun f => JS.startsWith "image/" (File.type f)) files.

(** [nextDuration] of [processFiles]. *)
Definition nextDuration (audioAsset : option AudioAsset.t)
  (images : list ImageAsset.t) (imageFiles : list File.t) : Q :=
  match audioAsset with
  | Some a =>
      if (0 <? List.length images + List.length imageFiles)%nat
      then AudioAsset.duration a
           / inject_Z (Z.of_nat (List.length images + List.length imageFiles))
      else 5
  | None => 5
  end.

(** [imageFiles.map(file => ({ ... }))]; [randomId k] is the id drawn for
    the [k]-th file and [createObjectURL] the URL made for a file. *)
Fixpoint newImages_from (randomId : nat -> string)
  (createObjectURL : File.t -> string) (nextDuration : Q)
  (k : nat) (imageFiles : list File.t) : list ImageAsset.t :=
  match imageFiles with
  | [] => []
  | file :: rest =>
      ImageAsset.mk (randomId k) (createObjectURL file) file
        (Some (CropData.mk 0 0 1))
        (Some (ImageAdjustments.mk 100 100 100 0 0 0))
        nextDuration []
      :: newImages_from randomId createObjectURL nextDuration (S k) rest
  end.

Definition newImages (randomId : nat -> string)
  (createObjectURL : File.t -> string)
  (audioAsset : option AudioAsset.t) (images : list ImageAsset.t)
  (files : list File.t) : list ImageAsset.t :=
  newImages_from randomId createObjectURL
    (nextDuration audioAsset images (imageFiles files)) 0 (imageFiles files).

(** [processFiles]: the clip sequence after [setImages(prev => [...prev,
    ...newImages])]; unchanged when no file is an image. *)
Definition processFiles (randomId : nat -> string)
  (createObjectURL : File.t -> string)
  (audioAsset : option AudioAsset.t) (images : list ImageAsset.t)
  (files : list File.t) : list ImageAsset.t :=
  if (0 <? List.length (imageFiles files))%nat
  then images ++ newImages randomId createObjectURL audioAsset images files
  else images.

(** [handleTimelineReorder(fromIndex, toIndex)]: the array given to
    [setImages], or the current one when the handler returns early.  An
    element is [Some] clip; [None] is the [undefined] that [movedItem] is
    when [fromIndex] is past the end, and which is then inserted. *)
Definition handleTimelineReorder (fromIndex toIndex : nat)
  (images : list ImageAsset.t) : list (option ImageAsset.t) :=
  if (fromIndex =? toIndex)%nat then List.map Some images
  else
    let updatedImages := List.map Some images in
    let '(removed, updatedImages1) :=
      JS.splice fromIndex 1 [] updatedImages in
    let movedItem := match removed with
                     | x :: _ => x
                     | [] => None
                     end in
    snd (JS.splice toIndex 0 [movedItem] updatedImages1).

Inductive Direction : Type := Forward | Backward.

(** The swap [[a[i], a[j]] = [a[j], a[i]]] for [i] and [j] inside the
    array: the right-hand side is read first, then [a[i]] and [a[j]] are
    written in this order. *)
Definition swap (i j : nat) (arr : list ImageAsset.t) : list ImageAsset.t :=
  match nth_error arr j, nth_error arr i with
  | Some aj, Some ai => JS.set_index j ai (JS.set_index i aj arr)
  | _, _ => arr
  end.

(** [moveSelectedImageOrder(direction)]: the clip sequence afterwards. *)
Definition moveSelectedImageOrder (direction : Direction)
  (selectedImageId : option string) (images : list ImageAsset.t)
  : list ImageAsset.t :=
  match selectedImageId with
  | None => images
  | Some sel =>
      match JS.findIndex (fun img => String.eqb (ImageAsset.id img) sel)
              images with
      | None => images
      | Some index =>
          match direction with
          | Backward =>
              if (0 <? index)%nat then swap index (index - 1) images
              else images
          | Forward =>
              if (index <? List.length images - 1)%nat
              then swap index (index + 1) images
              else images
          end
      end
  end.

End Editing.

(** ** Export ([handleExport]) and the events that finish it *)

Module Exporter.

Inductive RecorderState : Type :=
| Inactive      (* created, or stopped *)
| Recording     (* after [start()] *)
| Stopping.     (* after [stop()], the [stop] event not yet delivered *)

Record MediaRecorder : Type :=
  { state : RecorderState;
    mimeType : string;
    videoBitsPerSecond : option Q }.

Record AudioElement : Type :=
  { paused : bool; position : Q }.

(** The state [handleExport] and its callbacks read and write. *)
Record App : Type :=
  { appState : AppState;
    isPlaying : bool;
    currentTime : Q;
    speakersGain : option Q;          (* [speakersGainNodeRef.current?.gain.value] *)
    audio : option AudioElement;      (* [audioRef.current] *)
    bgAudio : option AudioElement;    (* [bgAudioRef.current] *)
    recorder : option MediaRecorder;
    onended : bool;                   (* [audioRef.current.onended] is set *)
    timers : list Q;                  (* pending [setTimeout] delays, in ms *)
    toasts : list (string * ToastType);
    downloads : list string }.        (* file names offered for download *)

(** The calls of the [try] block that may throw. *)
Inductive SetupStep : Type :=
| CanvasCaptureStream | AudioCaptureStream | NewMediaStream
| NewMediaRecorder | RecorderStart | AudioPlay | BgAudioPlay.

(** What the closure of [handleExport] captures, the refs it reads, and
    which of the platform calls throw. *)
Record Env : Type :=
  { canvasPresent : bool;
    images : list ImageAsset.t;
    audioAsset : option AudioAsset.t;
    frameRate : VideoFrameRate;
    resolution : VideoResolution;
    destNode : bool;                  (* [destNodeRef.current] is set *)
    audioHasCaptureStream : bool;
    vp9Supported : bool;
    throws : SetupStep -> bool }.

Inductive Outcome : Type := Done | Thrown.

(** A statement sequence that may throw: state changes made before the
    throw stay. *)
Definition Try : Type := App -> App * Outcome.

Definition andThen (a b : Try) : Try :=
  fun st => match a st with
            | (st1, Done) => b st1
            | (st1, Thrown) => (st1, Thrown)
            end.

Definition exec (f : App -> App) : Try := fun st => (f st, Done).

Definition throw : Try := fun st => (st, Thrown).

Definition call (e : Env) (step : SetupStep) : Try :=
  fun st => (st, if throws e step then Thrown else Done).

Definition pause (a : option AudioElement) : option AudioElement :=
  option_map (fun el => {| paused := true; position := position el |}) a.

Definition play (a : option AudioElement) : option AudioElement :=
  option_map (fun el => {| paused := false; position := position el |}) a.

Definition seek (t : Q) (a : option AudioElement) : option AudioElement :=
  option_map (fun el => {| paused := paused el; position := t |}) a.

Definition set_gain (v : Q) (st : App) : App :=
  {| appState := appState st; isPlaying := isPlaying st;
     currentTime := currentTime st;
     speakersGain := option_map (fun _ => v) (speakersGain st);
     audio := audio st; bgAudio := bgAudio st; recorder := recorder st;
     onended := onended st; timers := timers st; toasts := toasts st;
     downloads := downloads st |}.

Definition setAppState (v : AppState) (st : App) : App :=
  {| appState := v; isPlaying := isPlaying st;
     currentTime := currentTime st; speakersGain := speakersGain st;
     audio := audio st; bgAudio := bgAudio st; recorder := recorder st;
     onended := onended st; timers := timers st; toasts := toasts st;
     downloads := downloads st |}.

Definition setIsPlaying (v : bool) (st : App) : App :=
  {| appState := appState st; isPlaying := v;
     currentTime := currentTime st; speakersGain := speakersGain st;
     audio := audio st; bgAudio := bgAudio st; recorder := recorder st;
     onended := onended st; timers := timers st; toasts := toasts st;
     downloads := downloads st |}.

Definition setCurrentTime (v : Q) (st : App) : App :=
  {| appState := appState st; isPlaying := isPlaying st;
     currentTime := v; speakersGain := speakersGain st;
     audio := audio st; bgAudio := bgAudio st; recorder := recorder st;
     onended := onended st; timers := timers st; toasts := toasts st;
     downloads := downloads st |}.

Definition with_audio (f : option AudioElement -> option AudioElement)
  (st : App) : App :=
  {| appState := appState st; isPlaying := isPlaying st;
     currentTime := currentTime st; speakersGain := speakersGain st;
     audio := f (audio st); bgAudio := bgAudio st; recorder := recorder st;
     onended := onended st; timers := timers st; toasts := toasts st;
     downloads := downloads st |}.

Definition with_bgAudio (f : option AudioElement -> option AudioElement)
  (st : App) : App :=
  {| appState := appState st; isPlaying := isPlaying st;
     currentTime := currentTime st; speakersGain := speakersGain st;
     audio := audio st; bgAudio := f (bgAudio st); recorder := recorder st;
     onended := onended st; timers := timers st; toasts := toasts st;
     downloads := downloads st |}.

Definition set_recorder (r : option MediaRecorder) (st : App) : App :=
  {| appState := appState st; isPlaying := isPlaying st;
     currentTime := currentTime st; speakersGain := speakersGain st;
     audio := audio st; bgAudio := bgAudio st; recorder := r;
     onended := onended st; timers := timers st; toasts := toasts st;
     downloads := downloads st |}.

Definition set_onended (v : bool) (st : App) : App :=
  {| appState := appState st; isPlaying := isPlaying st;
     currentTime := currentTime st; speakersGain := speakersGain st;
     audio := audio st; bgAudio := bgAudio st; recorder := recorder st;
     onended := v; timers := timers st; toasts := toasts st;
     downloads := downloads st |}.

Definition set_timers (v : list Q) (st : App) : App :=
  {| appState := appState st; isPlaying := isPlaying st;
     currentTime := currentTime st; speakersGain := speakersGain st;
     audio := audio st; bgAudio := bgAudio st; recorder := recorder st;
     onended := onended st; timers := v; toasts := toasts st;
     downloads := downloads st |}.

Definition addToast (message : string) (type : ToastType) (st : App) : App :=
  {| appState := appState st; isPlaying := isPlaying st;
     currentTime := currentTime st; speakersGain := speakersGain st;
     audio := audio st; bgAudio := bgAudio st; recorder := recorder st;
     onended := onended st; timers := timers st;
     toasts := toasts st ++ [(message, type)];
     downloads := downloads st |}.

Definition offerDownload (name : string) (st : App) : App :=
  {| appState := appState st; isPlaying := isPlaying st;
     currentTime := currentTime st; speakersGain := speakersGain st;
     audio := audio st; bgAudio := bgAudio st; recorder := recorder st;
     onended := onended st; timers := timers st; toasts := toasts st;
     downloads := downloads st ++ [name] |}.

Definition set_recorder_state (v : RecorderState) (st : App) : App :=
  set_recorder
    (option_map (fun r => {| state := v; mimeType := mimeType r;
                             videoBitsPerSecond := videoBitsPerSecond r |})
       (recorder st)) st.

(** [bitrate] *)
Definition bitrate (e : Env) : Q :=
  match resolution e, frameRate e with
  | R1080p, Fps60 => 8000000
  | R1080p, Fps30 => 5000000
  | R720p, Fps60 => 3500000
  | R720p, Fps30 => 2500000
  end.

(** The recorder as constructed: VP9 with the bitrate, or plain WebM
    without one. *)
Definition newRecorder (e : Env) : MediaRecorder :=
  if vp9Supported e
  then {| state := Inactive; mimeType := "video/webm;codecs=vp9";
          videoBitsPerSecond := Some (bitrate e) |}
  else {| state := Inactive; mimeType := "video/webm";
          videoBitsPerSecond := None |}.

Declare Scope try_scope.
Delimit Scope try_scope with try.
Notation "a >> b" := (andThen a b)
  (at level 61, right associativity) : try_scope.
Local Open Scope try_scope.

(** Building [combinedStream]. *)
Definition buildStream (e : Env) : Try :=
  if destNode e then call e NewMediaStream
  else
    fun st =>
      match audio st with
      | None => throw st       (* property read on [null] *)
      | Some _ =>
          ((if audioHasCaptureStream e
            then call e AudioCaptureStream
            else exec (fun st => st))
           >> call e NewMediaStream) st
      end.

(** The two ways the recording is started and driven to its end. *)
Definition startWithAudio (e : Env) : Try :=
  exec (with_audio (seek 0)) >>
  exec (with_bgAudio (seek 0)) >>
  call e RecorderStart >>
  exec (set_recorder_state Recording) >>
  call e AudioPlay >>
  exec (with_audio play) >>
  (fun st => match bgAudio st with
             | Some _ => (call e BgAudioPlay >> exec (with_bgAudio play)) st
             | None => (st, Done)
             end) >>
  exec (setIsPlaying true) >>
  exec (set_onended true).

Definition startWithTimer (e : Env) (totalDuration : Q) : Try :=
  call e RecorderStart >>
  exec (set_recorder_state Recording) >>
  exec (setIsPlaying true) >>
  exec (fun st => set_timers (timers st ++ [totalDuration * 1000]) st).

(** The body of the [try] block. *)
Definition setup (e : Env) (totalDuration : Q) : Try :=
  call e CanvasCaptureStream >>
  buildStream e >>
  call e NewMediaRecorder >>
  exec (set_recorder (Some (newRecorder e))) >>
  exec (setCurrentTime 0) >>
  (fun st =>
     match audioAsset e, audio st with
     | Some _, Some _ => startWithAudio e st
     | _, _ => startWithTimer e totalDuration st
     end).

(** The [catch] block. *)
Definition onCatch (st : App) : App :=
  set_gain 1 (setAppState READY (addToast "Export failed." ToastError st)).

(** The guard at the head of [handleExport]. *)
Definition nothingToExport (e : Env) : bool :=
  negb (canvasPresent e)
  || ((List.length (images e) =? 0)%nat
      && match audioAsset e with Some _ => false | None => true end).

(** The statements between the guard and the [try] block. *)
Definition beginExport (st : App) : App :=
  set_gain 0
    (with_bgAudio pause
       (with_audio pause (setIsPlaying false (setAppState EXPORTING st)))).

Definition handleExport (e : Env) (st : App) : App :=
  if nothingToExport e then st
  else
    match setup e (totalDuration (audioAsset e) (images e))
            (beginExport st) with
    | (st', Done) => st'
    | (st', Thrown) => onCatch st'
    end.

(** [recorder.stop()] inside a callback, followed by the rest of the
    callback; on a recorder that is not recording, [stop()] throws and the
    rest is skipped. *)
Definition stopThen (rest : App -> App) (st : App) : App :=
  match recorder st with
  | Some r =>
      match state r with
      | Recording => rest (set_recorder_state Stopping st)
      | _ => st
      end
  | None => st
  end.

Inductive Event : Type :=
| TimerFired        (* the oldest pending timeout runs *)
| AudioEnded        (* [ended] on the main audio element *)
| RecorderStopped.  (* the [stop] event of the recorder *)

(** [recorder.onstop] *)
Definition onstop (st : App) : App :=
  set_gain 1
    (addToast "Exported!" ToastSuccess
       (setAppState READY (offerDownload "lyricalflow.webm" st))).

Definition step (ev : Event) (st : App) : App :=
  match ev with
  | TimerFired =>
      match timers st with
      | [] => st
      | _ :: rest => stopThen (setIsPlaying false) (set_timers rest st)
      end
  | AudioEnded =>
      (* the [onEnded] prop of the element, then the [onended] property *)
      let st1 := setIsPlaying false st in
      if onended st1
      then stopThen (fun s => setIsPlaying false
                                (with_bgAudio pause (set_onended false s)))
             st1
      else st1
  | RecorderStopped =>
      match recorder st with
      | Some r =>
          match state r with
          | Stopping => onstop (set_recorder_state Inactive st)
          | _ => st
          end
      | None => st
      end
  end.

Definition run (evs : list Event) (st : App) : App :=
  fold_left (fun s ev => step ev s) evs st.

(** No callback of a previous export is pending. *)
Definition quiescent (st : App) : Prop :=
  timers st = [] /\ onended st = false
  /\ match recorder st with
     | Some r => state r <> Stopping
     | None => True
     end.

(** The fields that neither the setup nor its failure may disturb. *)
Definition same_core (st st' : App) : Prop :=
  appState st' = appState st /\ speakersGain st' = speakersGain st
  /\ toasts st' = toasts st /\ downloads st' = downloads st.

Definition notStopping (st : App) : Prop :=
  match recorder st with
  | Some r => state r <> Stopping
  | None => True
  end.

(** A setup step that installs no callback. *)
Definition quiet (t : Try) : Prop :=
  forall st,
    same_core st (fst (t st))
    /\ timers (fst (t st)) = timers st
    /\ onended (fst (t st)) = onended st
    /\ (notStopping st -> notStopping (fst (t st))).

(** A setup step that installs a callback only when it does not throw. *)
Definition callback_last (t : Try) : Prop :=
  forall st,
    same_core st (fst (t st))
    /\ (notStopping st -> notStopping (fst (t st)))
    /\ (snd (t st) = Thrown ->
        timers (fst (t st)) = timers st
        /\ onended (fst (t st)) = onended st).

End Exporter.

(** The part of the context that a drawing call of [drawCanvas] can
    inherit from earlier calls: everything but the fill style, the font and
    the text alignment, which are set before each use. *)
Definition inherited (c : Canvas.Ctx) : Canvas.Common * Q * string :=
  (Canvas.common (Canvas.cur c), Canvas.lineWidth (Canvas.cur c),
   Canvas.textBaseline (Canvas.cur c)).

(** A command that leaves the context as it found it when it returns,
    leaves two saved states more on the stack when it throws, and whose
    paints and completion depend on the context through [inherited]
    only. *)
Definition bracketed (m : Canvas.Cmd) : Prop :=
  forall c,
    match Canvas.completion (m c) with
    | Canvas.Returned => Canvas.ctx (m c) = c
    | Canvas.Threw _ =>
        exists s1 s2,
          Canvas.stack (Canvas.ctx (m c)) = s2 :: s1 :: Canvas.stack c
    end
    /\ forall c', inherited c = inherited c' ->
         Canvas.painted (m c) = Canvas.painted (m c')
         /\ Canvas.completion (m c) = Canvas.completion (m c').

(** Commands that cannot throw. *)
Definition returns (a : Canvas.Cmd) : Prop :=
  forall c, Canvas.completion (a c) = Canvas.Returned.

(** No image element of the scene is in the broken state. *)
Definition noBrokenImage (s : Scene) : Prop :=
  forall id el,
    Map_get id (imageElements s) = Some el ->
    Canvas.request el <> Canvas.Broken.

(** ** The timeline strip ([Timeline] component) *)

Module TimelineView.

Definition PX_PER_SEC : Q := 30.
Definition HEADER_WIDTH : Q := 80.

(** What [handleSeek] reads of the scroll container. *)
Record Container : Type :=
  { rectLeft : Q; scrollLeft : Q }.

(** [handleSeek]: the time handed to [onSeek], or [None] when the click is
    ignored (a drag is going on, the container is missing, or the click,
    in the coordinates of the scrolled content, is left of the width of
    the header). *)
Definition handleSeek (draggedIndex : option nat)
  (container : option Container) (clientX duration : Q) : option Q :=
  match draggedIndex with
  | Some _ => None
  | None =>
      match container with
      | None => None
      | Some ct =>
          let x := clientX - rectLeft ct + scrollLeft ct in
          if JS.lt x HEADER_WIDTH then None
          else
            let time := (x - HEADER_WIDTH) / PX_PER_SEC in
            Some (JS.min (JS.max time 0) duration)
      end
  end.

(** The [left] of the playhead line, in the coordinates of the strip. *)
Definition playheadLeft (currentTime : Q) : Q :=
  HEADER_WIDTH + (currentTime * PX_PER_SEC).

(** The time a click on clip [i] seeks to:
    [images.slice(0, i).reduce(...) + 0.01]. *)
Definition clipClickSeek (images : list ImageAsset.t) (i : nat) : Q :=
  fold_left (fun acc curr => acc + ImageAsset.duration curr)
    (firstn i images) 0
  + 0.01.

(** [handleDrop]: the arguments [onReorder] is called with, if it is. *)
Definition handleDrop (draggedIndex : option nat) (dropIndex : nat)
  : option (nat * nat) :=
  match draggedIndex with
  | None => None
  | Some d => if (d =? dropIndex)%nat then None else Some (d, dropIndex)
  end.

End TimelineView.

(** ** Playback: seeking to a clip and the frame loop *)

Module Playback.

(** The loop of [jumpToImage]: the durations before the first clip with the
    given id, or all of them when no clip has it. *)
Fixpoint jumpToImage_loop (imageId : string) (rest : list ImageAsset.t)
  (startTime : Q) : Q :=
  match rest with
  | [] => startTime
  | img :: rest' =>
      if String.eqb (ImageAsset.id img) imageId then startTime
      else jumpToImage_loop imageId rest'
             (startTime + ImageAsset.duration img)
  end.

(** [seekTime] of [jumpToImage]. *)
Definition jumpToImage (imageId : string) (images : list ImageAsset.t) : Q :=
  jumpToImage_loop imageId images 0 + 0.1.

Record Player : Type :=
  { isPlaying : bool; currentTime : Q }.

(** One turn of the animation-frame loop, before it draws: [audio] is the
    main audio element when [audioAsset && audioRef.current] holds, [dt]
    the seconds since the last turn. *)
Definition tick (audio : option Exporter.AudioElement)
  (totalDuration dt : Q) (st : Player) : Player :=
  if isPlaying st then
    match audio with
    | Some el =>
        if negb (Exporter.paused el)
        then {| isPlaying := isPlaying st;
                currentTime := Exporter.position el |}
        else st
    | None =>
        let n := currentTime st + dt in
        if JS.ge n totalDuration
        then {| isPlaying := false; currentTime := 0 |}
        else {| isPlaying := isPlaying st; currentTime := n |}
    end
  else st.

Definition ticks (totalDuration : Q) (dts : list Q) (st : Player) : Player :=
  fold_left (fun s dt => tick None totalDuration dt s) dts st.

End Playback.

(** ** Geometry of a clip layer (the locals of [renderLayer]) *)

Module Layer.

(** [rw] and [rh]: the image scaled to cover the canvas. *)
Definition rw (el : Canvas.HTMLImageElement) (width height : Q) : Q :=
  let ia := Canvas.width el / Canvas.height el in
  let ca := width / height in
  if JS.gt ia ca then height * ia else width.

Definition rh (el : Canvas.HTMLImageElement) (width height : Q) : Q :=
  let ia := Canvas.width el / Canvas.height el in
  let ca := width / height in
  if JS.gt ia ca then height else width / ia.

Definition verticalBias (el : Canvas.HTMLImageElement) (width height : Q)
  : Q :=
  if JS.gt (rh el width height) height
  then (rh el width height - height) * 0.25 else 0.

(** [z], the slow zoom of clip [idx] at the current time. *)
Definition z (s : Scene) (idx : nat) (img : ImageAsset.t) : Q :=
  let lst := cumulativeStart (images s) idx in
  let kb := JS.max 0 (currentTime s - lst) / ImageAsset.duration img in
  1 + (kb * 0.1).

End Layer.

(** ** Scenes that differ in the decoded images only *)

Definition isDrawImage (p : Canvas.Paint) : bool :=
  match p with
  | Canvas.DrawImage _ _ _ _ _ => true
  | _ => false
  end.

(** The scene [s] with another content of [imageElementsRef]. *)
Definition withElements (s : Scene)
  (els : list (string * Canvas.HTMLImageElement)) : Scene :=
  {| images := images s;
     audioAsset := audioAsset s;
     currentTime := currentTime s;
     lyrics := lyrics s;
     transitionEffect := transitionEffect s;
     transitionDuration := transitionDuration s;
     canvas := canvas s;
     imageElements := els |}.

(** ** The inspector: edits of the selected clip *)

Module Inspector.

(** [Partial<CropData>], [Partial<ImageAdjustments>] and
    [Partial<ImageAsset>]: [Some v] for a key that the update carries. *)
Module CropUpdates.
Record t : Type := mk { x : option Q; y : option Q; scale : option Q }.
End CropUpdates.

Module AdjustmentUpdates.
Record t : Type := mk
  { brightness : option Q; contrast : option Q; saturation : option Q;
    sepia : option Q; grayscale : option Q; blur : option Q }.
End AdjustmentUpdates.

Module ImageUpdates.
Record t : Type := mk
  { id : option string; url : option string; file : option File.t;
    crop : option (option CropData.t);
    adjustments : option (option ImageAdjustments.t);
    duration : option Q;
    textOverlays : option (list TextOverlay.t) }.
End ImageUpdates.

(** [v] where the update carries the key, else the old value. *)
Definition override {A : Type} (old : A) (update : option A) : A :=
  match update with Some v => v | None => old end.

(** [{ ...currentCrop, ...updates }] *)
Definition mergeCrop (c : CropData.t) (u : CropUpdates.t) : CropData.t :=
  CropData.mk (override (CropData.x c) (CropUpdates.x u))
    (override (CropData.y c) (CropUpdates.y u))
    (override (CropData.scale c) (CropUpdates.scale u)).

Definition mergeAdjustments (a : ImageAdjustments.t)
  (u : AdjustmentUpdates.t) : ImageAdjustments.t :=
  ImageAdjustments.mk
    (override (ImageAdjustments.brightness a) (AdjustmentUpdates.brightness u))
    (override (ImageAdjustments.contrast a) (AdjustmentUpdates.contrast u))
    (override (ImageAdjustments.saturation a)
       (AdjustmentUpdates.saturation u))
    (override (ImageAdjustments.sepia a) (AdjustmentUpdates.sepia u))
    (override (ImageAdjustments.grayscale a) (AdjustmentUpdates.grayscale u))
    (override (ImageAdjustments.blur a) (AdjustmentUpdates.blur u)).

(** [{ ...img, ...updates }] *)
Definition mergeImage (img : ImageAsset.t) (u : ImageUpdates.t)
  : ImageAsset.t :=
  ImageAsset.mk
    (override (ImageAsset.id img) (ImageUpdates.id u))
    (override (ImageAsset.url img) (ImageUpdates.url u))
    (override (ImageAsset.file img) (ImageUpdates.file u))
    (override (ImageAsset.crop img) (ImageUpdates.crop u))
    (override (ImageAsset.adjustments img) (ImageUpdates.adjustments u))
    (override (ImageAsset.duration img) (ImageUpdates.duration u))
    (override (ImageAsset.textOverlays img) (ImageUpdates.textOverlays u)).

(** The id behind a guard [if (!selectedImageId) return]: [null] and the
    empty string are falsy. *)
Definition truthy (selectedId : option string) : option string :=
  match selectedId with
  | None => None
  | Some id => if String.eqb id "" then None else Some id
  end.

Definition with_crop (img : ImageAsset.t) (c : CropData.t) : ImageAsset.t :=
  ImageAsset.mk (ImageAsset.id img) (ImageAsset.url img)
    (ImageAsset.file img) (Some c) (ImageAsset.adjustments img)
    (ImageAsset.duration img) (ImageAsset.textOverlays img).

Definition with_adjustments (img : ImageAsset.t) (a : ImageAdjustments.t)
  : ImageAsset.t :=
  ImageAsset.mk (ImageAsset.id img) (ImageAsset.url img)
    (ImageAsset.file img) (ImageAsset.crop img) (Some a)
    (ImageAsset.duration img) (ImageAsset.textOverlays img).

Definition with_textOverlays (img : ImageAsset.t)
  (ovs : list TextOverlay.t) : ImageAsset.t :=
  ImageAsset.mk (ImageAsset.id img) (ImageAsset.url img)
    (ImageAsset.file img) (ImageAsset.crop img) (ImageAsset.adjustments img)
    (ImageAsset.duration img) ovs.

(** [updateSelectedImage(updates)] *)
Definition updateSelectedImage (selectedImageId : option string)
  (updates : ImageUpdates.t) (images : list ImageAsset.t)
  : list ImageAsset.t :=
  match truthy selectedImageId with
  | None => images
  | Some sel =>
      List.map (fun img => if String.eqb (ImageAsset.id img) sel
                           then mergeImage img updates else img) images
  end.

(** [updateSelectedImageCrop(updates)] *)
Definition updateSelectedImageCrop (selectedImageId : option string)
  (updates : CropUpdates.t) (images : list ImageAsset.t)
  : list ImageAsset.t :=
  match truthy selectedImageId with
  | None => images
  | Some sel =>
      List.map
        (fun img =>
           if negb (String.eqb (ImageAsset.id img) sel) then img
           else
             let currentCrop := match ImageAsset.crop img with
                                | Some c => c
                                | None => CropData.mk 0 0 1
                                end in
             with_crop img (mergeCrop currentCrop updates))
        images
  end.

(** [updateSelectedImageAdjustments(updates)] *)
Definition updateSelectedImageAdjustments (selectedImageId : option string)
  (updates : AdjustmentUpdates.t) (images : list ImageAsset.t)
  : list ImageAsset.t :=
  match truthy selectedImageId with
  | None => images
  | Some sel =>
      List.map
        (fun img =>
           if negb (String.eqb (ImageAsset.id img) sel) then img
           else
             let currentAdj := match ImageAsset.adjustments img with
                               | Some a => a
                               | None =>
                                   ImageAdjustments.mk 100 100 100 0 0 0
                               end in
             with_adjustments img (mergeAdjustments currentAdj updates))
        images
  end.

(** [applyPreset(preset)] *)
Definition applyPreset (selectedImageId : option string)
  (preset : ImageAdjustments.t) (images : list ImageAsset.t)
  : list ImageAsset.t :=
  updateSelectedImageAdjustments selectedImageId
    (AdjustmentUpdates.mk
       (Some (ImageAdjustments.brightness preset))
       (Some (ImageAdjustments.contrast preset))
       (Some (ImageAdjustments.saturation preset))
       (Some (ImageAdjustments.sepia preset))
       (Some (ImageAdjustments.grayscale preset))
       (Some (ImageAdjustments.blur preset)))
    images.

(** [saveCrop]: the clip sequence afterwards. *)
Definition saveCrop (editingImageId : option string) (tempCrop : CropData.t)
  (images : list ImageAsset.t) : list ImageAsset.t :=
  match truthy editingImageId with
  | None => images
  | Some editing =>
      List.map (fun img => if String.eqb (ImageAsset.id img) editing
                           then with_crop img tempCrop else img) images
  end.

(** [handleCropMouseMove]: the new [tempCrop] after the mouse moved by
    [(dx, dy)] since the last event. *)
Definition handleCropMouseMove (isDraggingCrop : bool) (dx dy : Q)
  (prev : CropData.t) : CropData.t :=
  if negb isDraggingCrop then prev
  else
    let scaleFactor := 1280 / 640 in
    let newX := CropData.x prev + (dx * scaleFactor) in
    let newY := CropData.y prev + (dy * scaleFactor) in
    let newX := if JS.lt (Qabs newX) 30 then 0 else newX in
    let newY := if JS.lt (Qabs newY) 30 then 0 else newY in
    CropData.mk newX newY (CropData.scale prev).

(** [addTextToSelected]; [newId] is the id drawn for the overlay. *)
Definition addTextToSelected (newId : string)
  (selectedImageId : option string) (images : list ImageAsset.t)
  : list ImageAsset.t :=
  match truthy selectedImageId with
  | None => images
  | Some sel =>
      let newOverlay :=
        TextOverlay.mk newId "New Text" 0.5 0.5 40 "Inter" "#ffffff" 1
          AnimNone 1.5 in
      let selectedImage :=
        List.find (fun img => String.eqb (ImageAsset.id img) sel) images in
      let old := match selectedImage with
                 | Some img => ImageAsset.textOverlays img
                 | None => []
                 end in
      updateSelectedImage selectedImageId
        (ImageUpdates.mk None None None None None None
           (Some (old ++ [newOverlay])))
        images
  end.

(** [handleTextMouseMove]: the mouse moved by [(dx, dy)] over a container
    of the given size. *)
Definition handleTextMouseMove (isDraggingText : bool)
  (selectedImageId selectedTextId : option string)
  (container : option (Q * Q)) (dx dy : Q) (images : list ImageAsset.t)
  : list ImageAsset.t :=
  if negb isDraggingText then images
  else
    match truthy selectedImageId, truthy selectedTextId, container with
    | Some sel, Some selText, Some (rectWidth, rectHeight) =>
        let dXPercent := dx / rectWidth in
        let dYPercent := dy / rectHeight in
        List.map
          (fun img =>
             if negb (String.eqb (ImageAsset.id img) sel) then img
             else
               with_textOverlays img
                 (List.map
                    (fun ov =>
                       if negb (String.eqb (TextOverlay.id ov) selText)
                       then ov
                       else
                         TextOverlay.mk (TextOverlay.id ov)
                           (TextOverlay.text ov)
                           (TextOverlay.x ov + dXPercent)
                           (TextOverlay.y ov + dYPercent)
                           (TextOverlay.fontSize ov)
                           (TextOverlay.fontFamily ov)
                           (TextOverlay.color ov)
                           (TextOverlay.opacity ov)
                           (TextOverlay.animation ov)
                           (TextOverlay.animationDuration ov))
                    (ImageAsset.textOverlays img)))
          images
    | _, _, _ => images
    end.

End Inspector.

(** ** Saving and loading the project ([storageService], [handleSave],
       [handleLoad]) *)

Module Storage.

Record ProjectSettings : Type :=
  { resolution : VideoResolution;
    frameRate : VideoFrameRate;
    transitionEffect : TransitionEffect;
    transitionDuration : Q;
    mainAudioVolume : option Q }.

Record StoredData : Type :=
  { images : list ImageAsset.t;
    audioAsset : option AudioAsset.t;
    bgAudioAsset : option AudioAsset.t;
    bgMusicVolume : Q;
    subtitles : list Subtitle.t;
    settings : ProjectSettings }.

(** The object store: what is kept under the key [current_project]. *)
Definition Database : Type := option StoredData.

(** [{ ...img, url }] and [{ ...audioAsset, url }] *)
Definition image_with_url (u : string) (img : ImageAsset.t) : ImageAsset.t :=
  ImageAsset.mk (ImageAsset.id img) u (ImageAsset.file img)
    (ImageAsset.crop img) (ImageAsset.adjustments img)
    (ImageAsset.duration img) (ImageAsset.textOverlays img).

Definition audio_with_url (u : string) (a : AudioAsset.t) : AudioAsset.t :=
  AudioAsset.mk u (AudioAsset.file a) (AudioAsset.duration a).

(** [saveProject]: the store after the [put]. *)
Definition saveProject (images : list ImageAsset.t)
  (audioAsset bgAudioAsset : option AudioAsset.t) (bgMusicVolume : Q)
  (subtitles : list Subtitle.t) (settings : ProjectSettings) : Database :=
  let imagesToStore := List.map (image_with_url "") images in
  let audioToStore := option_map (audio_with_url "") audioAsset in
  let bgAudioToStore := option_map (audio_with_url "") bgAudioAsset in
  Some {| images := imagesToStore;
          audioAsset := audioToStore;
          bgAudioAsset := bgAudioToStore;
          bgMusicVolume := bgMusicVolume;
          subtitles := subtitles;
          settings := settings |}.

(** [loadProject]: [None] is the [null] of an empty store; the object URLs
    are made anew from the stored files. *)
Definition loadProject (createObjectURL : File.t -> string) (db : Database)
  : option StoredData :=
  match db with
  | None => None
  | Some data =>
      Some {| images :=
                List.map (fun img =>
                            image_with_url
                              (createObjectURL (ImageAsset.file img)) img)
                  (images data);
              audioAsset :=
                option_map (fun a =>
                              audio_with_url
                                (createObjectURL (AudioAsset.file a)) a)
                  (audioAsset data);
              bgAudioAsset :=
                option_map (fun a =>
                              audio_with_url
                                (createObjectURL (AudioAsset.file a)) a)
                  (bgAudioAsset data);
              bgMusicVolume := bgMusicVolume data;
              subtitles := subtitles data;
              settings := settings data |}
  end.

(** The state of the editor that is saved and loaded, and its toasts. *)
Record Project : Type :=
  { p_images : list ImageAsset.t;
    p_audioAsset : option AudioAsset.t;
    p_bgAudioAsset : option AudioAsset.t;
    p_bgMusicVolume : Q;
    p_lyrics : list Subtitle.t;
    p_resolution : VideoResolution;
    p_frameRate : VideoFrameRate;
    p_transitionEffect : TransitionEffect;
    p_transitionDuration : Q;
    p_mainAudioVolume : Q;
    p_toasts : list (string * ToastType) }.

Definition toast (message : string) (type : ToastType) (st : Project)
  : Project :=
  {| p_images := p_images st; p_audioAsset := p_audioAsset st;
     p_bgAudioAsset := p_bgAudioAsset st;
     p_bgMusicVolume := p_bgMusicVolume st; p_lyrics := p_lyrics st;
     p_resolution := p_resolution st; p_frameRate := p_frameRate st;
     p_transitionEffect := p_transitionEffect st;
     p_transitionDuration := p_transitionDuration st;
     p_mainAudioVolume := p_mainAudioVolume st;
     p_toasts := p_toasts st ++ [(message, type)] |}.

(** [handleSave]; [dbWorks] is false when the database request fails. *)
Definition handleSave (dbWorks : bool) (db : Database) (st : Project)
  : Database * Project :=
  if dbWorks then
    (saveProject (p_images st) (p_audioAsset st) (p_bgAudioAsset st)
       (p_bgMusicVolume st) (p_lyrics st)
       {| resolution := p_resolution st; frameRate := p_frameRate st;
          transitionEffect := p_transitionEffect st;
          transitionDuration := p_transitionDuration st;
          mainAudioVolume := Some (p_mainAudioVolume st) |},
     toast "Saved!" ToastSuccess st)
  else (db, toast "Save failed." ToastError st).

(** [handleLoad] *)
Definition handleLoad (dbWorks : bool) (createObjectURL : File.t -> string)
  (db : Database) (st : Project) : Project :=
  if dbWorks then
    match loadProject createObjectURL db with
    | None => toast "No save." ToastInfo st
    | Some p =>
        toast "Loaded!" ToastSuccess
          {| p_images := images p;
             p_audioAsset := match audioAsset p with
                             | Some a => Some a
                             | None => p_audioAsset st
                             end;
             p_bgAudioAsset := match bgAudioAsset p with
                               | Some a => Some a
                               | None => p_bgAudioAsset st
                               end;
             p_bgMusicVolume := bgMusicVolume p;
             p_lyrics := subtitles p;
             p_resolution := resolution (settings p);
             p_frameRate := frameRate (settings p);
             p_transitionEffect := transitionEffect (settings p);
             p_transitionDuration := transitionDuration (settings p);
             p_mainAudioVolume :=
               match mainAudioVolume (settings p) with
               | Some v => v
               | None => p_mainAudioVolume st
               end;
             p_toasts := p_toasts st |}
    end
  else toast "Load failed." ToastError st.

End Storage.

(** ** Phases of an export *)

Module ExportPhases.

Import Exporter.

Definition exportedFile : string := "lyricalflow.webm".

(** The states an export passes through, seen from the downloads [d0] and
    the speakers gain [g0] before it: at rest (not started, failed, or
    finished), recording with one callback pending, and stopping. *)
Definition atRest (d0 : list string) (g0 : option Q) (s : App) : Prop :=
  quiescent s /\ appState s <> EXPORTING
  /\ (downloads s = d0
      \/ (downloads s = d0 ++ [exportedFile] /\ appState s = READY
          /\ speakersGain s = option_map (fun _ => 1) g0)).

Definition recording (d0 : list string) (g0 : option Q) (s : App) : Prop :=
  appState s = EXPORTING
  /\ speakersGain s = option_map (fun _ => 0) g0
  /\ downloads s = d0
  /\ option_map state (recorder s) = Some Recording
  /\ (((exists delay, timers s = [delay]) /\ onended s = false)
      \/ (timers s = [] /\ onended s = true)).

Definition stopping (d0 : list string) (g0 : option Q) (s : App) : Prop :=
  appState s = EXPORTING
  /\ speakersGain s = option_map (fun _ => 0) g0
  /\ downloads s = d0
  /\ option_map state (recorder s) = Some Stopping
  /\ timers s = [] /\ onended s = false.

Definition phase (d0 : list string) (g0 : option Q) (s : App) : Prop :=
  atRest d0 g0 s \/ recording d0 g0 s \/ stopping d0 g0 s.

End ExportPhases.

(** ** The remote captions and lyrics ([geminiService]) and their handlers *)

Module Assist.

(** How a promise settles. *)
Inductive Settled (A : Type) : Type :=
| Resolved (a : A)
| Rejected.
Arguments Resolved {A} a.
Arguments Rejected {A}.

(** A transcribed line, [Omit<Subtitle, 'id'>]. *)
Record Line : Type :=
  { startTime : Q; endTime : Q; text : string }.

(** [generateImageCaption]: [apiKey] tells whether [process.env.API_KEY] is
    set, [base64] how reading the file settles, [response] how the remote
    call settles, with the [text] of its response ([None] for
    [undefined]).  The promise always resolves. *)
Definition generateImageCaption (apiKey : bool) (base64 : Settled string)
  (response : Settled (option string)) : string :=
  if negb apiKey then "Cool Vibes"
  else
    match base64 with
    | Rejected => "Cool Vibes"
    | Resolved _ =>
        match response with
        | Rejected => "Cool Vibes"
        | Resolved None => "Cool Vibes"
        | Resolved (Some text) =>
            if String.eqb text "" then "Cool Vibes" else text
        end
    end.

(** [generateLyrics]; [parse] is [JSON.parse] on the response text, [None]
    when it throws. *)
Definition generateLyrics (apiKey : bool) (base64 : Settled string)
  (response : Settled (option string))
  (parse : string -> option (list Line)) : Settled (list Line) :=
  if negb apiKey then Rejected
  else
    match base64 with
    | Rejected => Rejected
    | Resolved _ =>
        match response with
        | Rejected => Rejected
        | Resolved None => Resolved []
        | Resolved (Some text) =>
            if String.eqb text "" then Resolved []
            else match parse text with
                 | Some lines => Resolved lines
                 | None => Rejected
                 end
        end
    end.

(** The state [handleSyncLyrics] writes. *)
Record Sync : Type :=
  { lyrics : list Subtitle.t;
    isSyncingLyrics : bool;
    toasts : list (string * ToastType) }.

(** [generatedLyrics.map(l => ({ ...l, id }))] with the id drawn for each
    line. *)
Fixpoint subtitlesWithIds (randomId : nat -> string) (k : nat)
  (lines : list Line) : list Subtitle.t :=
  match lines with
  | [] => []
  | l :: rest =>
      Subtitle.mk (randomId k) (startTime l) (endTime l) (text l)
      :: subtitlesWithIds randomId (S k) rest
  end.

(** [handleSyncLyrics], once the promise of [generateLyrics] has settled
    as [generated]. *)
Definition handleSyncLyrics (audioAsset : option AudioAsset.t)
  (generated : Settled (list Line)) (randomId : nat -> string) (st : Sync)
  : Sync :=
  match audioAsset with
  | None =>
      {| lyrics := lyrics st; isSyncingLyrics := isSyncingLyrics st;
         toasts := toasts st ++ [("Please upload audio first."%string, ToastError)] |}
  | Some _ =>
      let started := toasts st ++ [("Transcribing audio..."%string, ToastInfo)] in
      match generated with
      | Resolved generatedLyrics =>
          {| lyrics := subtitlesWithIds randomId 0 generatedLyrics;
             isSyncingLyrics := false;
             toasts := started ++ [("Lyrics synced!"%string, ToastSuccess)] |}
      | Rejected =>
          {| lyrics := lyrics st;
             isSyncingLyrics := false;
             toasts := started ++ [("Failed to sync lyrics."%string, ToastError)] |}
      end
  end.

(** [handleGenerateCaption], once the caption has arrived: the clip
    sequence afterwards; [selectedImage] is found by [selectedImageId]. *)
Definition handleGenerateCaption (newId : string)
  (selectedImageId : option string) (caption : string)
  (images : list ImageAsset.t) : list ImageAsset.t :=
  let selectedImage :=
    match selectedImageId with
    | Some sel =>
        List.find (fun img => String.eqb (ImageAsset.id img) sel) images
    | None => None
    end in
  match selectedImage with
  | None => images
  | Some img =>
      let newOverlay :=
        TextOverlay.mk newId caption 0.5 0.85 32 "Inter" "#ffffff" 1
          AnimFade 2.0 in
      Inspector.updateSelectedImage selectedImageId
        (Inspector.ImageUpdates.mk None None None None None None
           (Some (ImageAsset.textOverlays img ++ [newOverlay])))
        images
  end.

End Assist.

(** ** The audio graph ([initAudioContext]) *)

Module AudioGraph.

Inductive Node : Type :=
| MainSource | MainGain | BgSource | BgGain
| Analyser | StreamDestination | SpeakersGain | ContextDestination.

Inductive Element : Type := MainElement | BgElement.

(** The refs of the graph, the connections made so far and the calls of
    [createMediaElementSource] made so far. *)
Record Graph : Type :=
  { audioContext : bool;
    analyser : bool;
    destNode : bool;
    speakersGain : option Q;
    source : bool;
    mainGain : option Q;
    bgSource : bool;
    bgGain : option Q;
    connections : list (Node * Node);
    sourcesCreated : list Element }.

Definition empty : Graph :=
  {| audioContext := false; analyser := false; destNode := false;
     speakersGain := None; source := false; mainGain := None;
     bgSource := false; bgGain := None;
     connections := []; sourcesCreated := [] |}.

(** The block [if (!ctx) { ... }]. *)
Definition createContext (g : Graph) : Graph :=
  if audioContext g then g
  else
    {| audioContext := true; analyser := true; destNode := true;
       speakersGain := Some 1;
       source := source g; mainGain := mainGain g;
       bgSource := bgSource g; bgGain := bgGain g;
       connections :=
         connections g
         ++ [(SpeakersGain, ContextDestination); (Analyser, SpeakersGain)];
       sourcesCreated := sourcesCreated g |}.

(** "Main Audio Source Setup" *)
Definition setupMain (audioElement : bool) (mainAudioVolume : Q)
  (g : Graph) : Graph :=
  if audioElement && negb (source g) then
    {| audioContext := audioContext g; analyser := analyser g;
       destNode := destNode g; speakersGain := speakersGain g;
       source := true; mainGain := Some mainAudioVolume;
       bgSource := bgSource g; bgGain := bgGain g;
       connections :=
         connections g ++ [(MainSource, MainGain)]
         ++ (if analyser g then [(MainGain, Analyser)] else [])
         ++ (if destNode g then [(MainGain, StreamDestination)] else []);
       sourcesCreated := sourcesCreated g ++ [MainElement] |}
  else g.

(** "BG Audio Source Setup" *)
Definition setupBg (bgElement : bool) (bgMusicVolume : Q) (g : Graph)
  : Graph :=
  if bgElement && negb (bgSource g) then
    {| audioContext := audioContext g; analyser := analyser g;
       destNode := destNode g; speakersGain := speakersGain g;
       source := source g; mainGain := mainGain g;
       bgSource := true; bgGain := Some bgMusicVolume;
       connections :=
         connections g ++ [(BgSource, BgGain)]
         ++ (if destNode g then [(BgGain, StreamDestination)] else [])
         ++ (match speakersGain g with
             | Some _ => [(BgGain, SpeakersGain)]
             | None => []
             end);
       sourcesCreated := sourcesCreated g ++ [BgElement] |}
  else g.

(** [initAudioContext]; [audioElement] and [bgElement] tell whether
    [audioRef.current] and [bgAudioRef.current] are set. *)
Definition initAudioContext (audioElement bgElement : bool)
  (mainAudioVolume bgMusicVolume : Q) (g : Graph) : Graph :=
  setupBg bgElement bgMusicVolume
    (setupMain audioElement mainAudioVolume (createContext g)).

(** One call of [initAudioContext] with its arguments. *)
Record Call : Type :=
  { audioElement : bool; bgElement : bool;
    mainAudioVolume : Q; bgMusicVolume : Q }.

Definition calls (cs : list Call) (g : Graph) : Graph :=
  fold_left
    (fun g c => initAudioContext (audioElement c) (bgElement c)
                  (mainAudioVolume c) (bgMusicVolume c) g)
    cs g.

(** What holds of every graph built from the empty one. *)
Definition wellFormed (g : Graph) : Prop :=
  (audioContext g = false -> g = empty)
  /\ (audioContext g = true ->
      analyser g = true /\ destNode g = true /\ speakersGain g <> None)
  /\ NoDup (connections g)
  /\ NoDup (sourcesCreated g)
  /\ (In MainElement (sourcesCreated g) <-> source g = true)
  /\ (In BgElement (sourcesCreated g) <-> bgSource g = true)
  /\ (forall n, In (n, ContextDestination) (connections g) ->
                n = SpeakersGain)
  /\ (source g = true ->
      In (MainSource, MainGain) (connections g)
      /\ In (MainGain, StreamDestination) (connections g)
      /\ In (MainGain, Analyser) (connections g))
  /\ (bgSource g = true ->
      In (BgSource, BgGain) (connections g)
      /\ In (BgGain, StreamDestination) (connections g)
      /\ In (BgGain, SpeakersGain) (connections g))
  /\ (forall a b, In (a, b) (connections g) ->
      (a = MainSource \/ a = MainGain -> source g = true)
      /\ (a = BgSource \/ a = BgGain -> bgSource g = true)).

End AudioGraph.

(** ** Sample data used in examples *)

(** A clip of duration [d] and a main audio of duration [d]. *)
Definition clip (d : Q) : ImageAsset.t :=
  ImageAsset.mk "clip" "" (File.mk "clip.png" "image/png") None None d [].

Definition song (d : Q) : AudioAsset.t :=
  AudioAsset.mk "" (File.mk "song.mp3" "audio/mpeg") d.

(** A clip with a given id, and its decoded image. *)
Definition clip_named (id : string) (d : Q) : ImageAsset.t :=
  ImageAsset.mk id "" (File.mk "clip.png" "image/png") None None d [].

Definition decoded (id : string) : string * Canvas.HTMLImageElement :=
  (id, Canvas.Build_HTMLImageElement ""
         (Canvas.CompletelyAvailable 1920 1080)).

(** The element of a clip whose file could not be decoded. *)
Definition undecodable (id : string) : string * Canvas.HTMLImageElement :=
  (id, Canvas.Build_HTMLImageElement "" Canvas.Broken).

(** Scenario A at time [t]: clips of 4 and 6 seconds, no audio, a fade of
    1 second, no subtitles, a 720p canvas. *)
Definition scenarioA (t : Q) : Scene :=
  {| images := [clip_named "a" 4; clip_named "b" 6];
     audioAsset := None;
     currentTime := t;
     lyrics := [];
     transitionEffect := TransFade;
     transitionDuration := 1;
     canvas := Some (RESOLUTIONS R720p);
     imageElements := [decoded "a"; decoded "b"] |}.

(** Scenario B at time [t]: one clip of 10 seconds and the subtitle
    "Hello" from 2 to 4 seconds. *)
Definition hello : Subtitle.t := Subtitle.mk "s1" 2 4 "Hello".

Definition scenarioB (t : Q) : Scene :=
  {| images := [clip_named "a" 10];
     audioAsset := None;
     currentTime := t;
     lyrics := [hello];
     transitionEffect := TransNone;
     transitionDuration := 1;
     canvas := Some (RESOLUTIONS R720p);
     imageElements := [decoded "a"] |}.

(** Scenario B with a clip whose file could not be decoded. *)
Definition scenarioB_undecodable (t : Q) : Scene :=
  withElements (scenarioB t) [undecodable "a"].

(** A typewriter overlay "Hello world" that completes in 2 seconds. *)
Definition typewriter_overlay : TextOverlay.t :=
  TextOverlay.mk "t1" "Hello world" 0.5 0.5 40 "Inter" "#ffffff" 1
    AnimTypewriter 2.

(** The app at rest, with both audio elements mounted and the audio graph
    built, and an export environment in which the platform calls listed in
    [failing] throw. *)
Definition appAtRest : Exporter.App :=
  {| Exporter.appState := READY;
     Exporter.isPlaying := false;
     Exporter.currentTime := 0;
     Exporter.speakersGain := Some 1;
     Exporter.audio := Some (Exporter.Build_AudioElement true 0);
     Exporter.bgAudio := Some (Exporter.Build_AudioElement true 0);
     Exporter.recorder := None;
     Exporter.onended := false;
     Exporter.timers := [];
     Exporter.toasts := [];
     Exporter.downloads := [] |}.

Definition exportEnv (images : list ImageAsset.t)
  (audioAsset : option AudioAsset.t)
  (failing : Exporter.SetupStep -> bool) : Exporter.Env :=
  {| Exporter.canvasPresent := true;
     Exporter.images := images;
     Exporter.audioAsset := audioAsset;
     Exporter.frameRate := Fps30;
     Exporter.resolution := R720p;
     Exporter.destNode := true;
     Exporter.audioHasCaptureStream := true;
     Exporter.vp9Supported := true;
     Exporter.throws := failing |}.

Definition nothingFails : Exporter.SetupStep -> bool := fun _ => false.

Definition recorderFails : Exporter.SetupStep -> bool :=
  fun step => match step with
              | Exporter.NewMediaRecorder => true
              | _ => false
              end.

(** A caption that fades in over 2 seconds. *)
Definition fade_overlay : TextOverlay.t :=
  TextOverlay.mk "t2" "Cool Vibes" 0.5 0.85 32 "Inter" "#ffffff" 1
    AnimFade 2.

(** A project of the clips of scenario A with a three-minute song, and the
    same without audio. *)
Definition project_with_song : Storage.Project :=
  {| Storage.p_images := [clip_named "a" 4; clip_named "b" 6];
     Storage.p_audioAsset := Some (song 180);
     Storage.p_bgAudioAsset := None;
     Storage.p_bgMusicVolume := 0.2;
     Storage.p_lyrics := [hello];
     Storage.p_resolution := R1080p;
     Storage.p_frameRate := Fps60;
     Storage.p_transitionEffect := TransFade;
     Storage.p_transitionDuration := 1;
     Storage.p_mainAudioVolume := 1;
     Storage.p_toasts := [] |}.

Definition project_without_audio : Storage.Project :=
  {| Storage.p_images := [];
     Storage.p_audioAsset := None;
     Storage.p_bgAudioAsset := None;
     Storage.p_bgMusicVolume := 0.2;
     Storage.p_lyrics := [];
     Storage.p_resolution := R720p;
     Storage.p_frameRate := Fps30;
     Storage.p_transitionEffect := TransNone;
     Storage.p_transitionDuration := 1;
     Storage.p_mainAudioVolume := 1;
     Storage.p_toasts := [] |}.

(** * Properties *)

Local Close Scope canvas_scope.

(** ** Comparisons and defaults *)

Lemma JS_lt_iff (a b : Q) : JS.lt a b = true <-> a < b.
Proof.
  unfold JS.lt. rewrite negb_true_iff, <- not_true_iff_false, Qle_bool_iff.
  split; intro H; [apply Qnot_le_lt | apply Qlt_not_le]; exact H.
Qed.

Lemma JS_le_iff (a b : Q) : JS.le a b = true <-> a <= b.
Proof. apply Qle_bool_iff. Qed.

Lemma JS_ge_iff (a b : Q) : JS.ge a b = true <-> b <= a.
Proof. apply Qle_bool_iff. Qed.

Lemma JS_gt_iff (a b : Q) : JS.gt a b = true <-> b < a.
Proof.
  unfold JS.gt. rewrite negb_true_iff, <- not_true_iff_false, Qle_bool_iff.
  split; intro H; [apply Qnot_le_lt | apply Qlt_not_le]; exact H.
Qed.

Lemma or_default_zero (x d : Q) : x == 0 -> JS.or_default x d = d.
Proof.
  intro H. unfold JS.or_default.
  destruct (Qeq_bool x 0) eqn:E; [reflexivity|].
  apply Qeq_bool_neq in E. contradiction.
Qed.

Lemma or_default_nonzero (x d : Q) : ~ x == 0 -> JS.or_default x d = x.
Proof.
  intro H. unfold JS.or_default.
  destruct (Qeq_bool x 0) eqn:E; [|reflexivity].
  apply Qeq_bool_iff in E. contradiction.
Qed.

Lemma or_default_0 (x : Q) : JS.or_default x 0 == x.
Proof.
  unfold JS.or_default. destruct (Qeq_bool x 0) eqn:E; [|reflexivity].
  apply Qeq_bool_iff in E. symmetry. exact E.
Qed.

(** ** Total duration *)

Lemma mainAudioDuration_some (a : AudioAsset.t) :
  mainAudioDuration (Some a) == AudioAsset.duration a.
Proof. apply or_default_0. Qed.

(** C1, counterexample.  With a main audio of 5 seconds and no clips the
    timeline lasts 10 seconds: the floor applies although the audio duration is not zero, and
    the total is neither the maximum of audio and clip sum nor the audio
    duration. *)
Lemma totalDuration_short_audio_no_clips :
  totalDuration (Some (song 5)) [] == 10
  /\ ~ totalDuration (Some (song 5)) []
       == JS.max (mainAudioDuration (Some (song 5))) (totalImageDuration [])
  /\ ~ totalDuration (Some (song 5)) [] == AudioAsset.duration (song 5).
Proof. vm_compute. repeat split; intro H; discriminate H. Qed.

(** C1 (as the code has it).  [totalDuration] is the maximum of the main
    audio duration (0 without audio) and the clip-duration sum when that sum
    is not zero; when the sum is zero it is the maximum of the audio
    duration and 10, so it is 10 when both are zero; with no clips and a
    main audio of at least 10 seconds it is the audio duration. *)
Theorem totalDuration_spec (audioAsset : option AudioAsset.t)
  (images : list ImageAsset.t) :
  (~ totalImageDuration images == 0 ->
   totalDuration audioAsset images
   == Qmax (mainAudioDuration audioAsset) (totalImageDuration images))
  /\ (totalImageDuration images == 0 ->
      totalDuration audioAsset images
      == Qmax (mainAudioDuration audioAsset) 10)
  /\ (totalImageDuration images == 0 -> mainAudioDuration audioAsset == 0 ->
      totalDuration audioAsset images == 10)
  /\ (forall a, audioAsset = Some a -> images = [] ->
      10 <= AudioAsset.duration a ->
      totalDuration audioAsset images == AudioAsset.duration a).
Proof.
  unfold totalDuration, JS.max. repeat split.
  - intro H. rewrite (or_default_nonzero _ _ H). reflexivity.
  - intro H. rewrite (or_default_zero _ _ H). reflexivity.
  - intros H Ha. rewrite (or_default_zero _ _ H), Ha.
    apply Q.max_r. discriminate.
  - intros a -> -> Ha.
    rewrite (or_default_zero (totalImageDuration []) 10) by reflexivity.
    rewrite mainAudioDuration_some. apply Q.max_l. exact Ha.
Qed.

(** The total duration at scenario A, at the empty project and at a
    three-minute song without clips. *)
Lemma totalDuration_spec_witness :
  totalDuration None [clip 4; clip 6]
  == Qmax (mainAudioDuration None) (totalImageDuration [clip 4; clip 6])
  /\ totalDuration None [] == 10
  /\ totalDuration (Some (song 180)) [] == 180.
Proof.
  split; [|split].
  - apply (proj1 (totalDuration_spec None [clip 4; clip 6])).
    vm_compute. discriminate.
  - apply (proj1 (proj2 (proj2 (totalDuration_spec None []))));
      reflexivity.
  - apply (proj2 (proj2 (proj2 (totalDuration_spec (Some (song 180)) [])))
             (song 180)); [reflexivity | reflexivity |].
    vm_compute. discriminate.
Defined.

(** ** Clock resolution *)

Section Clock.

Let add_duration := fun (acc : Q) (img : ImageAsset.t) =>
  acc + ImageAsset.duration img.

Lemma sum_from_shift (l : list ImageAsset.t) (acc : Q) :
  fold_left add_duration l acc == acc + fold_left add_duration l 0.
Proof.
  revert acc. induction l as [|img l IH]; intro acc; simpl.
  - lra.
  - rewrite (IH (add_duration acc img)), (IH (add_duration 0 img)).
    unfold add_duration. lra.
Qed.

Lemma sum_from_nonneg (l : list ImageAsset.t) :
  Forall (fun img => 0 <= ImageAsset.duration img) l ->
  0 <= fold_left add_duration l 0.
Proof.
  induction 1 as [|img l Hd _ IH]; simpl.
  - lra.
  - rewrite sum_from_shift. unfold add_duration in *. lra.
Qed.

(** The two loops test the clips alike. *)
Lemma loops_agree (t : Q) (rest : list ImageAsset.t) (i : nat) (acc : Q) :
  fst (drawCanvas_loop t rest i acc)
  = match getActiveImageIndex_loop t rest i acc with
    | Some j => Z.of_nat j
    | None => (-1)%Z
    end.
Proof.
  revert i acc. induction rest as [|img rest IH]; intros i acc; simpl.
  - reflexivity.
  - destruct (JS.ge t acc && JS.lt t (acc + ImageAsset.duration img));
      [reflexivity | apply IH].
Qed.

(** A clip found by the loop of [drawCanvas]: it is the first one whose
    window contains [t], and the start time handed on is the running sum at
    that clip. *)
Lemma drawCanvas_loop_found (t : Q) (rest : list ImageAsset.t) :
  forall (i : nat) (acc : Q) (idx : Z) (start : Q),
  drawCanvas_loop t rest i acc = (idx, start) ->
  idx <> (-1)%Z ->
  exists (k : nat) (img : ImageAsset.t),
    idx = Z.of_nat (i + k)
    /\ nth_error rest k = Some img
    /\ start = fold_left add_duration (firstn k rest) acc
    /\ start <= t /\ t < start + ImageAsset.duration img.
Proof.
  induction rest as [|img rest IH]; intros i acc idx start H Hidx; simpl in H.
  - inversion H. congruence.
  - destruct (JS.ge t acc && JS.lt t (acc + ImageAsset.duration img)) eqn:E.
    + inversion H; subst. apply andb_true_iff in E. destruct E as [E1 E2].
      apply JS_ge_iff in E1. apply JS_lt_iff in E2.
      exists 0%nat, img. rewrite Nat.add_0_r. simpl. auto.
    + destruct (IH _ _ _ _ H Hidx) as (k & img' & -> & Hn & -> & Hs).
      exists (S k), img'. rewrite Nat.add_succ_r. simpl. auto.
Qed.

(** Nothing found: no clip window contains [t]. *)
Lemma drawCanvas_loop_none (t : Q) (rest : list ImageAsset.t) :
  forall (i : nat) (acc : Q),
  fst (drawCanvas_loop t rest i acc) = (-1)%Z ->
  forall (k : nat) (img : ImageAsset.t),
    nth_error rest k = Some img ->
    ~ (fold_left add_duration (firstn k rest) acc <= t
       /\ t < fold_left add_duration (firstn k rest) acc
              + ImageAsset.duration img).
Proof.
  induction rest as [|img rest IH]; intros i acc H k img' Hk.
  - destruct k; discriminate Hk.
  - simpl in H.
    destruct (JS.ge t acc && JS.lt t (acc + ImageAsset.duration img)) eqn:E.
    + simpl in H. lia.
    + destruct k as [|k]; simpl in *.
      * inversion Hk; subst. intros [H1 H2].
        apply JS_ge_iff in H1. apply JS_lt_iff in H2.
        rewrite H1, H2 in E. discriminate E.
      * apply (IH _ _ H k img' Hk).
Qed.

(** Past the end of the clips the loop finds nothing. *)
Lemma drawCanvas_loop_past_end (t : Q) (rest : list ImageAsset.t) :
  Forall (fun img => 0 <= ImageAsset.duration img) rest ->
  forall (i : nat) (acc : Q),
  fold_left add_duration rest acc <= t ->
  drawCanvas_loop t rest i acc = ((-1)%Z, 0).
Proof.
  induction 1 as [|img rest Hd Hrest IH]; intros i acc Ht; simpl.
  - reflexivity.
  - simpl in Ht.
    assert (Hlt : JS.lt t (acc + ImageAsset.duration img) = false).
    { apply not_true_iff_false. rewrite JS_lt_iff.
      rewrite sum_from_shift in Ht. pose proof (sum_from_nonneg rest Hrest).
      unfold add_duration in *. lra. }
    rewrite Hlt, andb_false_r. apply IH. exact Ht.
Qed.

(** Before the end, and from time 0 on, the loop finds a clip. *)
Lemma drawCanvas_loop_before_end (t : Q) (rest : list ImageAsset.t) :
  forall (i : nat) (acc : Q),
  acc <= t -> t < fold_left add_duration rest acc ->
  fst (drawCanvas_loop t rest i acc) <> (-1)%Z.
Proof.
  induction rest as [|img rest IH]; intros i acc H0 Ht; simpl in *.
  - lra.
  - destruct (JS.ge t acc && JS.lt t (acc + ImageAsset.duration img)) eqn:E.
    + simpl. lia.
    + apply IH; [|exact Ht].
      apply andb_false_iff in E. destruct E as [E|E].
      * apply not_true_iff_false in E. rewrite JS_ge_iff in E. contradiction.
      * apply not_true_iff_false in E. rewrite JS_lt_iff in E.
        apply Qnot_lt_le. exact E.
Qed.

(** Round trip of the compositor's clock: the start time it hands on is the
    cumulative start of the clip it found, and the global time is that
    start plus the local time. *)
Lemma drawCanvas_loop_round_trip (t : Q) (images : list ImageAsset.t)
  (idx : Z) (start : Q) :
  drawCanvas_loop t images 0 0 = (idx, start) ->
  idx <> (-1)%Z ->
  exists img,
    nth_error images (Z.to_nat idx) = Some img
    /\ (0 <= idx < Z.of_nat (List.length images))%Z
    /\ start = cumulativeStart images (Z.to_nat idx)
    /\ start <= t < start + ImageAsset.duration img
    /\ t == cumulativeStart images (Z.to_nat idx) + (t - start).
Proof.
  intros H Hidx.
  destruct (drawCanvas_loop_found _ _ _ _ _ _ H Hidx)
    as (k & img & -> & Hn & Hs & H1 & H2).
  simpl. rewrite Nat2Z.id. exists img. split; [exact Hn|].
  assert (Hlen : (k < List.length images)%nat)
    by (apply nth_error_Some; congruence).
  split; [lia|]. split; [exact Hs|]. split; [auto|].
  unfold cumulativeStart, totalImageDuration. fold add_duration.
  rewrite <- Hs. ring.
Qed.

(** [getActiveImageIndex] names a clip of a non-empty sequence: the first
    one whose window contains [t], or else the last one. *)
Lemma getActiveImageIndex_spec (images : list ImageAsset.t) (t : Q) :
  images <> [] ->
  (0 <= getActiveImageIndex images t < Z.of_nat (List.length images))%Z
  /\ (fst (drawCanvas_loop t images 0 0) <> (-1)%Z ->
      getActiveImageIndex images t = fst (drawCanvas_loop t images 0 0))
  /\ (fst (drawCanvas_loop t images 0 0) = (-1)%Z ->
      getActiveImageIndex images t = (Z.of_nat (List.length images) - 1)%Z).
Proof.
  intro Hne. unfold getActiveImageIndex.
  destruct images as [|img0 rest0] eqn:Himgs; [congruence|].
  rewrite <- Himgs in *.
  assert (Hlen : (List.length images =? 0)%nat = false)
    by (rewrite Himgs; reflexivity).
  rewrite Hlen. pose proof (loops_agree t images 0 0) as Ha.
  destruct (drawCanvas_loop t images 0 0) as [idx start] eqn:Hl.
  simpl in Ha. simpl fst.
  destruct (getActiveImageIndex_loop t images 0 0) as [j|] eqn:Hj.
  - assert (Hidx : idx <> (-1)%Z) by lia.
    destruct (drawCanvas_loop_round_trip _ _ _ _ Hl Hidx)
      as (img & _ & Hr & _).
    subst idx. repeat split; intros; lia.
  - assert (0 < List.length images)%nat by (rewrite Himgs; simpl; lia).
    repeat split; intros; lia.
Qed.

Lemma getActiveImageIndex_empty (t : Q) : getActiveImageIndex [] t = (-1)%Z.
Proof. reflexivity. Qed.

End Clock.

(** C4 (where the code departs from it).  At the end of the clips the two
    clock resolutions part: in scenario A at [t = 10], the end of the timeline, [getActiveImageIndex] clamps to
    the last clip (index 1) while the loop of [drawCanvas] finds no clip,
    and the frame is the black background alone. *)
Theorem drawCanvas_no_clamp_at_end :
  10 == totalDuration (audioAsset (scenarioA 10)) (images (scenarioA 10))
  /\ getActiveImageIndex (images (scenarioA 10)) 10 = 1%Z
  /\ drawCanvas_loop 10 (images (scenarioA 10)) 0 0 = ((-1)%Z, 0)
  /\ frame (scenarioA 10) Canvas.initial
     = [Canvas.FillRect (Canvas.common (Canvas.cur Canvas.initial))
          "#000" 0 0 1280 720].
Proof. repeat split. Qed.

(** The same for every sequence of clips with non-negative durations, at
    every time from the end of the clips on. *)
Lemma clock_paths_part_past_end (s : Scene) (width height scaleRatio : Q) :
  images s <> [] ->
  Forall (fun img => 0 <= ImageAsset.duration img) (images s) ->
  totalImageDuration (images s) <= currentTime s ->
  getActiveImageIndex (images s) (currentTime s)
  = (Z.of_nat (List.length (images s)) - 1)%Z
  /\ fst (drawCanvas_loop (currentTime s) (images s) 0 0) = (-1)%Z
  /\ drawClips s width height scaleRatio = Canvas.skip.
Proof.
  intros Hne Hd Ht.
  pose proof (drawCanvas_loop_past_end _ _ Hd 0%nat 0 Ht) as Hl.
  split; [|split].
  - apply (getActiveImageIndex_spec _ (currentTime s) Hne).
    rewrite Hl. reflexivity.
  - rewrite Hl. reflexivity.
  - unfold drawClips. rewrite Hl. reflexivity.
Qed.

(** ** Transition window *)

Lemma transitionActive_iff (s : Scene) (imgObj : ImageAsset.t)
  (i : nat) (start : Q) :
  transitionEffect s <> TransNone ->
  (S i < List.length (images s))%nat ->
  transitionActive s imgObj (Z.of_nat i) start = true
  <-> ImageAsset.duration imgObj
      - Qmin (transitionDuration s) (ImageAsset.duration imgObj / 2)
      <= currentTime s - start.
Proof.
  intros Heff Hlast. unfold transitionActive.
  assert (He : negb (TransitionEffect_eqb (transitionEffect s) TransNone)
               = true)
    by (destruct (transitionEffect s); [congruence| | |]; reflexivity).
  assert (Hi : (Z.of_nat i <? Z.of_nat (List.length (images s)) - 1)%Z = true)
    by (apply Z.ltb_lt; lia).
  rewrite He, Hi, andb_true_r, andb_true_l, JS_le_iff.
  unfold timeLeft, transitionWindow, JS.min. split; intro H; lra.
Qed.

Lemma transitionProgress_linear (s : Scene) (imgObj : ImageAsset.t)
  (start : Q) :
  let d := ImageAsset.duration imgObj in
  let l := currentTime s - start in
  let m := Qmin (transitionDuration s) (d / 2) in
  l < d -> d - m <= l ->
  transitionProgress s imgObj start == (l - (d - m)) / m
  /\ 0 <= transitionProgress s imgObj start < 1.
Proof.
  intros d l m Hl Hw.
  assert (Hm : 0 < m) by lra.
  assert (Hp : transitionProgress s imgObj start == (l - (d - m)) / m).
  { unfold transitionProgress, timeLeft, transitionWindow, JS.min.
    fold d. fold m. fold l. field. lra. }
  split; [exact Hp|]. rewrite Hp. split.
  - apply Qle_shift_div_l; [exact Hm | lra].
  - apply Qlt_shift_div_r; [exact Hm | lra].
Qed.

(** C2, counterexample.  In scenario A at [t = 3.6] the first clip is
    active, the transition is being drawn, and its progress is 0.6, not
    0.4. *)
Lemma transitionProgress_scenarioA_not_0_4 :
  drawCanvas_loop 3.6 (images (scenarioA 3.6)) 0 0 = (0%Z, 0)
  /\ transitionActive (scenarioA 3.6) (clip_named "a" 4) 0 0 = true
  /\ ~ transitionProgress (scenarioA 3.6) (clip_named "a" 4) 0 == 0.4.
Proof.
  split; [reflexivity | split; [reflexivity |]].
  vm_compute. intro H. discriminate H.
Qed.

(** C2 (as the code has it).  With a transition effect other than 'none'
    and a time that the compositor resolves to a clip [i] that is not the
    last, of duration [d], at local time [l]: the transition is drawn
    exactly when [l] lies in [[d - min(transitionDuration, d/2), d)];
    outside it the active clip alone is rendered, at opacity 1; inside it
    the next clip is rendered over it at opacity [p], the linear ratio of
    the elapsed part of the window.  In scenario A at [t = 3.6] the active
    index is 0, the transition is drawn and [p] is 0.6. *)
Theorem transition_window (s : Scene) (i : nat) (start : Q)
  (width height scaleRatio : Q) :
  transitionEffect s <> TransNone ->
  drawCanvas_loop (currentTime s) (images s) 0 0 = (Z.of_nat i, start) ->
  (S i < List.length (images s))%nat ->
  (exists imgObj,
     nth_error (images s) i = Some imgObj /\
     let d := ImageAsset.duration imgObj in
     let l := currentTime s - start in
     let m := Qmin (transitionDuration s) (d / 2) in
     let p := transitionProgress s imgObj start in
     0 <= l < d
     /\ (transitionActive s imgObj (Z.of_nat i) start = true <-> d - m <= l)
     /\ (~ d - m <= l ->
         drawLayers s width height scaleRatio imgObj (Z.of_nat i) start
         = renderLayer s width height scaleRatio i 1)
     /\ (d - m <= l ->
         drawLayers s width height scaleRatio imgObj (Z.of_nat i) start
         = Canvas.seq (renderLayer s width height scaleRatio i 1)
             (renderLayer s width height scaleRatio (S i) p)
         /\ p == (l - (d - m)) / m
         /\ 0 <= p < 1))
  /\ drawCanvas_loop 3.6 (images (scenarioA 3.6)) 0 0 = (0%Z, 0)
  /\ transitionActive (scenarioA 3.6) (clip_named "a" 4) 0 0 = true
  /\ transitionProgress (scenarioA 3.6) (clip_named "a" 4) 0 == 0.6.
Proof.
  intros Heff Hloop Hlast.
  split; [|split; [reflexivity | split; reflexivity]].
  assert (Hidx : Z.of_nat i <> (-1)%Z) by lia.
  destruct (drawCanvas_loop_round_trip _ _ _ _ Hloop Hidx)
    as (imgObj & Hn & _ & _ & [H1 H2] & _).
  rewrite Nat2Z.id in Hn. exists imgObj. split; [exact Hn|].
  intros d l m p.
  pose proof (transitionActive_iff s imgObj i start Heff Hlast) as Hiff.
  fold d m l in Hiff.
  assert (Hl : 0 <= l < d) by (unfold l, d; split; lra).
  split; [exact Hl|]. split; [exact Hiff|]. split.
  - intro Hout. unfold drawLayers.
    destruct (transitionActive s imgObj (Z.of_nat i) start) eqn:E.
    + exfalso. apply Hout. apply Hiff. reflexivity.
    + rewrite Nat2Z.id. reflexivity.
  - intro Hin. split.
    + unfold drawLayers. rewrite (proj2 Hiff Hin).
      replace (Z.to_nat (Z.of_nat i + 1)) with (S i) by lia.
      rewrite Nat2Z.id. reflexivity.
    + apply (transitionProgress_linear s imgObj start); [apply Hl | exact Hin].
Qed.

(** The transition window in scenario A at [t = 3.6]. *)
Lemma transition_window_witness :
  exists imgObj,
    nth_error (images (scenarioA 3.6)) 0 = Some imgObj
    /\ transitionActive (scenarioA 3.6) imgObj 0 0 = true.
Proof.
  destruct (proj1 (transition_window (scenarioA 3.6) 0 0 1280 720 1
                     ltac:(discriminate) ltac:(reflexivity)
                     ltac:(simpl; lia)))
    as (imgObj & Hn & _ & Hiff & _).
  exists imgObj. split; [exact Hn|].
  apply Hiff. inversion Hn; subst. vm_compute. discriminate.
Defined.

(** ** Canvas commands *)

(** Runs canvas commands on a context given by its fields, leaving the
    arithmetic on numbers alone. *)
Ltac canvas_run :=
  cbv - [Qdiv Qmult Qminus Qplus Qopp Qmin Qmax JS.gt JS.ge JS.le JS.lt
         JS.max JS.min JS.or_default JS.pow3 JS.floor Qeq_bool Qle_bool].

Ltac destruct_ctx c :=
  let ga := fresh "ga" in let tf := fresh "tf" in let fl := fresh "fl" in
  let sc := fresh "sc" in let sb := fresh "sb" in let fs := fresh "fs" in
  let ss := fresh "ss" in let lw := fresh "lw" in let f := fresh "f" in
  let ta := fresh "ta" in let tb := fresh "tb" in let st := fresh "st" in
  destruct c as [[[ga tf fl sc sb] fs ss lw f ta tb] st].

(** A sequence whose first command returns goes on with the second. *)
Lemma seq_returned (a b : Canvas.Cmd) (c : Canvas.Ctx) :
  Canvas.completion (a c) = Canvas.Returned ->
  Canvas.seq a b c
  = {| Canvas.ctx := Canvas.ctx (b (Canvas.ctx (a c)));
       Canvas.painted :=
         Canvas.painted (a c) ++ Canvas.painted (b (Canvas.ctx (a c)));
       Canvas.completion := Canvas.completion (b (Canvas.ctx (a c))) |}.
Proof. intro H. unfold Canvas.seq. rewrite H. reflexivity. Qed.

(** A sequence whose first command throws ends there. *)
Lemma seq_threw (a b : Canvas.Cmd) (c : Canvas.Ctx) (e : string) :
  Canvas.completion (a c) = Canvas.Threw e ->
  Canvas.seq a b c = a c.
Proof. intro H. unfold Canvas.seq. rewrite H. reflexivity. Qed.

(** A sequence returns only when both commands do. *)
Lemma seq_completed (a b : Canvas.Cmd) (c : Canvas.Ctx) :
  Canvas.completion (Canvas.seq a b c) = Canvas.Returned ->
  Canvas.completion (a c) = Canvas.Returned
  /\ Canvas.completion (b (Canvas.ctx (a c))) = Canvas.Returned.
Proof.
  unfold Canvas.seq. destruct (Canvas.completion (a c)) eqn:E.
  - intro H. split; [reflexivity | exact H].
  - rewrite E. discriminate.
Qed.

Lemma seq_painted (a b : Canvas.Cmd) (c : Canvas.Ctx) :
  returns a ->
  Canvas.painted (Canvas.seq a b c)
  = Canvas.painted (a c) ++ Canvas.painted (b (Canvas.ctx (a c))).
Proof. intro H. rewrite (seq_returned a b c (H c)). reflexivity. Qed.

Lemma seq_completion (a b : Canvas.Cmd) (c : Canvas.Ctx) :
  returns a ->
  Canvas.completion (Canvas.seq a b c)
  = Canvas.completion (b (Canvas.ctx (a c))).
Proof. intro H. rewrite (seq_returned a b c (H c)). reflexivity. Qed.

(** ** Commands that return, and what they leave behind *)

Lemma seq_returns (a b : Canvas.Cmd) :
  returns a -> returns b -> returns (Canvas.seq a b).
Proof. intros Ha Hb c. rewrite seq_completion by exact Ha. apply Hb. Qed.

Lemma forEach_returns {A : Type} (f : A -> Canvas.Cmd) (l : list A) :
  (forall a, returns (f a)) -> returns (Canvas.forEach f l).
Proof.
  intro Hf. induction l as [|a l IH]; simpl.
  - intro c. reflexivity.
  - apply seq_returns; [apply Hf | exact IH].
Qed.

Lemma usability_not_failure (el : Canvas.HTMLImageElement) :
  Canvas.request el <> Canvas.Broken ->
  Canvas.usability el <> Canvas.Failure.
Proof.
  unfold Canvas.usability. destruct (Canvas.request el) as [|w h|].
  - discriminate.
  - destruct (Qeq_bool w 0 || Qeq_bool h 0); discriminate.
  - intro H. contradiction H. reflexivity.
Qed.

Lemma renderLayer_returns (s : Scene) (width height scaleRatio : Q)
  (idx : nat) (opacity : Q) :
  noBrokenImage s ->
  returns (renderLayer s width height scaleRatio idx opacity).
Proof.
  intro Hs. unfold renderLayer.
  destruct (nth_error (images s) idx) as [img|]; [|intro c; reflexivity].
  destruct (Map_get (ImageAsset.id img) (imageElements s)) as [el|] eqn:Hel;
    [|intro c; reflexivity].
  destruct (Canvas.complete el); [|intro c; reflexivity].
  pose proof (usability_not_failure el (Hs _ _ Hel)) as Hu.
  unfold Canvas.drawImage.
  destruct (Canvas.usability el); [| |contradiction Hu; reflexivity];
    intro c; destruct_ctx c; canvas_run; reflexivity.
Qed.

Lemma drawOverlay_returns (s : Scene) (width height scaleRatio : Q)
  (start : Q) (ov : TextOverlay.t) :
  returns (drawOverlay s width height scaleRatio start ov).
Proof. intro c. destruct_ctx c. reflexivity. Qed.

Lemma drawLyrics_returns (s : Scene) (width height scaleRatio : Q) :
  returns (drawLyrics s width height scaleRatio).
Proof.
  unfold drawLyrics.
  destruct (0 <? List.length (lyrics s))%nat; [|intro c; reflexivity].
  destruct (currentLyric s) as [l|]; [|intro c; reflexivity].
  intro c. destruct_ctx c. reflexivity.
Qed.

Lemma drawClips_returns (s : Scene) (width height scaleRatio : Q) :
  noBrokenImage s -> returns (drawClips s width height scaleRatio).
Proof.
  intro Hs. unfold drawClips.
  destruct (drawCanvas_loop (currentTime s) (images s) 0 0)
    as [activeIndex start].
  destruct (activeIndex =? -1)%Z; [intro c; reflexivity|].
  destruct (nth_error (images s) (Z.to_nat activeIndex)) as [imgObj|];
    [|intro c; reflexivity].
  apply seq_returns.
  - unfold drawLayers.
    destruct (transitionActive s imgObj activeIndex start);
      [apply seq_returns|]; apply renderLayer_returns; exact Hs.
  - apply forEach_returns. intro ov. apply drawOverlay_returns.
Qed.

(** With no broken image element, [drawCanvas] returns. *)
Lemma drawCanvas_returns (s : Scene) (c : Canvas.Ctx) :
  noBrokenImage s ->
  Canvas.completion (drawCanvas s c) = Canvas.Returned.
Proof.
  intro Hs. unfold drawCanvas. destruct (canvas s) as [cv|]; [|reflexivity].
  destruct (emptyProject s); [destruct_ctx c; reflexivity|].
  rewrite seq_completion by (intro; reflexivity).
  rewrite seq_completion by (intro; reflexivity).
  apply seq_returns; [|apply drawLyrics_returns].
  destruct (0 <? List.length (images s))%nat;
    [apply drawClips_returns; exact Hs | intro; reflexivity].
Qed.

Lemma skip_bracketed : bracketed Canvas.skip.
Proof. intro c. split; [reflexivity | intros; split; reflexivity]. Qed.

Lemma seq_bracketed (a b : Canvas.Cmd) :
  bracketed a -> bracketed b -> bracketed (Canvas.seq a b).
Proof.
  intros Ha Hb c. destruct (Ha c) as [Ha1 Ha2]. split.
  - destruct (Canvas.completion (a c)) eqn:Ea; cbv beta iota in Ha1.
    + rewrite (seq_returned a b c Ea).
      cbn [Canvas.completion Canvas.ctx]. rewrite Ha1.
      exact (proj1 (Hb c)).
    + rewrite (seq_threw a b c _ Ea), Ea. exact Ha1.
  - intros c' Hc. destruct (Ha2 c' Hc) as [Hp He].
    destruct (Ha c') as [Ha1' _]. rewrite <- He in Ha1'.
    destruct (Canvas.completion (a c)) eqn:Ea; cbv beta iota in Ha1, Ha1';
      symmetry in He.
    + rewrite (seq_returned a b c Ea), (seq_returned a b c' He).
      cbn [Canvas.painted Canvas.completion].
      rewrite Ha1, Ha1', Hp.
      destruct (proj2 (Hb c) c' Hc) as [Hq Hk]. rewrite Hq, Hk.
      split; reflexivity.
    + rewrite (seq_threw a b c _ Ea), (seq_threw a b c' _ He), Ea, He.
      split; [exact Hp | reflexivity].
Qed.

Lemma forEach_bracketed {A : Type} (f : A -> Canvas.Cmd) (l : list A) :
  (forall a, bracketed (f a)) -> bracketed (Canvas.forEach f l).
Proof.
  intro Hf. induction l as [|a l IH]; simpl.
  - apply skip_bracketed.
  - apply seq_bracketed; [apply Hf | exact IH].
Qed.

(** Closes [bracketed] for a block of primitive commands between [save]
    and [restore]. *)
Ltac bracketed_block :=
  let c := fresh "c" in let c' := fresh "c'" in let H := fresh "H" in
  intro c; split;
  [ destruct_ctx c; canvas_run;
    first [reflexivity | do 2 eexists; reflexivity]
  | intros c' H; destruct_ctx c; destruct_ctx c';
    unfold inherited in H; simpl in H; inversion H; subst;
    canvas_run; split; reflexivity ].

Lemma renderLayer_bracketed (s : Scene) (width height scaleRatio : Q)
  (idx : nat) (opacity : Q) :
  bracketed (renderLayer s width height scaleRatio idx opacity).
Proof.
  unfold renderLayer.
  destruct (nth_error (images s) idx) as [img|]; [|apply skip_bracketed].
  destruct (Map_get (ImageAsset.id img) (imageElements s)) as [el|];
    [|apply skip_bracketed].
  destruct (Canvas.complete el); [|apply skip_bracketed].
  unfold Canvas.drawImage. destruct (Canvas.usability el); bracketed_block.
Qed.

Lemma drawOverlay_bracketed (s : Scene) (width height scaleRatio : Q)
  (start : Q) (ov : TextOverlay.t) :
  bracketed (drawOverlay s width height scaleRatio start ov).
Proof. unfold drawOverlay. bracketed_block. Qed.

Lemma drawLyrics_bracketed (s : Scene) (width height scaleRatio : Q) :
  bracketed (drawLyrics s width height scaleRatio).
Proof.
  unfold drawLyrics.
  destruct (0 <? List.length (lyrics s))%nat; [|apply skip_bracketed].
  destruct (currentLyric s) as [l|]; [|apply skip_bracketed].
  bracketed_block.
Qed.

Lemma drawLayers_bracketed (s : Scene) (width height scaleRatio : Q)
  (imgObj : ImageAsset.t) (activeIndex : Z) (start : Q) :
  bracketed (drawLayers s width height scaleRatio imgObj activeIndex start).
Proof.
  unfold drawLayers.
  destruct (transitionActive s imgObj activeIndex start);
    [apply seq_bracketed|]; apply renderLayer_bracketed.
Qed.

Lemma drawClips_bracketed (s : Scene) (width height scaleRatio : Q) :
  bracketed (drawClips s width height scaleRatio).
Proof.
  unfold drawClips.
  destruct (drawCanvas_loop (currentTime s) (images s) 0 0)
    as [activeIndex start].
  destruct (activeIndex =? -1)%Z; [apply skip_bracketed|].
  destruct (nth_error (images s) (Z.to_nat activeIndex)) as [imgObj|];
    [|apply skip_bracketed].
  apply seq_bracketed.
  - apply drawLayers_bracketed.
  - apply forEach_bracketed. intro ov. apply drawOverlay_bracketed.
Qed.

(** The statements of [drawCanvas] after the black background. *)
Lemma drawCanvas_body_bracketed (s : Scene) (width height scaleRatio : Q) :
  bracketed
    (Canvas.seq
       (if (0 <? List.length (images s))%nat
        then drawClips s width height scaleRatio
        else Canvas.skip)
       (drawLyrics s width height scaleRatio)).
Proof.
  apply seq_bracketed; [|apply drawLyrics_bracketed].
  destruct (0 <? List.length (images s))%nat;
    [apply drawClips_bracketed | apply skip_bracketed].
Qed.

(** The black background, then [body]. *)
Lemma background_then (body : Canvas.Cmd) (width height : Q)
  (c : Canvas.Ctx) :
  let c1 := Canvas.ctx (Canvas.set_fillStyle "#000" c) in
  Canvas.seq (Canvas.set_fillStyle "#000")
    (Canvas.seq (Canvas.fillRect 0 0 width height) body) c
  = {| Canvas.ctx := Canvas.ctx (body c1);
       Canvas.painted :=
         Canvas.FillRect (Canvas.common (Canvas.cur c)) "#000"
           0 0 width height
         :: Canvas.painted (body c1);
       Canvas.completion := Canvas.completion (body c1) |}.
Proof.
  intro c1.
  rewrite seq_returned by reflexivity.
  rewrite seq_returned by reflexivity.
  reflexivity.
Qed.

(** What a call of [drawCanvas] leaves behind, and what its paints and its
    completion depend on. *)
Lemma drawCanvas_context (s : Scene) (c : Canvas.Ctx) :
  match Canvas.completion (drawCanvas s c) with
  | Canvas.Returned =>
      inherited (Canvas.ctx (drawCanvas s c)) = inherited c
      /\ Canvas.stack (Canvas.ctx (drawCanvas s c)) = Canvas.stack c
  | Canvas.Threw _ =>
      exists s1 s2,
        Canvas.stack (Canvas.ctx (drawCanvas s c))
        = s2 :: s1 :: Canvas.stack c
  end
  /\ forall c', inherited c = inherited c' ->
       Canvas.painted (drawCanvas s c) = Canvas.painted (drawCanvas s c')
       /\ Canvas.completion (drawCanvas s c)
          = Canvas.completion (drawCanvas s c').
Proof.
  unfold drawCanvas. destruct (canvas s) as [cv|];
    [|split; [split; reflexivity | intros; split; reflexivity]].
  destruct (emptyProject s).
  - split; [destruct_ctx c; canvas_run; split; reflexivity|].
    intros c' H. destruct_ctx c. destruct_ctx c'.
    unfold inherited in H. simpl in H. inversion H; subst.
    canvas_run. split; reflexivity.
  - set (width := HTMLCanvasElement.width cv).
    set (height := HTMLCanvasElement.height cv).
    set (scaleRatio := width / BASE_WIDTH).
    pose proof (drawCanvas_body_bracketed s width height scaleRatio)
      as Hbody.
    set (body := Canvas.seq _ _) in Hbody |- *.
    split.
    + rewrite (background_then body width height c).
      cbn [Canvas.completion Canvas.ctx].
      set (c1 := Canvas.ctx (Canvas.set_fillStyle "#000" c)).
      pose proof (proj1 (Hbody c1)) as H1.
      assert (Hi : inherited c1 = inherited c) by (destruct_ctx c; reflexivity).
      assert (Hs : Canvas.stack c1 = Canvas.stack c)
        by (destruct_ctx c; reflexivity).
      destruct (Canvas.completion (body c1)).
      * rewrite H1. split; assumption.
      * rewrite <- Hs. exact H1.
    + intros c' H.
      rewrite (background_then body width height c),
              (background_then body width height c').
      cbn [Canvas.completion Canvas.painted].
      assert (Hin : inherited (Canvas.ctx (Canvas.set_fillStyle "#000" c))
                    = inherited (Canvas.ctx (Canvas.set_fillStyle "#000" c')))
        by (destruct_ctx c; destruct_ctx c'; exact H).
      destruct (proj2 (Hbody _) _ Hin) as [Hp Hk]. rewrite Hp, Hk.
      split; [|reflexivity]. f_equal.
      destruct_ctx c. destruct_ctx c'.
      unfold inherited in H. simpl in H. inversion H; subst. reflexivity.
Qed.

(** ** Subtitles *)

(** [find] returns the first element that passes the test. *)
Lemma find_first {A : Type} (p : A -> bool) (l : list A) (x : A) :
  List.find p l = Some x
  <-> exists pre post,
        l = pre ++ x :: post /\ p x = true
        /\ Forall (fun y => p y = false) pre.
Proof.
  induction l as [|a l IH]; simpl.
  - split; [discriminate|]. intros (pre & post & H & _).
    destruct pre; discriminate H.
  - destruct (p a) eqn:Ea.
    + split.
      * intro H. inversion H; subst. exists [], l. auto.
      * intros (pre & post & H & Hx & Hpre). destruct pre as [|b pre].
        -- inversion H; subst. reflexivity.
        -- inversion H; subst. inversion Hpre; subst. congruence.
    + rewrite IH. split.
      * intros (pre & post & -> & Hx & Hpre). exists (a :: pre), post. auto.
      * intros (pre & post & H & Hx & Hpre). destruct pre as [|b pre].
        -- inversion H; subst. congruence.
        -- inversion H; subst. inversion Hpre; subst. exists pre, post. auto.
Qed.

Lemma find_nothing {A : Type} (p : A -> bool) (l : list A) :
  List.find p l = None <-> Forall (fun y => p y = false) l.
Proof.
  induction l as [|a l IH]; simpl.
  - split; auto.
  - destruct (p a) eqn:Ea.
    + split; [discriminate|]. intro H. inversion H; subst. congruence.
    + rewrite IH. split; intro H; [auto | inversion H; auto].
Qed.

Lemma lyric_test_iff (t : Q) (l : Subtitle.t) :
  JS.ge t (Subtitle.startTime l) && JS.le t (Subtitle.endTime l) = true
  <-> Subtitle.startTime l <= t <= Subtitle.endTime l.
Proof. rewrite andb_true_iff, JS_ge_iff, JS_le_iff. reflexivity. Qed.

(** C3, counterexample.  In scenario B at [t = 4], the end of the
    subtitle, "Hello" is drawn. *)
Lemma subtitle_drawn_at_its_end :
  currentLyric (scenarioB 4) = Some hello
  /\ exists g f x y,
       In (Canvas.FillText g "white" f "center" "bottom" "Hello" x y)
          (frame (scenarioB 4) Canvas.initial).
Proof.
  split; [reflexivity|]. do 4 eexists. vm_compute.
  do 4 right. left. reflexivity.
Qed.

(** What the subtitle block paints: nothing without a current lyric, else
    its text stroked in black and filled in white, bottom-centre. *)
Lemma drawLyrics_paints (s : Scene) (width height scaleRatio : Q)
  (c : Canvas.Ctx) :
  Canvas.ctx (drawLyrics s width height scaleRatio c) = c
  /\ Canvas.completion (drawLyrics s width height scaleRatio c)
     = Canvas.Returned
  /\ match currentLyric s with
     | None => Canvas.painted (drawLyrics s width height scaleRatio c) = []
     | Some l =>
         exists g lw f,
           Canvas.painted (drawLyrics s width height scaleRatio c)
           = [ Canvas.StrokeText g "black" lw f "center" "bottom"
                 (Subtitle.text l) (width / 2) (height - (50 * scaleRatio));
               Canvas.FillText g "white" f "center" "bottom"
                 (Subtitle.text l) (width / 2) (height - (50 * scaleRatio)) ]
     end.
Proof.
  unfold drawLyrics, currentLyric.
  destruct (lyrics s) as [|l0 ls] eqn:El; [repeat split|].
  change (0 <? List.length (l0 :: ls))%nat with true. cbv iota.
  destruct (find _ (l0 :: ls)) as [l|]; [|repeat split].
  destruct_ctx c. split; [reflexivity|]. split; [reflexivity|].
  do 3 eexists. canvas_run. reflexivity.
Qed.

(** C3 (as the code has it).  The subtitle drawn at global time [t] is the
    first segment, in list order, whose closed interval
    [[startTime, endTime]] contains [t]; none is drawn exactly when no
    interval contains [t]; the subtitle block paints the text of that
    segment and nothing else, and in a project with a canvas and a clip or
    main audio, when the call of [drawCanvas] returns, the frame ends with
    what the subtitle block paints; the call returns when no image element
    is broken.  The subtitle from 2 to 4 is drawn at [t = 3] and at
    [t = 4], and no longer at [t = 4.01]. *)
Theorem subtitle_closed_interval (s : Scene) (c : Canvas.Ctx) :
  (forall l,
     currentLyric s = Some l
     <-> exists pre post,
           lyrics s = pre ++ l :: post
           /\ Subtitle.startTime l <= currentTime s <= Subtitle.endTime l
           /\ Forall (fun l' => ~ (Subtitle.startTime l' <= currentTime s
                                   <= Subtitle.endTime l')) pre)
  /\ (currentLyric s = None
      <-> Forall (fun l' => ~ (Subtitle.startTime l' <= currentTime s
                               <= Subtitle.endTime l')) (lyrics s))
  /\ (forall cv, canvas s = Some cv -> emptyProject s = false ->
      Canvas.completion (drawCanvas s c) = Canvas.Returned ->
      let width := HTMLCanvasElement.width cv in
      let height := HTMLCanvasElement.height cv in
      let scaleRatio := width / BASE_WIDTH in
      exists before c',
        frame s c
        = before ++ Canvas.painted (drawLyrics s width height scaleRatio c')
        /\ match currentLyric s with
           | None =>
               Canvas.painted (drawLyrics s width height scaleRatio c') = []
           | Some l =>
               exists g lw f,
                 Canvas.painted (drawLyrics s width height scaleRatio c')
                 = [ Canvas.StrokeText g "black" lw f "center" "bottom"
                       (Subtitle.text l) (width / 2)
                       (height - (50 * scaleRatio));
                     Canvas.FillText g "white" f "center" "bottom"
                       (Subtitle.text l) (width / 2)
                       (height - (50 * scaleRatio)) ]
           end)
  /\ (noBrokenImage s ->
      Canvas.completion (drawCanvas s c) = Canvas.Returned)
  /\ currentLyric (scenarioB 3) = Some hello
  /\ currentLyric (scenarioB 4) = Some hello
  /\ currentLyric (scenarioB 4.01) = None.
Proof.
  split; [|split; [|split; [|split; [apply drawCanvas_returns
                                    |repeat split]]]].
  - intro l. unfold currentLyric. rewrite find_first.
    split; intros (pre & post & H & Hl & Hpre); exists pre, post;
      (split; [exact H|]); (split; [apply lyric_test_iff; exact Hl|]);
      eapply Forall_impl; try exact Hpre; intros l' Hl'; cbv beta in *.
    + rewrite <- lyric_test_iff. congruence.
    + apply not_true_iff_false. rewrite lyric_test_iff. exact Hl'.
  - unfold currentLyric. rewrite find_nothing.
    split; intro H; eapply Forall_impl; try exact H; intros l' Hl';
      cbv beta in *.
    + rewrite <- lyric_test_iff. congruence.
    + apply not_true_iff_false. rewrite lyric_test_iff. exact Hl'.
  - intros cv Hcv Hne Hret width height scaleRatio.
    unfold frame. unfold drawCanvas in Hret |- *.
    rewrite Hcv, Hne in Hret |- *.
    fold width height scaleRatio in Hret |- *.
    rewrite seq_completion in Hret by (intro; reflexivity).
    rewrite seq_completion in Hret by (intro; reflexivity).
    destruct (seq_completed _ _ _ Hret) as [Hclips _].
    rewrite seq_painted by (intro; reflexivity).
    rewrite seq_painted by (intro; reflexivity).
    rewrite (seq_returned _ _ _ Hclips). cbn [Canvas.painted].
    rewrite !app_assoc. do 2 eexists. split; [reflexivity|].
    apply drawLyrics_paints.
Qed.

(** The frame of scenario B at [t = 3] ends with the subtitle block. *)
Lemma subtitle_closed_interval_witness :
  exists before c',
    frame (scenarioB 3) Canvas.initial
    = before
      ++ Canvas.painted
           (drawLyrics (scenarioB 3) 1280 720 (1280 / BASE_WIDTH) c').
Proof.
  destruct (proj1 (proj2 (proj2
              (subtitle_closed_interval (scenarioB 3) Canvas.initial)))
              (RESOLUTIONS R720p) eq_refl eq_refl eq_refl)
    as (before & c' & H & _).
  exists before, c'. exact H.
Defined.

(** ** Overlay animation *)

Lemma animDuration_nonzero (ov : TextOverlay.t) : ~ animDuration ov == 0.
Proof.
  unfold animDuration, JS.or_default.
  destruct (Qeq_bool (TextOverlay.animationDuration ov) 0) eqn:E.
  - discriminate.
  - apply Qeq_bool_neq. exact E.
Qed.

Lemma div_le_pos (a b c : Q) : 0 < c -> a <= b -> a / c <= b / c.
Proof.
  intros Hc Hab. unfold Qdiv. apply Qmult_le_compat_r; [exact Hab|].
  apply Qlt_le_weak, Qinv_lt_0_compat, Hc.
Qed.

Lemma div_neg_nonpos (a c : Q) : c < 0 -> 0 <= a -> a / c <= 0.
Proof.
  intros Hc Ha.
  assert (H : a / c == (- a) / (- c)) by (field; lra).
  rewrite H. apply Qle_shift_div_r; lra.
Qed.

Lemma progress_bounds (ov : TextOverlay.t) (r : Q) :
  0 <= progress ov r <= 1.
Proof.
  unfold progress, JS.min, JS.max. split.
  - apply Q.min_glb; [apply Q.le_max_r | lra].
  - apply Q.le_min_r.
Qed.

Lemma progress_monotone (ov : TextOverlay.t) (r1 r2 : Q) :
  0 <= r1 -> r1 <= r2 -> progress ov r1 <= progress ov r2.
Proof.
  intros H0 H12. unfold progress, JS.min, JS.max.
  pose proof (animDuration_nonzero ov) as Hnz.
  destruct (Qlt_le_dec 0 (animDuration ov)) as [Hpos|Hneg].
  - apply Q.min_le_compat_r, Q.max_le_compat_r, div_le_pos; assumption.
  - assert (Hlt : animDuration ov < 0) by lra.
    rewrite (Q.max_r (r1 / animDuration ov) 0)
      by (apply div_neg_nonpos; lra).
    rewrite (Q.max_r (r2 / animDuration ov) 0)
      by (apply div_neg_nonpos; lra).
    lra.
Qed.

Lemma substring0_length (n : nat) (s : string) :
  String.length (String.substring 0 n s) = Nat.min n (String.length s).
Proof.
  revert n. induction s as [|ch s IH]; intro n.
  - destruct n; reflexivity.
  - destruct n; simpl; [reflexivity | rewrite IH; reflexivity].
Qed.

Lemma charCount_bounds (ov : TextOverlay.t) (r : Q) :
  (0 <= charCount ov r
   <= Z.of_nat (String.length (TextOverlay.text ov)))%Z.
Proof.
  unfold charCount, JS.floor.
  set (len := Z.of_nat (String.length (TextOverlay.text ov))).
  assert (Hlen : 0 <= inject_Z len)
    by (change 0 with (inject_Z 0); rewrite <- Zle_Qle; unfold len; lia).
  destruct (progress_bounds ov r) as [Hp0 Hp1]. split.
  - rewrite <- (Qfloor_Z 0). apply Qfloor_resp_le.
    change (inject_Z 0) with 0. apply Qmult_le_0_compat; assumption.
  - rewrite <- (Qfloor_Z len) at 2. apply Qfloor_resp_le.
    rewrite <- (Qmult_1_r (inject_Z len)) at 2.
    rewrite !(Qmult_comm (inject_Z len)).
    apply Qmult_le_compat_r; assumption.
Qed.

Lemma charCount_monotone (ov : TextOverlay.t) (r1 r2 : Q) :
  0 <= r1 -> r1 <= r2 -> (charCount ov r1 <= charCount ov r2)%Z.
Proof.
  intros H0 H12. unfold charCount, JS.floor. apply Qfloor_resp_le.
  rewrite !(Qmult_comm (inject_Z _)). apply Qmult_le_compat_r.
  - apply progress_monotone; assumption.
  - change 0 with (inject_Z 0). rewrite <- Zle_Qle. lia.
Qed.

Lemma typewriter_length (ov : TextOverlay.t) (r : Q) :
  TextOverlay.animation ov = AnimTypewriter ->
  String.length (renderText ov r) = Z.to_nat (charCount ov r).
Proof.
  intro Ha. unfold renderText, JS.substring0. rewrite Ha.
  rewrite substring0_length. pose proof (charCount_bounds ov r). lia.
Qed.

(** C6.  For every overlay and local elapsed times [0 <= r1 <= r2]: the
    progress lies in [[0, 1]] and does not decrease; it is
    [clamp(r / animationDuration, 0, 1)] for an animation duration other
    than zero (which the source replaces by 1.5); with the typewriter
    animation the text drawn is the first [floor(len(text) * p)]
    characters, at the overlay's full opacity, and its length does not
    decrease. *)
Theorem overlay_animation_progress (ov : TextOverlay.t) (r1 r2 : Q) :
  0 <= r1 -> r1 <= r2 ->
  0 <= progress ov r1 <= 1
  /\ progress ov r1 <= progress ov r2
  /\ (~ TextOverlay.animationDuration ov == 0 ->
      progress ov r1
      == Qmin (Qmax (r1 / TextOverlay.animationDuration ov) 0) 1)
  /\ (TextOverlay.animation ov = AnimTypewriter ->
      renderText ov r1
      = String.substring 0
          (Z.to_nat
             (Qfloor (inject_Z (Z.of_nat (String.length (TextOverlay.text ov)))
                      * progress ov r1)))
          (TextOverlay.text ov)
      /\ String.length (renderText ov r1)
         = Z.to_nat
             (Qfloor (inject_Z (Z.of_nat (String.length (TextOverlay.text ov)))
                      * progress ov r1))
      /\ renderOpacity ov r1 = TextOverlay.opacity ov
      /\ (String.length (renderText ov r1)
          <= String.length (renderText ov r2))%nat).
Proof.
  intros H0 H12. split; [apply progress_bounds|].
  split; [apply progress_monotone; assumption|]. split.
  - intro Hnz. unfold progress, animDuration, JS.min, JS.max.
    rewrite (or_default_nonzero _ _ Hnz). reflexivity.
  - intro Ha. split; [unfold renderText; rewrite Ha; reflexivity|].
    split; [apply (typewriter_length ov r1 Ha)|].
    split; [unfold renderOpacity; rewrite Ha; reflexivity|].
    rewrite !typewriter_length by exact Ha.
    pose proof (charCount_monotone ov r1 r2 H0 H12).
    pose proof (charCount_bounds ov r1). lia.
Qed.

(** A typewriter overlay at 0.5 and 1 second. *)
Lemma overlay_animation_progress_witness :
  progress typewriter_overlay 0.5 <= progress typewriter_overlay 1
  /\ renderText typewriter_overlay 1 = "Hello"%string.
Proof.
  assert (H0 : 0 <= 0.5) by (vm_compute; discriminate).
  assert (H1 : 0.5 <= 1) by (vm_compute; discriminate).
  split.
  - apply (overlay_animation_progress typewriter_overlay 0.5 1 H0 H1).
  - reflexivity.
Defined.

(** ** Frames do not depend on earlier frames *)

(** After a call that returns, whatever its scene, the frame of a scene is
    the frame on the context before that call. *)
Lemma frame_after_returned_call (s s' : Scene) (c : Canvas.Ctx) :
  Canvas.completion (drawCanvas s' c) = Canvas.Returned ->
  frame s (Canvas.ctx (drawCanvas s' c)) = frame s c.
Proof.
  intro Hret. pose proof (proj1 (drawCanvas_context s' c)) as H.
  rewrite Hret in H. destruct H as [Hi _].
  unfold frame. apply (proj2 (drawCanvas_context s _) c Hi).
Qed.

(** C7 (where the code departs from it).  Scenario B at [t = 3] with a clip
    whose file could not be decoded: the first call of [drawCanvas] throws
    [InvalidStateError] out of [renderLayer], having painted the black
    background only, and leaves two saved states on the stack and the
    translation and the filter of the layer in the context; the second
    call, for the same scene and time, paints its background under that
    translation and filter, and its frame is not the frame of the first
    call. *)
Theorem drawCanvas_leaks_after_broken_image :
  let s := scenarioB_undecodable 3 in
  let first := drawCanvas s Canvas.initial in
  Canvas.completion first = Canvas.Threw "InvalidStateError"
  /\ Canvas.painted first
     = [Canvas.FillRect (Canvas.common (Canvas.cur Canvas.initial))
          "#000" 0 0 1280 720]
  /\ List.length (Canvas.stack (Canvas.ctx first)) = 2%nat
  /\ (exists g rest,
        frame s (Canvas.ctx first)
        = Canvas.FillRect g "#000" 0 0 1280 720 :: rest
        /\ In (Canvas.Translate (1280 / 2) (720 / 2)) (Canvas.transform g)
        /\ In (Canvas.Build_FilterFn "blur" 20 "px") (Canvas.filter g))
  /\ frame s (Canvas.ctx first) <> frame s Canvas.initial.
Proof.
  cbv zeta.
  split; [vm_compute; reflexivity|].
  split; [vm_compute; reflexivity|].
  split; [vm_compute; reflexivity|].
  split.
  - do 2 eexists. split; [vm_compute; reflexivity|].
    split; [vm_compute; left; reflexivity|].
    vm_compute. do 6 right. left. reflexivity.
  - vm_compute. discriminate.
Qed.

(** ** Inserting clips *)

Lemma newImages_from_spec (randomId : nat -> string)
  (createObjectURL : File.t -> string) (d : Q) (imageFiles : list File.t) :
  forall k,
    List.map ImageAsset.file
      (Editing.newImages_from randomId createObjectURL d k imageFiles)
    = imageFiles
    /\ Forall (fun img => ImageAsset.duration img = d)
         (Editing.newImages_from randomId createObjectURL d k imageFiles).
Proof.
  induction imageFiles as [|file rest IH]; intro k; simpl.
  - split; constructor.
  - destruct (IH (S k)) as [Hm Hd]. split.
    + rewrite Hm. reflexivity.
    + constructor; [reflexivity | exact Hd].
Qed.

(** C8.  [processFiles] appends one clip per image file, in order, and each
    of them gets the same duration: the main audio duration divided by the
    number of clips present after the insertion when a main audio is
    loaded, and 5 seconds when none is. *)
Theorem processFiles_default_duration (randomId : nat -> string)
  (createObjectURL : File.t -> string)
  (audioAsset : option AudioAsset.t) (images : list ImageAsset.t)
  (files : list File.t) :
  let result :=
    Editing.processFiles randomId createObjectURL audioAsset images files in
  exists inserted,
    result = images ++ inserted
    /\ List.map ImageAsset.file inserted = Editing.imageFiles files
    /\ List.length result
       = (List.length images + List.length (Editing.imageFiles files))%nat
    /\ Forall
         (fun img =>
            ImageAsset.duration img
            = match audioAsset with
              | Some a =>
                  AudioAsset.duration a
                  / inject_Z (Z.of_nat (List.length result))
              | None => 5
              end)
         inserted.
Proof.
  intro result. unfold result, Editing.processFiles.
  destruct (0 <? List.length (Editing.imageFiles files))%nat eqn:E.
  - apply Nat.ltb_lt in E.
    exists (Editing.newImages randomId createObjectURL audioAsset images
              files).
    unfold Editing.newImages.
    destruct (newImages_from_spec randomId createObjectURL
                (Editing.nextDuration audioAsset images
                   (Editing.imageFiles files))
                (Editing.imageFiles files) 0) as [Hm Hd].
    split; [reflexivity|]. split; [exact Hm|].
    assert (Hlen : List.length
                     (images ++ Editing.newImages_from randomId
                        createObjectURL
                        (Editing.nextDuration audioAsset images
                           (Editing.imageFiles files)) 0
                        (Editing.imageFiles files))
                   = (List.length images
                      + List.length (Editing.imageFiles files))%nat).
    { rewrite length_app. f_equal.
      rewrite <- (length_map ImageAsset.file), Hm. reflexivity. }
    split; [exact Hlen|]. rewrite Hlen.
    eapply Forall_impl; [|exact Hd]. intros img ->.
    unfold Editing.nextDuration. destruct audioAsset as [a|]; [|reflexivity].
    assert (Hpos : (0 <? List.length images
                         + List.length (Editing.imageFiles files))%nat = true)
      by (apply Nat.ltb_lt; lia).
    rewrite Hpos. reflexivity.
  - apply Nat.ltb_ge in E. exists []. rewrite app_nil_r.
    assert (H0 : List.length (Editing.imageFiles files) = 0%nat) by lia.
    destruct (Editing.imageFiles files); [|discriminate H0].
    repeat split; [simpl; lia | constructor].
Qed.

(** ** Reordering clips *)

Lemma sum_from_acc (l : list ImageAsset.t) (acc acc' : Q) :
  acc == acc' ->
  fold_left (fun a img => a + ImageAsset.duration img) l acc
  == fold_left (fun a img => a + ImageAsset.duration img) l acc'.
Proof.
  intro H. rewrite (sum_from_shift l acc), (sum_from_shift l acc'), H.
  reflexivity.
Qed.

Lemma totalImageDuration_from_perm (l l' : list ImageAsset.t) :
  Permutation l l' ->
  forall acc acc', acc == acc' ->
    fold_left (fun a img => a + ImageAsset.duration img) l acc
    == fold_left (fun a img => a + ImageAsset.duration img) l' acc'.
Proof.
  induction 1 as [|x l l' _ IH|x y l|l l' l'' _ IH1 _ IH2];
    intros acc acc' Hacc; simpl.
  - exact Hacc.
  - apply IH. rewrite Hacc. reflexivity.
  - apply sum_from_acc. rewrite Hacc. ring.
  - rewrite (IH1 acc acc (Qeq_refl acc)). apply IH2. exact Hacc.
Qed.

Lemma totalImageDuration_perm (l l' : list ImageAsset.t) :
  Permutation l l' -> totalImageDuration l == totalImageDuration l'.
Proof.
  intro H. apply (totalImageDuration_from_perm l l' H). reflexivity.
Qed.

Lemma handleTimelineReorder_in_range (fromIndex toIndex : nat)
  (images : list ImageAsset.t) (x : ImageAsset.t) :
  nth_error images fromIndex = Some x ->
  fromIndex <> toIndex ->
  let rest := firstn fromIndex images ++ skipn (S fromIndex) images in
  Editing.handleTimelineReorder fromIndex toIndex images
  = List.map Some (firstn toIndex rest ++ x :: skipn toIndex rest).
Proof.
  intros Hx Hne rest. unfold Editing.handleTimelineReorder, JS.splice.
  apply Nat.eqb_neq in Hne. rewrite Hne.
  pose proof (firstn_skipn_middle fromIndex images Hx) as Hsplit.
  assert (Hskip : skipn fromIndex images = x :: skipn (S fromIndex) images).
  { rewrite <- Hsplit at 1. rewrite skipn_app, skipn_firstn_comm.
    assert (Hlen : List.length (firstn fromIndex images) = fromIndex).
    { apply firstn_length_le. apply Nat.lt_le_incl.
      apply nth_error_Some. congruence. }
    rewrite Hlen, Nat.sub_diag. simpl. reflexivity. }
  unfold rest. set (tl := skipn (S fromIndex) images) in *.
  rewrite !skipn_map, Hskip, firstn_map.
  cbn [List.map firstn skipn app fst snd].
  rewrite <- map_app, firstn_map, skipn_map.
  change (Some x :: List.map Some (skipn toIndex (firstn fromIndex images ++ tl)))
    with (List.map Some
            (x :: skipn toIndex (firstn fromIndex images ++ tl))).
  rewrite <- map_app. reflexivity.
Qed.

(** A [fromIndex] past the end moves nothing and inserts [undefined] at
    [toIndex], or at the end when [toIndex] is past the end too. *)
Lemma handleTimelineReorder_past_end (fromIndex toIndex : nat)
  (images : list ImageAsset.t) :
  (List.length images <= fromIndex)%nat ->
  fromIndex <> toIndex ->
  Editing.handleTimelineReorder fromIndex toIndex images
  = List.map Some (firstn toIndex images)
    ++ None :: List.map Some (skipn toIndex images).
Proof.
  intros Hlen Hne. unfold Editing.handleTimelineReorder, JS.splice.
  apply Nat.eqb_neq in Hne. rewrite Hne.
  assert (Hskip : skipn fromIndex (List.map Some images) = []).
  { apply skipn_all2. rewrite length_map. exact Hlen. }
  assert (Hfirst : firstn fromIndex (List.map Some images)
                   = List.map Some images).
  { apply firstn_all2. rewrite length_map. exact Hlen. }
  rewrite Hskip, Hfirst. cbn [firstn skipn app fst snd].
  rewrite app_nil_r, firstn_map, skipn_map. reflexivity.
Qed.

Lemma set_index_cons {A : Type} (i : nat) (v x : A) (l : list A) :
  JS.set_index (S i) v (x :: l) = x :: JS.set_index i v l.
Proof. reflexivity. Qed.

(** Swapping two neighbours, written from either of them. *)
Lemma swap_neighbours (i : nat) :
  forall (arr : list ImageAsset.t) (a b : ImageAsset.t),
  nth_error arr i = Some a -> nth_error arr (S i) = Some b ->
  Editing.swap i (S i) arr = firstn i arr ++ b :: a :: skipn (S (S i)) arr
  /\ Editing.swap (S i) i arr
     = firstn i arr ++ b :: a :: skipn (S (S i)) arr.
Proof.
  induction i as [|i IH]; intros arr a b Ha Hb.
  - destruct arr as [|x [|y tl]]; try discriminate.
    simpl in Ha, Hb. inversion Ha; inversion Hb; subst.
    split; reflexivity.
  - destruct arr as [|x arr]; [discriminate|].
    simpl in Ha. change (nth_error (x :: arr) (S (S i)))
      with (nth_error arr (S i)) in Hb.
    destruct (IH arr a b Ha Hb) as [H1 H2].
    unfold Editing.swap in *.
    change (nth_error (x :: arr) (S (S i))) with (nth_error arr (S i)).
    change (nth_error (x :: arr) (S i)) with (nth_error arr i).
    rewrite Ha, Hb in *. rewrite !set_index_cons, H1, H2.
    split; reflexivity.
Qed.

Lemma neighbours_perm (i : nat) (arr : list ImageAsset.t)
  (a b : ImageAsset.t) :
  nth_error arr i = Some a -> nth_error arr (S i) = Some b ->
  Permutation arr (firstn i arr ++ b :: a :: skipn (S (S i)) arr).
Proof.
  intros Ha Hb.
  rewrite <- (firstn_skipn_middle i arr Ha) at 1.
  apply Permutation_app_head.
  assert (Hs : skipn (S i) arr = b :: skipn (S (S i)) arr).
  { clear Ha. revert arr Hb. induction i as [|i IH]; intros arr Hb.
    - destruct arr as [|x [|y tl]]; try discriminate.
      simpl in Hb. inversion Hb. reflexivity.
    - destruct arr as [|x arr]; [discriminate|]. apply (IH arr). exact Hb. }
  rewrite Hs. apply perm_swap.
Qed.

Lemma findIndex_in_range {A : Type} (p : A -> bool) (l : list A) (i : nat) :
  JS.findIndex p l = Some i -> (i < List.length l)%nat.
Proof.
  revert i. induction l as [|x l IH]; intros i H; simpl in *.
  - discriminate.
  - destruct (p x).
    + inversion H. lia.
    + destruct (JS.findIndex p l) as [j|]; [|discriminate].
      inversion H. specialize (IH j eq_refl). lia.
Qed.

Lemma moveSelectedImageOrder_perm (direction : Editing.Direction)
  (selectedImageId : option string) (images : list ImageAsset.t) :
  Permutation images
    (Editing.moveSelectedImageOrder direction selectedImageId images).
Proof.
  unfold Editing.moveSelectedImageOrder.
  destruct selectedImageId as [sel|]; [|reflexivity].
  destruct (JS.findIndex _ images) as [index|] eqn:Ef; [|reflexivity].
  apply findIndex_in_range in Ef.
  destruct direction.
  - destruct (index <? List.length images - 1)%nat eqn:E; [|reflexivity].
    apply Nat.ltb_lt in E. rewrite Nat.add_1_r.
    destruct (nth_error images index) as [a|] eqn:Ha;
      [|apply nth_error_None in Ha; lia].
    destruct (nth_error images (S index)) as [b|] eqn:Hb;
      [|apply nth_error_None in Hb; lia].
    rewrite (proj1 (swap_neighbours index images a b Ha Hb)).
    apply neighbours_perm; assumption.
  - destruct (0 <? index)%nat eqn:E; [|reflexivity].
    apply Nat.ltb_lt in E. destruct index as [|k]; [lia|].
    replace (S k - 1)%nat with k by lia.
    destruct (nth_error images k) as [a|] eqn:Ha;
      [|apply nth_error_None in Ha; lia].
    destruct (nth_error images (S k)) as [b|] eqn:Hb;
      [|apply nth_error_None in Hb; lia].
    rewrite (proj2 (swap_neighbours k images a b Ha Hb)).
    apply neighbours_perm; assumption.
Qed.

(** For an index that names a clip, dragging is a permutation.  Dragging
    the clip at [fromIndex] (an index of the sequence) to [toIndex] gives a
    sequence of clips, without a hole, that is a permutation of the old
    one, so of the same length, and of the same total duration as an exact
    sum; with [fromIndex] equal to [toIndex] the sequence stays as it is.
    The same holds for moving the selected clip one place forward or
    backward. *)
Lemma reorder_in_range_is_permutation (images : list ImageAsset.t)
  (fromIndex toIndex : nat) (direction : Editing.Direction)
  (selectedImageId : option string) :
  (fromIndex < List.length images)%nat ->
  (exists reordered,
     Editing.handleTimelineReorder fromIndex toIndex images
     = List.map Some reordered
     /\ Permutation images reordered
     /\ List.length reordered = List.length images
     /\ totalImageDuration reordered == totalImageDuration images)
  /\ Editing.handleTimelineReorder fromIndex fromIndex images
     = List.map Some images
  /\ (let moved :=
        Editing.moveSelectedImageOrder direction selectedImageId images in
      Permutation images moved
      /\ List.length moved = List.length images
      /\ totalImageDuration moved == totalImageDuration images).
Proof.
  intro Hfrom. split; [|split].
  - destruct (Nat.eq_dec fromIndex toIndex) as [Heq|Hne].
    + exists images. unfold Editing.handleTimelineReorder.
      apply Nat.eqb_eq in Heq. rewrite Heq.
      repeat split; reflexivity.
    + destruct (nth_error images fromIndex) as [x|] eqn:Hx;
        [|apply nth_error_None in Hx; lia].
      set (rest := firstn fromIndex images ++ skipn (S fromIndex) images).
      exists (firstn toIndex rest ++ x :: skipn toIndex rest).
      assert (Hperm : Permutation images
                        (firstn toIndex rest ++ x :: skipn toIndex rest)).
      { rewrite <- (firstn_skipn_middle fromIndex images Hx) at 1.
        etransitivity; [symmetry; apply Permutation_middle|].
        etransitivity; [|apply Permutation_middle].
        apply perm_skip. fold rest. rewrite firstn_skipn. reflexivity. }
      split; [apply handleTimelineReorder_in_range; assumption|].
      split; [exact Hperm|].
      split; [symmetry; apply Permutation_length; exact Hperm|].
      symmetry. apply totalImageDuration_perm. exact Hperm.
  - unfold Editing.handleTimelineReorder. rewrite Nat.eqb_refl. reflexivity.
  - intro moved.
    pose proof (moveSelectedImageOrder_perm direction selectedImageId images)
      as Hperm. fold moved in Hperm.
    split; [exact Hperm|].
    split; [symmetry; apply Permutation_length; exact Hperm|].
    symmetry. apply totalImageDuration_perm. exact Hperm.
Qed.

(** C10 (where the code departs from it).  The strip keeps the index of the
    dragged clip until a drop on another clip, so a drop can arrive with an
    index left from an earlier drag.  With index 2 left over and two clips
    in the sequence, a drop on the first clip calls
    [handleTimelineReorder 2 0]: no clip is moved, [undefined] is inserted
    in front, and the result is one longer than the sequence and is not a
    sequence of clips, let alone a permutation of it. *)
Theorem reorder_with_stale_index_inserts_undefined :
  let images := [clip_named "a" 4; clip_named "b" 6] in
  TimelineView.handleDrop (Some 2%nat) 0 = Some (2%nat, 0%nat)
  /\ Editing.handleTimelineReorder 2 0 images
     = [None; Some (clip_named "a" 4); Some (clip_named "b" 6)]
  /\ List.length (Editing.handleTimelineReorder 2 0 images)
     = S (List.length images)
  /\ forall reordered,
       Editing.handleTimelineReorder 2 0 images <> List.map Some reordered.
Proof.
  cbv zeta. split; [reflexivity|]. split; [reflexivity|].
  split; [reflexivity|].
  intros reordered H. destruct reordered as [|x reordered]; discriminate H.
Qed.

(** ** Export *)

Section ExportSetup.

Import Exporter.

Lemma same_core_refl (st : App) : same_core st st.
Proof. repeat split. Qed.

Lemma same_core_trans (a b c : App) :
  same_core a b -> same_core b c -> same_core a c.
Proof.
  unfold same_core. intros (H1 & H2 & H3 & H4) (K1 & K2 & K3 & K4).
  repeat split; congruence.
Qed.

Lemma andThen_run (a b : Try) (st : App) :
  andThen a b st
  = match snd (a st) with
    | Done => b (fst (a st))
    | Thrown => (fst (a st), Thrown)
    end.
Proof. unfold andThen. destruct (a st) as [st1 []]; reflexivity. Qed.

Lemma quiet_andThen (a b : Try) : quiet a -> quiet b -> quiet (andThen a b).
Proof.
  intros Ha Hb st. rewrite andThen_run.
  destruct (Ha st) as (Hc & Ht & Ho & Hn).
  destruct (snd (a st)); [|simpl; auto].
  destruct (Hb (fst (a st))) as (Hc' & Ht' & Ho' & Hn').
  split; [eapply same_core_trans; eassumption|].
  split; [congruence|]. split; [congruence | auto].
Qed.

Lemma callback_last_andThen (a b : Try) :
  quiet a -> callback_last b -> callback_last (andThen a b).
Proof.
  intros Ha Hb st. rewrite andThen_run.
  destruct (Ha st) as (Hc & Ht & Ho & Hn).
  destruct (snd (a st)); [|simpl; auto].
  destruct (Hb (fst (a st))) as (Hc' & Hn' & Hthrown).
  split; [eapply same_core_trans; eassumption|].
  split; [auto|]. intro H. destruct (Hthrown H). split; congruence.
Qed.

Lemma quiet_callback_last (t : Try) : quiet t -> callback_last t.
Proof.
  intros H st. destruct (H st) as (Hc & Ht & Ho & Hn). auto.
Qed.

Lemma quiet_call (e : Env) (step : SetupStep) : quiet (call e step).
Proof. intro st. simpl. repeat split; auto. Qed.

Lemma quiet_throw : quiet throw.
Proof. intro st. simpl. repeat split; auto. Qed.

Ltac quiet_exec :=
  let st := fresh "st" in
  intro st; destruct st; unfold notStopping; simpl;
  repeat split; auto; try discriminate.

Lemma quiet_with_audio f : quiet (exec (with_audio f)).
Proof. quiet_exec. Qed.

Lemma quiet_with_bgAudio f : quiet (exec (with_bgAudio f)).
Proof. quiet_exec. Qed.

Lemma quiet_setIsPlaying v : quiet (exec (setIsPlaying v)).
Proof. quiet_exec. Qed.

Lemma quiet_setCurrentTime v : quiet (exec (setCurrentTime v)).
Proof. quiet_exec. Qed.

Lemma quiet_new_recorder (e : Env) :
  quiet (exec (set_recorder (Some (newRecorder e)))).
Proof.
  intro st. destruct st. unfold notStopping, newRecorder. simpl.
  repeat split; auto. intros _. destruct (vp9Supported e); discriminate.
Qed.

Lemma quiet_recording : quiet (exec (set_recorder_state Recording)).
Proof.
  intro st. destruct st as [? ? ? ? ? ? [r|] ? ? ? ?];
    unfold notStopping; simpl; repeat split; auto; discriminate.
Qed.

Lemma quiet_buildStream (e : Env) : quiet (buildStream e).
Proof.
  unfold buildStream. destruct (destNode e); [apply quiet_call|].
  intro st. destruct (audio st); [|apply quiet_throw].
  apply quiet_andThen; [|apply quiet_call].
  destruct (audioHasCaptureStream e); [apply quiet_call|].
  intro st0. simpl. repeat split; auto.
Qed.

Lemma callback_last_startWithAudio (e : Env) :
  callback_last (startWithAudio e).
Proof.
  unfold startWithAudio.
  repeat (apply callback_last_andThen;
          [first [ apply quiet_with_audio | apply quiet_with_bgAudio
                 | apply quiet_call | apply quiet_recording
                 | apply quiet_setIsPlaying | idtac ] |]).
  - intro st. destruct (bgAudio st).
    + apply quiet_andThen; [apply quiet_call | apply quiet_with_bgAudio].
    + simpl. repeat split; auto.
  - intro st. destruct st. unfold notStopping. simpl.
    repeat split; auto; discriminate.
Qed.

Lemma callback_last_startWithTimer (e : Env) (totalDuration : Q) :
  callback_last (startWithTimer e totalDuration).
Proof.
  unfold startWithTimer.
  repeat (apply callback_last_andThen;
          [first [ apply quiet_call | apply quiet_recording
                 | apply quiet_setIsPlaying ] |]).
  intro st. destruct st. unfold notStopping. simpl.
  repeat split; auto; discriminate.
Qed.

Lemma callback_last_setup (e : Env) (totalDuration : Q) :
  callback_last (setup e totalDuration).
Proof.
  unfold setup.
  repeat (apply callback_last_andThen;
          [first [ apply quiet_call | apply quiet_buildStream
                 | apply quiet_new_recorder | apply quiet_setCurrentTime ] |]).
  intro st. destruct (audioAsset e), (audio st);
    first [ apply callback_last_startWithAudio
          | apply callback_last_startWithTimer ].
Qed.

(** Without a pending callback no event offers a file. *)
Lemma quiescent_step (ev : Event) (st : App) :
  quiescent st ->
  quiescent (step ev st) /\ downloads (step ev st) = downloads st.
Proof.
  intros (Ht & Ho & Hr). destruct ev; simpl.
  - rewrite Ht. repeat split; assumption.
  - destruct st. simpl in *. subst. repeat split; auto.
  - destruct (recorder st) as [r|] eqn:Er.
    + destruct (state r) eqn:Es; try congruence;
        (repeat split; try assumption; rewrite Er; congruence).
    + repeat split; try assumption. rewrite Er. exact I.
Qed.

Lemma quiescent_run (evs : list Event) (st : App) :
  quiescent st -> downloads (run evs st) = downloads st.
Proof.
  unfold run. revert st. induction evs as [|ev evs IH]; intros st Hq; simpl.
  - reflexivity.
  - destruct (quiescent_step ev st Hq) as [Hq' Hd].
    rewrite (IH _ Hq'). exact Hd.
Qed.

End ExportSetup.

Section ExportClaims.

Import Exporter.

Lemma beginExport_fields (st : App) :
  appState (beginExport st) = EXPORTING
  /\ speakersGain (beginExport st) = option_map (fun _ => 0) (speakersGain st)
  /\ toasts (beginExport st) = toasts st
  /\ downloads (beginExport st) = downloads st
  /\ timers (beginExport st) = timers st
  /\ onended (beginExport st) = onended st
  /\ recorder (beginExport st) = recorder st.
Proof. destruct st. simpl. repeat split. Qed.

Lemma onCatch_fields (st : App) :
  appState (onCatch st) = READY
  /\ speakersGain (onCatch st) = option_map (fun _ => 1) (speakersGain st)
  /\ toasts (onCatch st)
     = toasts st ++ [("Export failed."%string, ToastError)]
  /\ downloads (onCatch st) = downloads st
  /\ timers (onCatch st) = timers st
  /\ onended (onCatch st) = onended st
  /\ recorder (onCatch st) = recorder st.
Proof. destruct st. simpl. repeat split. Qed.

(** C9.  When the export starts and its setup throws, at whichever call:
    the app is back in [READY], the speakers gain is back at 1, the toast
    "Export failed." is shown, no file has been offered, and no timer or
    [ended] handler has been installed; and when no callback of an earlier
    export was pending, no later event offers a file either. *)
Theorem export_setup_failure (e : Env) (st : App) :
  nothingToExport e = false ->
  snd (setup e (totalDuration (audioAsset e) (images e)) (beginExport st))
  = Thrown ->
  let st' := handleExport e st in
  appState st' = READY
  /\ speakersGain st' = option_map (fun _ => 1) (speakersGain st)
  /\ toasts st' = toasts st ++ [("Export failed."%string, ToastError)]
  /\ downloads st' = downloads st
  /\ timers st' = timers st
  /\ onended st' = onended st
  /\ (quiescent st ->
      forall evs, downloads (run evs st') = downloads st).
Proof.
  intros Hguard Hthrown st'. unfold st', handleExport. rewrite Hguard.
  destruct (callback_last_setup e (totalDuration (audioAsset e) (images e))
              (beginExport st)) as ((Ha & Hg & Ht & Hd) & Hn & Hcb).
  destruct (Hcb Hthrown) as [Htm Hoe].
  destruct (beginExport_fields st) as (Ba & Bg & Bt & Bd & Btm & Boe & Br).
  destruct (setup e (totalDuration (audioAsset e) (images e))
              (beginExport st)) as [st1 o].
  cbn [fst snd] in *. subst o.
  destruct (onCatch_fields st1) as (Ca & Cg & Ct & Cd & Ctm & Coe & Cr).
  assert (Hdown : downloads (onCatch st1) = downloads st) by congruence.
  split; [exact Ca|].
  split; [rewrite Cg, Hg, Bg; destruct (speakersGain st); reflexivity|].
  split; [congruence|]. split; [exact Hdown|].
  split; [congruence|]. split; [congruence|].
  intros (Qt & Qo & Qr) evs. rewrite quiescent_run; [exact Hdown|].
  split; [congruence|]. split; [congruence|].
  rewrite Cr. apply Hn. unfold notStopping. rewrite Br. exact Qr.
Qed.

(** An export whose recorder cannot be constructed. *)
Lemma export_setup_failure_witness :
  appState (handleExport (exportEnv [clip 4] None recorderFails) appAtRest)
  = READY
  /\ downloads
       (run [TimerFired; AudioEnded; RecorderStopped]
          (handleExport (exportEnv [clip 4] None recorderFails) appAtRest))
     = [].
Proof.
  destruct (export_setup_failure (exportEnv [clip 4] None recorderFails)
              appAtRest eq_refl eq_refl)
    as (Hs & _ & _ & _ & _ & _ & Hq).
  split; [exact Hs|]. apply Hq. repeat split.
Defined.

(** C5, counterexample.  Exporting the empty project (no clips, no main
    audio) changes nothing:
    it stays in [READY], no recorder is made, no timer is set, and no file
    is offered when time passes. *)
Lemma export_of_empty_project_does_not_run :
  handleExport (exportEnv [] None nothingFails) appAtRest = appAtRest
  /\ timers (handleExport (exportEnv [] None nothingFails) appAtRest) = []
  /\ recorder (handleExport (exportEnv [] None nothingFails) appAtRest) = None
  /\ downloads
       (run [TimerFired; RecorderStopped]
          (handleExport (exportEnv [] None nothingFails) appAtRest))
     = [].
Proof. repeat split. Qed.

(** C5 (as the code has it).  With no clips and no main audio
    [handleExport] returns at its guard and changes nothing.  With at least
    one clip, no main audio, a canvas, an audio stream to record from (the
    destination node or the audio element) and a setup that does not throw,
    the export
    starts recording and sets one timer of [totalDuration * 1000]
    milliseconds; when that timer fires the recorder is stopped, and its
    [stop] event offers "lyricalflow.webm", returns to [READY] and puts the
    speakers gain back to 1. *)
Theorem export_timer_fallback (e : Env) (st : App) :
  (images e = [] -> audioAsset e = None -> handleExport e st = st)
  /\ (images e <> [] -> audioAsset e = None -> canvasPresent e = true ->
      destNode e = true \/ audio st <> None ->
      (forall step, throws e step = false) ->
      let st1 := handleExport e st in
      appState st1 = EXPORTING
      /\ isPlaying st1 = true
      /\ option_map state (recorder st1) = Some Recording
      /\ timers st1 = timers st ++ [totalDuration None (images e) * 1000]
      /\ downloads st1 = downloads st
      /\ (timers st = [] ->
          let st2 := run [TimerFired; RecorderStopped] st1 in
          downloads st2 = downloads st ++ ["lyricalflow.webm"%string]
          /\ appState st2 = READY
          /\ isPlaying st2 = false
          /\ speakersGain st2 = option_map (fun _ => 1) (speakersGain st)
          /\ timers st2 = [])).
Proof.
  split.
  - intros Hi Ha. unfold handleExport, nothingToExport.
    rewrite Hi, Ha. simpl. rewrite orb_true_r. reflexivity.
  - intros Hi Ha Hc Hd Hthrows st1.
    assert (Hguard : nothingToExport e = false).
    { unfold nothingToExport. rewrite Hc.
      destruct (images e); [congruence | reflexivity]. }
    assert (Hst1 : st1
      = set_timers (timers st ++ [totalDuration None (images e) * 1000])
          (setIsPlaying true
             (set_recorder_state Recording
                (setCurrentTime 0
                   (set_recorder (Some (newRecorder e)) (beginExport st)))))).
    { unfold st1, handleExport. rewrite Hguard.
      unfold setup, buildStream, startWithTimer, andThen, call, exec.
      rewrite Ha, !Hthrows.
      destruct (destNode e) eqn:Edest.
      - destruct st. reflexivity.
      - destruct Hd as [Hd|Hd]; [discriminate Hd|].
        destruct st as [a p t g [au|] bg r oe tm ts ds];
          [|exfalso; apply Hd; reflexivity].
        simpl. destruct (audioHasCaptureStream e);
          rewrite ?Hthrows; reflexivity. }
    rewrite Hst1. destruct st as [a p t g au bg r oe tm ts ds]. simpl.
    repeat split; subst tm; simpl; try reflexivity.
    destruct g; reflexivity.
Qed.

(** Export of the empty project and of the clips of scenario A. *)
Lemma export_timer_fallback_witness :
  handleExport (exportEnv [] None nothingFails) appAtRest = appAtRest
  /\ timers (handleExport (exportEnv [clip 4; clip 6] None nothingFails)
               appAtRest)
     = [totalDuration None [clip 4; clip 6] * 1000]
  /\ downloads
       (run [TimerFired; RecorderStopped]
          (handleExport (exportEnv [clip 4; clip 6] None nothingFails)
             appAtRest))
     = ["lyricalflow.webm"%string].
Proof.
  split.
  - apply (proj1 (export_timer_fallback (exportEnv [] None nothingFails)
                    appAtRest)); reflexivity.
  - destruct (proj2 (export_timer_fallback
                       (exportEnv [clip 4; clip 6] None nothingFails)
                       appAtRest)
                ltac:(discriminate) eq_refl eq_refl
                ltac:(left; reflexivity) ltac:(reflexivity))
      as (_ & _ & _ & Ht & _ & Hrun).
    split; [exact Ht|]. apply (Hrun eq_refl).
Defined.

End ExportClaims.

(** * Further properties of the code *)

(** ** The clip under the playhead *)

Lemma sum_from_ge (l : list ImageAsset.t) (acc : Q) :
  Forall (fun img => 0 <= ImageAsset.duration img) l ->
  acc <= fold_left (fun a img => a + ImageAsset.duration img) l acc.
Proof.
  intro H. rewrite sum_from_shift. pose proof (sum_from_nonneg l H). lra.
Qed.

Lemma Forall_prefix {A : Type} (P : A -> Prop) (k : nat) (l : list A) :
  Forall P l -> Forall P (firstn k l).
Proof.
  revert k. induction l as [|x l IH]; intros k H.
  - rewrite firstn_nil. constructor.
  - destruct k; simpl; [constructor|].
    inversion H; subst. constructor; auto.
Qed.

(** A clip whose window contains [t] is the one the loop stops at, when no
    duration is negative. *)
Lemma drawCanvas_loop_hit (t : Q) (rest : list ImageAsset.t) :
  forall (k i : nat) (acc : Q) (img : ImageAsset.t),
  Forall (fun img => 0 <= ImageAsset.duration img) rest ->
  nth_error rest k = Some img ->
  fold_left (fun a img => a + ImageAsset.duration img) (firstn k rest) acc
  <= t ->
  t < fold_left (fun a img => a + ImageAsset.duration img) (firstn k rest) acc
      + ImageAsset.duration img ->
  drawCanvas_loop t rest i acc
  = (Z.of_nat (i + k),
     fold_left (fun a img => a + ImageAsset.duration img) (firstn k rest) acc).
Proof.
  induction rest as [|x rest IH]; intros k i acc img Hd Hk H1 H2.
  - destruct k; discriminate Hk.
  - inversion Hd as [|? ? Hx Hrest]; subst. destruct k as [|k]; simpl in *.
    + inversion Hk; subst.
      rewrite (proj2 (JS_ge_iff t acc) H1), (proj2 (JS_lt_iff _ _) H2).
      simpl. rewrite Nat.add_0_r. reflexivity.
    + assert (Hlt : JS.lt t (acc + ImageAsset.duration x) = false).
      { apply not_true_iff_false. rewrite JS_lt_iff.
        pose proof (sum_from_ge (firstn k rest)
                      (acc + ImageAsset.duration x)
                      (Forall_prefix _ k rest Hrest)).
        lra. }
      rewrite Hlt, andb_false_r, Nat.add_succ_r.
      apply (IH k (S i) _ img Hrest Hk H1 H2).
Qed.

(** X1.  With no negative duration, a time inside the window of clip [i]
    resolves to [i] in both clock loops, with the cumulative start of [i]
    as start time; and every time from 0 up to the end of the clips lies
    in the window of some clip. *)
Theorem active_clip_is_the_one_containing_t (images : list ImageAsset.t)
  (t : Q) :
  Forall (fun img => 0 <= ImageAsset.duration img) images ->
  (forall i img,
     nth_error images i = Some img ->
     cumulativeStart images i <= t ->
     t < cumulativeStart images i + ImageAsset.duration img ->
     drawCanvas_loop t images 0 0 = (Z.of_nat i, cumulativeStart images i)
     /\ getActiveImageIndex images t = Z.of_nat i)
  /\ (0 <= t -> t < totalImageDuration images ->
      exists i img,
        nth_error images i = Some img
        /\ cumulativeStart images i <= t
        /\ t < cumulativeStart images i + ImageAsset.duration img).
Proof.
  intro Hd. split.
  - intros i img Hi H1 H2.
    pose proof (drawCanvas_loop_hit t images i 0%nat 0 img Hd Hi H1 H2)
      as Hl.
    simpl in Hl. split; [exact Hl|].
    assert (Hne : images <> []) by (destruct images, i; discriminate).
    destruct (getActiveImageIndex_spec images t Hne) as (_ & Hf & _).
    rewrite Hf; rewrite Hl; simpl; [reflexivity | lia].
  - intros H0 Ht.
    pose proof (drawCanvas_loop_before_end t images 0%nat 0 H0 Ht) as Hne.
    destruct (drawCanvas_loop t images 0 0) as [idx start] eqn:Hl.
    destruct (drawCanvas_loop_round_trip t images idx start Hl Hne)
      as (img & Hn & _ & Hs & Hw & _).
    exists (Z.to_nat idx), img. rewrite <- Hs. auto.
Qed.

(** Scenario A at [t = 5]: the second clip. *)
Lemma active_clip_is_the_one_containing_t_witness :
  getActiveImageIndex [clip_named "a" 4; clip_named "b" 6] 5 = 1%Z.
Proof.
  assert (Hd : Forall (fun img => 0 <= ImageAsset.duration img)
                 [clip_named "a" 4; clip_named "b" 6]).
  { repeat constructor; vm_compute; discriminate. }
  apply (proj1 (active_clip_is_the_one_containing_t _ 5 Hd) 1%nat
           (clip_named "b" 6) eq_refl).
  - vm_compute. discriminate.
  - vm_compute. reflexivity.
Defined.

(** ** Seeking to a clip *)

Lemma jumpToImage_loop_found (imageId : string) (rest : list ImageAsset.t) :
  forall (i : nat) (startTime : Q),
  JS.findIndex (fun img => String.eqb (ImageAsset.id img) imageId) rest
  = Some i ->
  Playback.jumpToImage_loop imageId rest startTime
  = fold_left (fun a img => a + ImageAsset.duration img) (firstn i rest)
      startTime.
Proof.
  induction rest as [|x rest IH]; intros i startTime H; simpl in *.
  - discriminate.
  - destruct (String.eqb (ImageAsset.id x) imageId).
    + inversion H. reflexivity.
    + destruct (JS.findIndex _ rest) as [j|]; [|discriminate].
      inversion H. simpl. apply IH. reflexivity.
Qed.

Lemma jumpToImage_loop_missing (imageId : string) (rest : list ImageAsset.t) :
  forall (startTime : Q),
  JS.findIndex (fun img => String.eqb (ImageAsset.id img) imageId) rest
  = None ->
  Playback.jumpToImage_loop imageId rest startTime
  = fold_left (fun a img => a + ImageAsset.duration img) rest startTime.
Proof.
  induction rest as [|x rest IH]; intros startTime H; simpl in *.
  - reflexivity.
  - destruct (String.eqb (ImageAsset.id x) imageId); [discriminate|].
    destruct (JS.findIndex _ rest) as [j|] eqn:E; [discriminate|].
    apply IH. reflexivity.
Qed.

(** X2.  [jumpToImage] seeks 0.1 seconds into the first clip with the given
    id.  With no negative duration, that clip becomes the active one in both
    clock loops when it lasts more than 0.1 seconds, and the compositor
    does not resolve to it when it lasts 0.1 seconds or less.  For an id
    that no clip has, the seek time is 0.1 seconds past the end of the
    clips. *)
Theorem jumpToImage_activates_clip (imageId : string)
  (images : list ImageAsset.t) :
  Forall (fun img => 0 <= ImageAsset.duration img) images ->
  (forall i img,
     JS.findIndex (fun img => String.eqb (ImageAsset.id img) imageId) images
     = Some i ->
     nth_error images i = Some img ->
     Playback.jumpToImage imageId images == cumulativeStart images i + 0.1
     /\ (0.1 < ImageAsset.duration img ->
         getActiveImageIndex images (Playback.jumpToImage imageId images)
         = Z.of_nat i
         /\ drawCanvas_loop (Playback.jumpToImage imageId images) images 0 0
            = (Z.of_nat i, cumulativeStart images i))
     /\ (ImageAsset.duration img <= 0.1 ->
         fst (drawCanvas_loop (Playback.jumpToImage imageId images)
                images 0 0)
         <> Z.of_nat i))
  /\ (JS.findIndex (fun img => String.eqb (ImageAsset.id img) imageId) images
      = None ->
      Playback.jumpToImage imageId images == totalImageDuration images + 0.1).
Proof.
  intro Hd. split.
  - intros i img Hf Hi. unfold Playback.jumpToImage.
    rewrite (jumpToImage_loop_found imageId images i 0 Hf).
    fold (totalImageDuration (firstn i images)).
    fold (cumulativeStart images i).
    split; [reflexivity|]. split.
    + intro Hlong.
      destruct (proj1 (active_clip_is_the_one_containing_t images
                         (cumulativeStart images i + 0.1) Hd) i img Hi)
        as [Hl Hg]; [lra | lra |].
      split; assumption.
    + intros Hshort Heq.
      destruct (drawCanvas_loop (cumulativeStart images i + 0.1) images 0 0)
        as [idx start] eqn:Hl.
      simpl in Heq. subst idx.
      assert (Hne : Z.of_nat i <> (-1)%Z) by lia.
      destruct (drawCanvas_loop_round_trip _ images _ start Hl Hne)
        as (img' & Hn & _ & Hs & Hw & _).
      rewrite Nat2Z.id in Hn, Hs. rewrite Hi in Hn. inversion Hn; subst img'.
      rewrite Hs in Hw. lra.
  - intro Hf. unfold Playback.jumpToImage.
    rewrite (jumpToImage_loop_missing imageId images 0 Hf). reflexivity.
Qed.

(** Jumping to clip "b" of scenario A. *)
Lemma jumpToImage_activates_clip_witness :
  getActiveImageIndex [clip_named "a" 4; clip_named "b" 6]
    (Playback.jumpToImage "b" [clip_named "a" 4; clip_named "b" 6])
  = 1%Z.
Proof.
  assert (Hd : Forall (fun img => 0 <= ImageAsset.duration img)
                 [clip_named "a" 4; clip_named "b" 6]).
  { repeat constructor; vm_compute; discriminate. }
  destruct (proj1 (jumpToImage_activates_clip "b" _ Hd) 1%nat
              (clip_named "b" 6) eq_refl eq_refl) as (_ & Hlong & _).
  apply Hlong. vm_compute. reflexivity.
Defined.

(** X3.  A click on clip [i] of the timeline strip seeks 0.01 seconds after
    its start; with no negative duration the clicked clip is then the
    active one in both clock loops when it lasts more than 0.01 seconds. *)
Theorem clip_click_activates_clip (images : list ImageAsset.t) (i : nat)
  (img : ImageAsset.t) :
  Forall (fun img => 0 <= ImageAsset.duration img) images ->
  nth_error images i = Some img ->
  0.01 < ImageAsset.duration img ->
  TimelineView.clipClickSeek images i == cumulativeStart images i + 0.01
  /\ getActiveImageIndex images (TimelineView.clipClickSeek images i)
     = Z.of_nat i
  /\ drawCanvas_loop (TimelineView.clipClickSeek images i) images 0 0
     = (Z.of_nat i, cumulativeStart images i).
Proof.
  intros Hd Hi Hlong. unfold TimelineView.clipClickSeek.
  fold (totalImageDuration (firstn i images)).
  fold (cumulativeStart images i).
  split; [reflexivity|].
  destruct (proj1 (active_clip_is_the_one_containing_t images
                     (cumulativeStart images i + 0.01) Hd) i img Hi)
    as [Hl Hg]; [lra | lra |].
  split; assumption.
Qed.

Lemma clip_click_activates_clip_witness :
  getActiveImageIndex [clip_named "a" 4; clip_named "b" 6]
    (TimelineView.clipClickSeek [clip_named "a" 4; clip_named "b" 6] 1)
  = 1%Z.
Proof.
  assert (Hd : Forall (fun img => 0 <= ImageAsset.duration img)
                 [clip_named "a" 4; clip_named "b" 6]).
  { repeat constructor; vm_compute; discriminate. }
  apply (clip_click_activates_clip _ 1%nat (clip_named "b" 6) Hd eq_refl).
  vm_compute. reflexivity.
Defined.

(** ** Length of the timeline *)

(** X4.  The timeline is at least as long as the main audio and as the
    clips together, and it is longer than zero whenever the clip-duration
    sum is not negative, as it is when no duration is. *)
Theorem totalDuration_bounds (audioAsset : option AudioAsset.t)
  (images : list ImageAsset.t) :
  mainAudioDuration audioAsset <= totalDuration audioAsset images
  /\ totalImageDuration images <= totalDuration audioAsset images
  /\ (0 <= totalImageDuration images -> 0 < totalDuration audioAsset images)
  /\ (Forall (fun img => 0 <= ImageAsset.duration img) images ->
      0 < totalDuration audioAsset images).
Proof.
  assert (Hsum : totalImageDuration images
                 <= totalDuration audioAsset images).
  { unfold totalDuration, JS.max.
    eapply Qle_trans; [|apply Q.le_max_r].
    unfold JS.or_default.
    destruct (Qeq_bool (totalImageDuration images) 0) eqn:E.
    - apply Qeq_bool_iff in E. rewrite E. discriminate.
    - apply Qle_refl. }
  assert (Hpos : 0 <= totalImageDuration images ->
                 0 < totalDuration audioAsset images).
  { intro H0. unfold totalDuration, JS.max.
    eapply Qlt_le_trans; [|apply Q.le_max_r].
    unfold JS.or_default.
    destruct (Qeq_bool (totalImageDuration images) 0) eqn:E.
    - reflexivity.
    - apply Qeq_bool_neq in E.
      destruct (Qle_lt_or_eq _ _ H0) as [Hlt|Heq]; [exact Hlt|].
      exfalso. apply E. symmetry. exact Heq. }
  split; [apply Q.le_max_l|]. split; [exact Hsum|].
  split; [exact Hpos|].
  intro Hd. apply Hpos. apply sum_from_nonneg. exact Hd.
Qed.

Lemma totalDuration_bounds_witness :
  0 < totalDuration None [clip 4; clip 6].
Proof.
  apply (proj2 (proj2 (proj2
           (totalDuration_bounds None [clip 4; clip 6])))).
  repeat constructor; vm_compute; discriminate.
Defined.

(** ** Clicking on the timeline strip *)

(** X5.  A click on the strip seeks to a time between 0 and the duration of
    the timeline.  It is ignored exactly when its position in the scrolled
    content, [clientX - rect.left + scrollLeft], is less than the width of
    the header, and always while a clip is dragged or without a container.
    The header is sticky, so once the strip is scrolled by its width or
    more, no click inside the container is ignored: a click on the header
    seeks too.  A click on the playhead line seeks to the current time. *)
Theorem timeline_click_seeks_within_timeline (ct : TimelineView.Container)
  (clientX duration : Q) :
  0 <= duration ->
  (forall t,
     TimelineView.handleSeek None (Some ct) clientX duration = Some t ->
     0 <= t <= duration)
  /\ (TimelineView.handleSeek None (Some ct) clientX duration = None
      <-> clientX - TimelineView.rectLeft ct + TimelineView.scrollLeft ct
          < TimelineView.HEADER_WIDTH)
  /\ (TimelineView.HEADER_WIDTH <= TimelineView.scrollLeft ct ->
      TimelineView.rectLeft ct <= clientX ->
      exists t,
        TimelineView.handleSeek None (Some ct) clientX duration = Some t
        /\ t == Qmin ((clientX - TimelineView.rectLeft ct
                       + TimelineView.scrollLeft ct
                       - TimelineView.HEADER_WIDTH)
                      / TimelineView.PX_PER_SEC) duration)
  /\ (forall k, TimelineView.handleSeek (Some k) (Some ct) clientX duration
                = None)
  /\ TimelineView.handleSeek None None clientX duration = None
  /\ (forall t0,
        0 <= t0 <= duration ->
        clientX - TimelineView.rectLeft ct + TimelineView.scrollLeft ct
        == TimelineView.playheadLeft t0 ->
        exists t,
          TimelineView.handleSeek None (Some ct) clientX duration = Some t
          /\ t == t0).
Proof.
  intro Hd. unfold TimelineView.handleSeek.
  set (x := clientX - TimelineView.rectLeft ct + TimelineView.scrollLeft ct).
  split; [|split; [|split; [|split; [reflexivity | split; [reflexivity|]]]]].
  - intros t H. destruct (JS.lt x TimelineView.HEADER_WIDTH); [discriminate|].
    inversion H. unfold JS.min, JS.max. split.
    + apply Q.min_glb; [apply Q.le_max_r | exact Hd].
    + apply Q.le_min_r.
  - destruct (JS.lt x TimelineView.HEADER_WIDTH) eqn:E.
    + apply JS_lt_iff in E. split; auto.
    + split; [discriminate|]. intro H. apply JS_lt_iff in H. congruence.
  - intros Hscroll Hleft.
    assert (Hx : TimelineView.HEADER_WIDTH <= x) by (unfold x; lra).
    assert (E : JS.lt x TimelineView.HEADER_WIDTH = false).
    { apply not_true_iff_false. rewrite JS_lt_iff. lra. }
    rewrite E. eexists. split; [reflexivity|].
    unfold JS.min, JS.max.
    assert (H0 : 0 <= (x - TimelineView.HEADER_WIDTH)
                      / TimelineView.PX_PER_SEC).
    { apply Qle_shift_div_l; [reflexivity | lra]. }
    rewrite (Q.max_l _ 0 H0). reflexivity.
  - intros t0 [H0 H1] Hx.
    assert (E : JS.lt x TimelineView.HEADER_WIDTH = false).
    { apply not_true_iff_false. rewrite JS_lt_iff, Hx.
      unfold TimelineView.playheadLeft, TimelineView.PX_PER_SEC,
        TimelineView.HEADER_WIDTH. lra. }
    rewrite E. eexists. split; [reflexivity|].
    assert (Ht : (x - TimelineView.HEADER_WIDTH) / TimelineView.PX_PER_SEC
                 == t0).
    { rewrite Hx. unfold TimelineView.playheadLeft,
        TimelineView.PX_PER_SEC, TimelineView.HEADER_WIDTH. field. }
    unfold JS.min, JS.max. rewrite Ht.
    rewrite (Q.max_l t0 0 H0). apply Q.min_l. exact H1.
Qed.

(** A click on the playhead line at 3 seconds; and, with the strip
    scrolled by 100, a click 40 to the right of the left edge, on the
    sticky header, which seeks to 2 seconds. *)
Lemma timeline_click_seeks_within_timeline_witness :
  (exists t,
     TimelineView.handleSeek None
       (Some (TimelineView.Build_Container 10 0)) 180 10 = Some t
     /\ t == 3)
  /\ (exists t,
        TimelineView.handleSeek None
          (Some (TimelineView.Build_Container 10 100)) 50 10 = Some t
        /\ t == 2).
Proof.
  assert (Hd : 0 <= 10) by (vm_compute; discriminate).
  split.
  - apply (proj2 (proj2 (proj2 (proj2 (proj2
             (timeline_click_seeks_within_timeline
                (TimelineView.Build_Container 10 0) 180 10 Hd))))) 3).
    + split; vm_compute; discriminate.
    + reflexivity.
  - destruct (proj1 (proj2 (proj2
                (timeline_click_seeks_within_timeline
                   (TimelineView.Build_Container 10 100) 50 10 Hd))))
      as (t & Ht & Heq).
    + vm_compute; discriminate.
    + vm_compute; discriminate.
    + exists t. split; [exact Ht|]. rewrite Heq. reflexivity.
Defined.

(** ** The frame loop *)

Lemma tick_stays_in_timeline (totalDuration dt : Q) (st : Playback.Player) :
  0 <= dt ->
  0 <= Playback.currentTime st < totalDuration ->
  0 <= Playback.currentTime (Playback.tick None totalDuration dt st)
  < totalDuration.
Proof.
  intros Hdt [H0 H1]. unfold Playback.tick.
  destruct (Playback.isPlaying st); [|auto].
  destruct (JS.ge (Playback.currentTime st + dt) totalDuration) eqn:E;
    simpl.
  - lra.
  - apply not_true_iff_false in E. rewrite JS_ge_iff in E.
    apply Qnot_le_lt in E. lra.
Qed.

(** X6.  Without a main audio the frame loop keeps the current time inside
    the timeline: from a time in [[0, totalDuration)], after any number of
    turns with non-negative time steps, the time is again in
    [[0, totalDuration)]; a turn that would reach the end stops playback
    and rewinds to 0; a stopped player is left as it is.  With a main audio
    that is playing, the time is the position of the audio element,
    whatever the time step. *)
Theorem frame_loop_keeps_time_in_timeline (totalDuration : Q)
  (dts : list Q) (st : Playback.Player) :
  Forall (fun dt => 0 <= dt) dts ->
  0 <= Playback.currentTime st < totalDuration ->
  0 <= Playback.currentTime (Playback.ticks totalDuration dts st)
  < totalDuration
  /\ (Playback.isPlaying st = false ->
      Playback.ticks totalDuration dts st = st)
  /\ (forall dt,
        Playback.isPlaying st = true ->
        totalDuration <= Playback.currentTime st + dt ->
        Playback.tick None totalDuration dt st
        = Playback.Build_Player false 0)
  /\ (forall dt el,
        Playback.isPlaying st = true -> Exporter.paused el = false ->
        Playback.currentTime (Playback.tick (Some el) totalDuration dt st)
        = Exporter.position el).
Proof.
  intros Hdts Hst. split; [|split; [|split]].
  - unfold Playback.ticks. revert st Hst.
    induction Hdts as [|dt dts Hdt _ IH]; intros st Hst; simpl.
    + exact Hst.
    + apply IH. apply tick_stays_in_timeline; assumption.
  - intro Hp. unfold Playback.ticks. clear Hdts.
    induction dts as [|dt dts IH]; simpl; [reflexivity|].
    unfold Playback.tick at 2. rewrite Hp. exact IH.
  - intros dt Hp Hend. unfold Playback.tick. rewrite Hp.
    rewrite (proj2 (JS_ge_iff _ _) Hend). reflexivity.
  - intros dt el Hp Hel. unfold Playback.tick. rewrite Hp, Hel. reflexivity.
Qed.

Lemma frame_loop_keeps_time_in_timeline_witness :
  0 <= Playback.currentTime
         (Playback.ticks 10 [4; 4; 4] (Playback.Build_Player true 0))
  < 10.
Proof.
  apply (frame_loop_keeps_time_in_timeline 10 [4; 4; 4]
           (Playback.Build_Player true 0)).
  - repeat constructor; vm_compute; discriminate.
  - split; [vm_compute; discriminate | vm_compute; reflexivity].
Defined.

(** ** Clip layers *)

Lemma layer_alpha_in_range (v : Q) :
  JS.ge (JS.max 0 (JS.min 1 v)) 0 && JS.le (JS.max 0 (JS.min 1 v)) 1 = true.
Proof.
  apply andb_true_iff. rewrite JS_ge_iff, JS_le_iff.
  unfold JS.max, JS.min. split.
  - apply Q.le_max_l.
  - apply Q.max_lub; [discriminate | apply Q.le_min_l].
Qed.

Lemma layer_alpha_in_range_if (v : Q) :
  (if JS.ge (JS.max 0 (JS.min 1 v)) 0
   then JS.le (JS.max 0 (JS.min 1 v)) 1 else false) = true.
Proof. exact (layer_alpha_in_range v). Qed.

Lemma div_mul_cancel (a b : Q) : 0 < b -> a / b * b == a.
Proof. intro H. field. lra. Qed.

(** The image scaled by [renderLayer] covers the canvas and keeps its
    aspect ratio. *)
Lemma cover_fit (el : Canvas.HTMLImageElement) (width height : Q) :
  0 < Canvas.width el -> 0 < Canvas.height el ->
  0 < width -> 0 < height ->
  width <= Layer.rw el width height
  /\ height <= Layer.rh el width height
  /\ (Layer.rw el width height == width
      \/ Layer.rh el width height == height)
  /\ Layer.rw el width height * Canvas.height el
     == Layer.rh el width height * Canvas.width el.
Proof.
  intros Hew Heh Hw Hh. unfold Layer.rw, Layer.rh.
  set (ia := Canvas.width el / Canvas.height el).
  set (ca := width / height).
  assert (Hia : ia * Canvas.height el == Canvas.width el)
    by (apply div_mul_cancel; exact Heh).
  assert (Hca : ca * height == width) by (apply div_mul_cancel; exact Hh).
  assert (Hiapos : 0 < ia).
  { unfold ia. apply Qlt_shift_div_l; [exact Heh | lra]. }
  destruct (JS.gt ia ca) eqn:E.
  - apply JS_gt_iff in E.
    assert (Hmul : ca * height < ia * height)
      by (apply Qmult_lt_compat_r; assumption).
    repeat split.
    + rewrite (Qmult_comm height ia). lra.
    + apply Qle_refl.
    + right. reflexivity.
    + rewrite <- Hia. ring.
  - apply not_true_iff_false in E. rewrite JS_gt_iff in E.
    apply Qnot_lt_le in E.
    assert (Hdiv : width / ia * ia == width)
      by (apply div_mul_cancel; exact Hiapos).
    assert (Hh' : height * ia <= width).
    { rewrite <- Hca. rewrite (Qmult_comm ca height).
      rewrite !(Qmult_comm height).
      apply Qmult_le_compat_r; [exact E | lra]. }
    repeat split.
    + apply Qle_refl.
    + apply Qle_shift_div_l; [exact Hiapos | exact Hh'].
    + left. reflexivity.
    + rewrite <- Hia.
      rewrite (Qmult_assoc (width / ia) ia (Canvas.height el)), Hdiv.
      reflexivity.
Qed.

Lemma usability_good (el : Canvas.HTMLImageElement) :
  Canvas.complete el = true ->
  0 < Canvas.width el -> 0 < Canvas.height el ->
  Canvas.usability el = Canvas.Good.
Proof.
  unfold Canvas.complete, Canvas.width, Canvas.height, Canvas.usability.
  destruct (Canvas.request el) as [|w h|]; intros Hc Hw Hh.
  - discriminate Hc.
  - destruct (Qeq_bool w 0) eqn:Ew.
    + apply Qeq_bool_iff in Ew. lra.
    + destruct (Qeq_bool h 0) eqn:Eh; [|reflexivity].
      apply Qeq_bool_iff in Eh. lra.
  - lra.
Qed.

(** X7.  A clip whose image is decoded is painted twice: behind, enlarged
    and with a blur of 20px and half brightness after the filter of the
    clip, and on top with the filter of the clip alone, scaled to cover the
    canvas, centred, with the crop offset and the crop scale times the slow
    zoom, both at the layer's opacity clamped to [[0, 1]].  For an image
    and a canvas of
    positive size the top copy is at least as wide and as high as the
    canvas, fits it exactly in one direction, and keeps the aspect ratio of
    the image; the copy behind is scaled enough to cover the canvas too.
    The call returns. *)
Theorem layer_covers_canvas (s : Scene) (width height scaleRatio : Q)
  (idx : nat) (opacity : Q) (c : Canvas.Ctx)
  (img : ImageAsset.t) (el : Canvas.HTMLImageElement) :
  nth_error (images s) idx = Some img ->
  Map_get (ImageAsset.id img) (imageElements s) = Some el ->
  Canvas.complete el = true ->
  0 < Canvas.width el -> 0 < Canvas.height el ->
  0 < width -> 0 < height ->
  let crop := match ImageAsset.crop img with
              | Some crop => crop | None => default_crop end in
  let rw := Layer.rw el width height in
  let rh := Layer.rh el width height in
  let fs := CropData.scale crop * Layer.z s idx img in
  let bgScale :=
    JS.max (width / Canvas.width el) (height / Canvas.height el) * 1.2 in
  (exists behind top,
     Canvas.painted (renderLayer s width height scaleRatio idx opacity c)
     = [ Canvas.DrawImage behind el (- Canvas.width el / 2)
           (- Canvas.height el / 2) None;
         Canvas.DrawImage top el (- rw / 2) (- rh / 2) (Some (rw, rh)) ]
     /\ Canvas.globalAlpha behind = JS.max 0 (JS.min 1 opacity)
     /\ Canvas.globalAlpha top = JS.max 0 (JS.min 1 opacity)
     /\ Canvas.transform behind
        = Canvas.transform (Canvas.common (Canvas.cur c))
          ++ [Canvas.Translate (width / 2) (height / 2);
              Canvas.Scale bgScale bgScale]
     /\ Canvas.transform top
        = Canvas.transform (Canvas.common (Canvas.cur c))
          ++ [Canvas.Translate (width / 2) (height / 2);
              Canvas.Translate (CropData.x crop * scaleRatio)
                ((CropData.y crop * scaleRatio)
                 + Layer.verticalBias el width height);
              Canvas.Scale fs fs]
     /\ Canvas.filter behind
        = adjustment_filter
            match ImageAsset.adjustments img with
            | Some a => a | None => default_adjustments end
          ++ [ Canvas.Build_FilterFn "blur" 20 "px";
               Canvas.Build_FilterFn "brightness" 0.5 "" ]
     /\ Canvas.filter top
        = adjustment_filter
            match ImageAsset.adjustments img with
            | Some a => a | None => default_adjustments end)
  /\ Canvas.completion (renderLayer s width height scaleRatio idx opacity c)
     = Canvas.Returned
  /\ 0 <= JS.max 0 (JS.min 1 opacity) <= 1
  /\ width <= rw /\ height <= rh
  /\ (rw == width \/ rh == height)
  /\ rw * Canvas.height el == rh * Canvas.width el
  /\ width <= bgScale * Canvas.width el
  /\ height <= bgScale * Canvas.height el.
Proof.
  intros Hidx Hel Hc Hew Heh Hw Hh crop rw rh fs bgScale.
  split; [|split].
  2:{ unfold renderLayer. rewrite Hidx, Hel, Hc.
      unfold Canvas.drawImage. rewrite (usability_good el Hc Hew Heh).
      destruct_ctx c. reflexivity. }
  - unfold renderLayer. rewrite Hidx, Hel, Hc.
    unfold Canvas.drawImage. rewrite (usability_good el Hc Hew Heh).
    unfold Canvas.set_globalAlpha. rewrite layer_alpha_in_range.
    destruct_ctx c.
    exists
      {| Canvas.globalAlpha := JS.max 0 (JS.min 1 opacity);
         Canvas.transform :=
           (tf ++ [Canvas.Translate (width / 2) (height / 2)])
           ++ [Canvas.Scale bgScale bgScale];
         Canvas.filter :=
           adjustment_filter
             match ImageAsset.adjustments img with
             | Some a => a | None => default_adjustments end
           ++ [ Canvas.Build_FilterFn "blur" 20 "px";
                Canvas.Build_FilterFn "brightness" 0.5 "" ];
         Canvas.shadowColor := sc;
         Canvas.shadowBlur := sb |}.
    exists
      {| Canvas.globalAlpha := JS.max 0 (JS.min 1 opacity);
         Canvas.transform :=
           ((tf ++ [Canvas.Translate (width / 2) (height / 2)])
            ++ [Canvas.Translate (CropData.x crop * scaleRatio)
                  ((CropData.y crop * scaleRatio)
                   + Layer.verticalBias el width height)])
           ++ [Canvas.Scale fs fs];
         Canvas.filter :=
           adjustment_filter
             match ImageAsset.adjustments img with
             | Some a => a | None => default_adjustments end;
         Canvas.shadowColor := "rgba(0,0,0,0.5)";
         Canvas.shadowBlur := 20 |}.
    split; [canvas_run; reflexivity|].
    cbn [Canvas.globalAlpha Canvas.transform Canvas.filter Canvas.common
         Canvas.cur].
    split; [reflexivity|]. split; [reflexivity|].
    split; [rewrite <- app_assoc; reflexivity|].
    split; [rewrite <- !app_assoc; reflexivity|].
    split; reflexivity.
  - pose proof (layer_alpha_in_range opacity) as Ha.
    apply andb_true_iff in Ha. rewrite JS_ge_iff, JS_le_iff in Ha.
    destruct (cover_fit el width height Hew Heh Hw Hh)
      as (H1 & H2 & H3 & H4).
    split; [exact Ha|].
    split; [exact H1|]. split; [exact H2|]. split; [exact H3|].
    split; [exact H4|].
    unfold bgScale, JS.max.
    pose proof (Q.le_max_l (width / Canvas.width el)
                  (height / Canvas.height el)) as Hl.
    pose proof (Q.le_max_r (width / Canvas.width el)
                  (height / Canvas.height el)) as Hr.
    set (m := Qmax (width / Canvas.width el) (height / Canvas.height el))
      in *.
    assert (Hwd : width / Canvas.width el * Canvas.width el == width)
      by (apply div_mul_cancel; exact Hew).
    assert (Hhd : height / Canvas.height el * Canvas.height el == height)
      by (apply div_mul_cancel; exact Heh).
    assert (Hm1 : width <= m * Canvas.width el).
    { rewrite <- Hwd at 1. apply Qmult_le_compat_r; [exact Hl | lra]. }
    assert (Hm2 : height <= m * Canvas.height el).
    { rewrite <- Hhd at 1. apply Qmult_le_compat_r; [exact Hr | lra]. }
    split.
    + assert (0 <= m * Canvas.width el) by lra.
      assert (E : m * 1.2 * Canvas.width el
                  == m * Canvas.width el + 0.2 * (m * Canvas.width el))
        by ring.
      rewrite E. assert (0 <= 0.2 * (m * Canvas.width el)).
      { apply Qmult_le_0_compat; [discriminate | assumption]. }
      lra.
    + assert (0 <= m * Canvas.height el) by lra.
      assert (E : m * 1.2 * Canvas.height el
                  == m * Canvas.height el + 0.2 * (m * Canvas.height el))
        by ring.
      rewrite E. assert (0 <= 0.2 * (m * Canvas.height el)).
      { apply Qmult_le_0_compat; [discriminate | assumption]. }
      lra.
Qed.

(** The first clip of scenario A on a 720p canvas. *)
Lemma layer_covers_canvas_witness :
  1280 <= Layer.rw (snd (decoded "a")) 1280 720
  /\ 720 <= Layer.rh (snd (decoded "a")) 1280 720.
Proof.
  assert (H : forall a b : Q, Qlt a b -> a < b) by auto.
  destruct (layer_covers_canvas (scenarioA 1) 1280 720 1 0 1 Canvas.initial
              (clip_named "a" 4) (snd (decoded "a"))
              eq_refl eq_refl eq_refl
              (H 0 1920 eq_refl) (H 0 1080 eq_refl)
              (H 0 1280 eq_refl) (H 0 720 eq_refl))
    as (_ & _ & _ & Hw & Hh & _).
  split; assumption.
Defined.

Lemma cumulativeStart_next (images : list ImageAsset.t) (i : nat)
  (img : ImageAsset.t) :
  nth_error images i = Some img ->
  cumulativeStart images (S i)
  = cumulativeStart images i + ImageAsset.duration img.
Proof.
  intro Hi. unfold cumulativeStart, totalImageDuration.
  revert i Hi. generalize 0 at 1 2 as acc.
  induction images as [|x images IH]; intros acc i Hi.
  - destruct i; discriminate Hi.
  - destruct i as [|i].
    + simpl in Hi. inversion Hi. reflexivity.
    + simpl in Hi. change (firstn (S (S i)) (x :: images))
        with (x :: firstn (S i) images).
      simpl fold_left at 1. rewrite (IH _ i Hi). reflexivity.
Qed.

(** X8.  The slow zoom of the active clip grows from 1 and stays below
    1.1; while the next clip is blended in during a transition, its own
    zoom is still 1. *)
Theorem layer_zoom_bounds (s : Scene) (i : nat) (start : Q) :
  drawCanvas_loop (currentTime s) (images s) 0 0 = (Z.of_nat i, start) ->
  exists img,
    nth_error (images s) i = Some img
    /\ 1 <= Layer.z s i img < 1.1
    /\ Layer.z s i img
       == 1 + (currentTime s - start) / ImageAsset.duration img * 0.1
    /\ forall next,
         nth_error (images s) (S i) = Some next ->
         ~ ImageAsset.duration next == 0 ->
         Layer.z s (S i) next == 1.
Proof.
  intro Hloop.
  assert (Hidx : Z.of_nat i <> (-1)%Z) by lia.
  destruct (drawCanvas_loop_round_trip _ _ _ _ Hloop Hidx)
    as (img & Hn & _ & Hs & [H1 H2] & _).
  rewrite Nat2Z.id in Hn, Hs. exists img. split; [exact Hn|].
  assert (Hd : 0 < ImageAsset.duration img) by lra.
  assert (Hz : Layer.z s i img
               == 1 + (currentTime s - start) / ImageAsset.duration img
                      * 0.1).
  { unfold Layer.z, JS.max. rewrite <- Hs.
    rewrite (Q.max_r 0 (currentTime s - start)) by lra. reflexivity. }
  split; [|split; [exact Hz|]].
  - rewrite Hz.
    assert (Hk0 : 0 <= (currentTime s - start) / ImageAsset.duration img)
      by (apply Qle_shift_div_l; [exact Hd | lra]).
    assert (Hk1 : (currentTime s - start) / ImageAsset.duration img < 1)
      by (apply Qlt_shift_div_r; [exact Hd | lra]).
    split; lra.
  - intros next Hnext Hnz. unfold Layer.z, JS.max.
    rewrite (cumulativeStart_next _ _ _ Hn), <- Hs.
    rewrite (Q.max_l 0 (currentTime s - (start + ImageAsset.duration img)))
      by lra.
    field. exact Hnz.
Qed.

Lemma layer_zoom_bounds_witness :
  exists img,
    nth_error (images (scenarioA 2)) 0 = Some img
    /\ 1 <= Layer.z (scenarioA 2) 0 img < 1.1.
Proof.
  destruct (layer_zoom_bounds (scenarioA 2) 0 0 eq_refl)
    as (img & Hn & Hz & _).
  exists img. split; assumption.
Defined.

(** ** Overlay animations from start to end *)






Lemma Qmult_le_l_weak (a b c : Q) : 0 <= c -> a <= b -> c * a <= c * b.
Proof.
  intros Hc Hab. setoid_replace (c * a) with (a * c) by ring.
  setoid_replace (c * b) with (b * c) by ring.
  apply Qmult_le_compat_r; assumption.
Qed.

Lemma cube_le (a b : Q) : 0 <= a -> a <= b -> a * a * a <= b * b * b.
Proof.
  intros Ha Hab.
  assert (Hb : 0 <= b) by lra.
  assert (H1 : a * a <= b * b).
  { apply Qle_trans with (b * a).
    - apply Qmult_le_compat_r; assumption.
    - apply Qmult_le_l_weak; assumption. }
  apply Qle_trans with (b * b * a).
  - apply Qmult_le_compat_r; assumption.
  - apply Qmult_le_l_weak; [|assumption].
    apply Qmult_le_0_compat; assumption.
Qed.

(** X10.  During a fade or a slide-up of an overlay with non-negative
    opacity, the opacity drawn lies between 0 and the overlay's opacity and
    does not decrease with local time; during a slide-up on a canvas of
    non-negative scale the text stays between its position and
    [40 * scaleRatio] below it and never moves down. *)
Theorem fade_and_slide_are_monotone (ov : TextOverlay.t)
  (height scaleRatio r1 r2 : Q) :
  0 <= TextOverlay.opacity ov -> 0 <= scaleRatio ->
  0 <= r1 -> r1 <= r2 ->
  (TextOverlay.animation ov = AnimFade
   \/ TextOverlay.animation ov = AnimSlideUp ->
   0 <= renderOpacity ov r1 <= TextOverlay.opacity ov
   /\ renderOpacity ov r1 <= renderOpacity ov r2)
  /\ (TextOverlay.animation ov = AnimSlideUp ->
      TextOverlay.y ov * height <= renderY ov height scaleRatio r1
      <= TextOverlay.y ov * height + 40 * scaleRatio
      /\ renderY ov height scaleRatio r2 <= renderY ov height scaleRatio r1).
Proof.
  intros Hop Hsr H0 H12.
  destruct (progress_bounds ov r1) as [Hp0 Hp1].
  destruct (progress_bounds ov r2) as [Hq0 Hq1].
  pose proof (progress_monotone ov r1 r2 H0 H12) as Hmono.
  split.
  - intro Ha.
    assert (E : forall r, renderOpacity ov r
                          = TextOverlay.opacity ov * progress ov r)
      by (intro r; unfold renderOpacity; destruct Ha as [-> | ->];
          reflexivity).
    rewrite !E. split; [split|].
    + apply Qmult_le_0_compat; assumption.
    + rewrite <- (Qmult_1_r (TextOverlay.opacity ov)) at 2.
      rewrite !(Qmult_comm (TextOverlay.opacity ov)).
      apply Qmult_le_compat_r; assumption.
    + rewrite !(Qmult_comm (TextOverlay.opacity ov)).
      apply Qmult_le_compat_r; assumption.
  - intro Ha. unfold renderY, JS.pow3. rewrite Ha.
    set (p := progress ov r1) in *. set (q := progress ov r2) in *.
    set (off := 40 * scaleRatio).
    assert (Hoff : 0 <= off)
      by (unfold off; apply Qmult_le_0_compat; [discriminate | exact Hsr]).
    assert (Hc1 : 0 <= (1 - p) * (1 - p) * (1 - p)).
    { apply Qmult_le_0_compat; [apply Qmult_le_0_compat|]; lra. }
    assert (Hc2 : (1 - p) * (1 - p) * (1 - p) <= 1).
    { pose proof (cube_le (1 - p) 1 ltac:(lra) ltac:(lra)) as H. lra. }
    assert (Hc3 : (1 - q) * (1 - q) * (1 - q)
                  <= (1 - p) * (1 - p) * (1 - p))
      by (apply cube_le; lra).
    set (cp := (1 - p) * (1 - p) * (1 - p)) in *.
    set (cq := (1 - q) * (1 - q) * (1 - q)) in *.
    assert (E1 : TextOverlay.y ov * height + off - off * (1 - cp)
                 == TextOverlay.y ov * height + off * cp) by ring.
    assert (E2 : TextOverlay.y ov * height + off - off * (1 - cq)
                 == TextOverlay.y ov * height + off * cq) by ring.
    rewrite E1, E2.
    assert (M0 : 0 <= off * cp) by (apply Qmult_le_0_compat; assumption).
    assert (M1 : off * cp <= off).
    { rewrite <- (Qmult_1_r off) at 2. rewrite !(Qmult_comm off).
      apply Qmult_le_compat_r; assumption. }
    assert (M2 : off * cq <= off * cp).
    { rewrite !(Qmult_comm off). apply Qmult_le_compat_r; assumption. }
    repeat split; lra.
Qed.


Lemma fade_and_slide_are_monotone_witness :
  renderOpacity fade_overlay 0.5 <= renderOpacity fade_overlay 1.
Proof.
  assert (H : forall a b : Q, Qle a b -> a <= b) by auto.
  assert (Hle : forall a b : Q, (Qle_bool a b = true) -> a <= b)
    by (intros a b; apply Qle_bool_iff).
  apply (proj1 (fade_and_slide_are_monotone fade_overlay 720 1 0.5 1
                  (Hle 0 1 eq_refl) (Hle 0 1 eq_refl)
                  (Hle 0 0.5 eq_refl) (Hle 0.5 1 eq_refl))).
  left. reflexivity.
Defined.

(** ** What a call of [drawCanvas] leaves behind *)



(** ** Images that are not decoded *)

Lemma filter_all_false {A : Type} (p : A -> bool) (l : list A) :
  Forall (fun x => p x = false) l -> List.filter p l = [].
Proof.
  induction 1 as [|x l Hx _ IH]; simpl; [reflexivity|].
  rewrite Hx. exact IH.
Qed.

Lemma filter_all_true {A : Type} (p : A -> bool) (l : list A) :
  Forall (fun x => p x = true) l -> List.filter p l = l.
Proof.
  induction 1 as [|x l Hx _ IH]; simpl; [reflexivity|].
  rewrite Hx, IH. reflexivity.
Qed.

Lemma renderLayer_paints_images (s : Scene) (width height scaleRatio : Q)
  (idx : nat) (opacity : Q) (c : Canvas.Ctx) :
  Forall (fun p => negb (isDrawImage p) = false)
    (Canvas.painted (renderLayer s width height scaleRatio idx opacity c)).
Proof.
  unfold renderLayer.
  destruct (nth_error (images s) idx) as [img|]; [|constructor].
  destruct (Map_get (ImageAsset.id img) (imageElements s)) as [el|];
    [|constructor].
  destruct (Canvas.complete el); [|constructor].
  unfold Canvas.drawImage.
  destruct (Canvas.usability el); destruct_ctx c; canvas_run;
    repeat constructor.
Qed.

Lemma renderLayer_undecoded (s : Scene)
  (els : list (string * Canvas.HTMLImageElement))
  (width height scaleRatio : Q) (idx : nat) (opacity : Q) (c : Canvas.Ctx) :
  (forall id el, Map_get id els = Some el -> Canvas.complete el = false) ->
  renderLayer (withElements s els) width height scaleRatio idx opacity c
  = Canvas.skip c.
Proof.
  intro Hels. unfold renderLayer.
  change (images (withElements s els)) with (images s).
  change (imageElements (withElements s els)) with els.
  destruct (nth_error (images s) idx) as [img|]; [|reflexivity].
  destruct (Map_get (ImageAsset.id img) els) as [el|] eqn:E; [|reflexivity].
  rewrite (Hels _ _ E). reflexivity.
Qed.

(** The layer of a clip whose element is broken: [drawImage] throws before
    anything is painted. *)
Lemma renderLayer_broken (s : Scene) (width height scaleRatio : Q)
  (idx : nat) (opacity : Q) (c : Canvas.Ctx)
  (img : ImageAsset.t) (el : Canvas.HTMLImageElement) :
  nth_error (images s) idx = Some img ->
  Map_get (ImageAsset.id img) (imageElements s) = Some el ->
  Canvas.request el = Canvas.Broken ->
  Canvas.completion (renderLayer s width height scaleRatio idx opacity c)
  = Canvas.Threw "InvalidStateError"
  /\ Canvas.painted (renderLayer s width height scaleRatio idx opacity c)
     = [].
Proof.
  intros Hidx Hel Hb. unfold renderLayer. rewrite Hidx, Hel.
  unfold Canvas.complete, Canvas.drawImage, Canvas.usability. rewrite Hb.
  destruct_ctx c. split; reflexivity.
Qed.

Lemma drawOverlay_paints_text (s : Scene) (width height scaleRatio : Q)
  (start : Q) (ov : TextOverlay.t) (c : Canvas.Ctx) :
  Forall (fun p => negb (isDrawImage p) = true)
    (Canvas.painted (drawOverlay s width height scaleRatio start ov c)).
Proof.
  unfold drawOverlay. destruct_ctx c. canvas_run. repeat constructor.
Qed.

Lemma forEach_paints {A : Type} (P : Canvas.Paint -> Prop)
  (f : A -> Canvas.Cmd) (l : list A) :
  (forall a, returns (f a)) ->
  (forall a c, Forall P (Canvas.painted (f a c))) ->
  forall c, Forall P (Canvas.painted (Canvas.forEach f l c)).
Proof.
  intros Hr Hf. induction l as [|a l IH]; intro c; simpl.
  - constructor.
  - rewrite seq_painted by apply Hr.
    apply Forall_app. split; [apply Hf | apply IH].
Qed.

Lemma drawLyrics_paints_text (s : Scene) (width height scaleRatio : Q)
  (c : Canvas.Ctx) :
  Forall (fun p => negb (isDrawImage p) = true)
    (Canvas.painted (drawLyrics s width height scaleRatio c)).
Proof.
  unfold drawLyrics.
  destruct (0 <? List.length (lyrics s))%nat; [|constructor].
  destruct (currentLyric s); [|constructor].
  destruct_ctx c. canvas_run. repeat constructor.
Qed.

Lemma drawOverlay_withElements (s : Scene)
  (els : list (string * Canvas.HTMLImageElement))
  (width height scaleRatio start : Q) :
  drawOverlay (withElements s els) width height scaleRatio start
  = drawOverlay s width height scaleRatio start.
Proof.
  unfold drawOverlay.
  change (currentTime (withElements s els)) with (currentTime s).
  reflexivity.
Qed.

Lemma drawLyrics_withElements (s : Scene)
  (els : list (string * Canvas.HTMLImageElement))
  (width height scaleRatio : Q) :
  drawLyrics (withElements s els) width height scaleRatio
  = drawLyrics s width height scaleRatio.
Proof.
  unfold drawLyrics, currentLyric.
  change (currentTime (withElements s els)) with (currentTime s).
  change (lyrics (withElements s els)) with (lyrics s).
  reflexivity.
Qed.

(** A bracketed command that returns leaves the context as it was. *)
Lemma bracketed_returned (m : Canvas.Cmd) (c : Canvas.Ctx) :
  bracketed m ->
  Canvas.completion (m c) = Canvas.Returned ->
  Canvas.ctx (m c) = c.
Proof. intros Hm Hret. pose proof (proj1 (Hm c)) as H. rewrite Hret in H. exact H. Qed.

Lemma drawClips_undecoded (s : Scene)
  (els : list (string * Canvas.HTMLImageElement))
  (width height scaleRatio : Q) (c : Canvas.Ctx) :
  (forall id el, Map_get id els = Some el -> Canvas.complete el = false) ->
  Canvas.completion (drawClips s width height scaleRatio c)
  = Canvas.Returned ->
  Canvas.painted (drawClips (withElements s els) width height scaleRatio c)
  = List.filter (fun p => negb (isDrawImage p))
      (Canvas.painted (drawClips s width height scaleRatio c)).
Proof.
  intros Hels Hret. unfold drawClips in Hret |- *.
  change (images (withElements s els)) with (images s).
  change (currentTime (withElements s els)) with (currentTime s).
  destruct (drawCanvas_loop (currentTime s) (images s) 0 0)
    as [activeIndex start].
  destruct (activeIndex =? -1)%Z; [reflexivity|].
  destruct (nth_error (images s) (Z.to_nat activeIndex)) as [imgObj|];
    [|reflexivity].
  destruct (seq_completed _ _ _ Hret) as [Hlayers _].
  rewrite (seq_returned _ _ _ Hlayers). cbn [Canvas.painted].
  rewrite (bracketed_returned _ c
             (drawLayers_bracketed s width height scaleRatio imgObj
                activeIndex start) Hlayers).
  assert (Hlayers' :
    drawLayers (withElements s els) width height scaleRatio imgObj
      activeIndex start c = Canvas.skip c).
  { unfold drawLayers.
    destruct (transitionActive (withElements s els) imgObj activeIndex start).
    - rewrite seq_returned
        by (rewrite renderLayer_undecoded by exact Hels; reflexivity).
      rewrite !renderLayer_undecoded by exact Hels. reflexivity.
    - apply renderLayer_undecoded. exact Hels. }
  rewrite seq_returned by (rewrite Hlayers'; reflexivity).
  rewrite Hlayers'. cbn [Canvas.painted Canvas.ctx Canvas.skip app].
  assert (Himgs :
    Forall (fun p => negb (isDrawImage p) = false)
      (Canvas.painted
         (drawLayers s width height scaleRatio imgObj activeIndex start c))).
  { unfold drawLayers in Hlayers |- *.
    destruct (transitionActive s imgObj activeIndex start).
    - destruct (seq_completed _ _ _ Hlayers) as [H1 _].
      rewrite (seq_returned _ _ _ H1). cbn [Canvas.painted].
      apply Forall_app. split; apply renderLayer_paints_images.
    - apply renderLayer_paints_images. }
  rewrite filter_app, (filter_all_false _ _ Himgs). cbn [app].
  rewrite drawOverlay_withElements.
  symmetry.
  apply (filter_all_true (fun p => negb (isDrawImage p))
           (Canvas.painted
              (Canvas.forEach
                 (drawOverlay s width height scaleRatio start)
                 (ImageAsset.textOverlays imgObj) c))).
  apply (forEach_paints (fun p => negb (isDrawImage p) = true)
           (drawOverlay s width height scaleRatio start)).
  - intro ov. apply drawOverlay_returns.
  - intros ov c0.
    exact (drawOverlay_paints_text s width height scaleRatio start ov c0).
Qed.

(** X12.  An image that is missing or still loading costs its layer and
    nothing else: where the call for a scene returns, the frame of the
    scene with no element complete is its frame without the [drawImage]
    paints, so the background, the overlays of the active clip and the
    subtitle are painted as before.  An image that could not be decoded
    costs the rest of the frame: when the element of the clip under the
    playhead is broken, the call throws [InvalidStateError] and the frame
    is the black background alone, without overlays and subtitle. *)
Theorem undecoded_images_only_drop_their_layers (s : Scene)
  (els : list (string * Canvas.HTMLImageElement)) (c : Canvas.Ctx) :
  ((forall id el, Map_get id els = Some el -> Canvas.complete el = false) ->
   Canvas.completion (drawCanvas s c) = Canvas.Returned ->
   frame (withElements s els) c
   = List.filter (fun p => negb (isDrawImage p)) (frame s c)
   /\ Canvas.completion (drawCanvas (withElements s els) c)
      = Canvas.Returned)
  /\ (forall cv i start img el,
        canvas s = Some cv ->
        drawCanvas_loop (currentTime s) (images s) 0 0
        = (Z.of_nat i, start) ->
        nth_error (images s) i = Some img ->
        Map_get (ImageAsset.id img) (imageElements s) = Some el ->
        Canvas.request el = Canvas.Broken ->
        Canvas.completion (drawCanvas s c)
        = Canvas.Threw "InvalidStateError"
        /\ frame s c
           = [Canvas.FillRect (Canvas.common (Canvas.cur c)) "#000" 0 0
                (HTMLCanvasElement.width cv) (HTMLCanvasElement.height cv)]).
Proof.
  split.
  - intros Hels Hret.
    assert (Hnb : noBrokenImage (withElements s els)).
    { intros id el Hel Hb. pose proof (Hels id el Hel) as Hc.
      unfold Canvas.complete in Hc. rewrite Hb in Hc. discriminate Hc. }
    split; [|apply drawCanvas_returns; exact Hnb].
    unfold frame. unfold drawCanvas in Hret |- *.
    change (canvas (withElements s els)) with (canvas s).
    change (emptyProject (withElements s els)) with (emptyProject s).
    change (images (withElements s els)) with (images s).
    destruct (canvas s) as [cv|]; [|reflexivity].
    destruct (emptyProject s).
    + destruct_ctx c. canvas_run. reflexivity.
    + set (width := HTMLCanvasElement.width cv) in Hret |- *.
      set (height := HTMLCanvasElement.height cv) in Hret |- *.
      set (scaleRatio := width / BASE_WIDTH) in Hret |- *.
      rewrite background_then in Hret |- *. rewrite background_then.
      cbn [Canvas.completion Canvas.painted] in Hret |- *.
      set (c1 := Canvas.ctx (Canvas.set_fillStyle "#000" c)) in Hret |- *.
      destruct (seq_completed _ _ _ Hret) as [Hclips _].
      rewrite (seq_returned _ _ _ Hclips). cbn [Canvas.painted].
      assert (Hclips' :
        Canvas.completion
          ((if (0 <? List.length (images s))%nat
            then drawClips (withElements s els) width height scaleRatio
            else Canvas.skip) c1) = Canvas.Returned).
      { destruct (0 <? List.length (images s))%nat;
          [apply drawClips_returns; exact Hnb | reflexivity]. }
      rewrite (seq_returned _ _ _ Hclips'). cbn [Canvas.painted].
      assert (Hpaint :
        Canvas.painted
          ((if (0 <? List.length (images s))%nat
            then drawClips (withElements s els) width height scaleRatio
            else Canvas.skip) c1)
        = List.filter (fun p => negb (isDrawImage p))
            (Canvas.painted
               ((if (0 <? List.length (images s))%nat
                 then drawClips s width height scaleRatio
                 else Canvas.skip) c1))).
      { destruct (0 <? List.length (images s))%nat;
          [apply drawClips_undecoded; assumption | reflexivity]. }
      assert (Hctx : forall s0,
        Canvas.completion
          ((if (0 <? List.length (images s))%nat
            then drawClips s0 width height scaleRatio
            else Canvas.skip) c1) = Canvas.Returned ->
        Canvas.ctx
          ((if (0 <? List.length (images s))%nat
            then drawClips s0 width height scaleRatio
            else Canvas.skip) c1) = c1).
      { intros s0 H0. destruct (0 <? List.length (images s))%nat;
          [apply bracketed_returned; [apply drawClips_bracketed | exact H0]
          | reflexivity]. }
      rewrite Hpaint, (Hctx _ Hclips), (Hctx _ Hclips').
      rewrite drawLyrics_withElements.
      cbn [List.filter isDrawImage negb]. rewrite filter_app.
      rewrite (filter_all_true _ _
                 (drawLyrics_paints_text s width height scaleRatio c1)).
      reflexivity.
  - intros cv i start img el Hcv Hloop Hi Hel Hb.
    assert (Hne : emptyProject s = false).
    { unfold emptyProject. destruct (images s); [destruct i; discriminate Hi|].
      reflexivity. }
    assert (Hlen : (0 <? List.length (images s))%nat = true).
    { destruct (images s); [destruct i; discriminate Hi | reflexivity]. }
    unfold frame, drawCanvas. rewrite Hcv, Hne, Hlen.
    rewrite background_then. cbn [Canvas.completion Canvas.painted].
    set (c1 := Canvas.ctx (Canvas.set_fillStyle "#000" c)).
    set (width := HTMLCanvasElement.width cv).
    set (height := HTMLCanvasElement.height cv).
    set (scaleRatio := width / BASE_WIDTH).
    assert (Hclips :
      Canvas.completion (drawClips s width height scaleRatio c1)
      = Canvas.Threw "InvalidStateError"
      /\ Canvas.painted (drawClips s width height scaleRatio c1) = []).
    { unfold drawClips. rewrite Hloop.
      replace (Z.of_nat i =? -1)%Z with false by (symmetry; apply Z.eqb_neq; lia).
      rewrite Nat2Z.id, Hi.
      destruct (renderLayer_broken s width height scaleRatio i 1 c1 img el
                  Hi Hel Hb) as [Hk Hp].
      assert (Hlayers :
        Canvas.completion
          (drawLayers s width height scaleRatio img (Z.of_nat i) start c1)
        = Canvas.Threw "InvalidStateError"
        /\ Canvas.painted
             (drawLayers s width height scaleRatio img (Z.of_nat i) start c1)
           = []).
      { unfold drawLayers. rewrite Nat2Z.id.
        destruct (transitionActive s img (Z.of_nat i) start).
        - rewrite (seq_threw _ _ _ _ Hk). split; assumption.
        - split; assumption. }
      destruct Hlayers as [Hk' Hp'].
      rewrite (seq_threw _ _ _ _ Hk'). split; assumption. }
    destruct Hclips as [Hk Hp].
    rewrite (seq_threw _ _ _ _ Hk), Hk, Hp. split; reflexivity.
Qed.

Lemma undecoded_images_only_drop_their_layers_witness :
  List.length (frame (withElements (scenarioB 3) []) Canvas.initial) = 3%nat
  /\ List.length (frame (scenarioB 3) Canvas.initial) = 5%nat
  /\ List.length (frame (scenarioB_undecodable 3) Canvas.initial) = 1%nat.
Proof.
  pose proof (undecoded_images_only_drop_their_layers (scenarioB 3) []
                Canvas.initial) as [Hloading _].
  pose proof (undecoded_images_only_drop_their_layers
                (scenarioB_undecodable 3) [] Canvas.initial) as [_ Hbroken].
  split; [|split; [reflexivity|]].
  - destruct Hloading as [H _].
    + intros id el H. discriminate H.
    + reflexivity.
    + rewrite H. reflexivity.
  - destruct (Hbroken (RESOLUTIONS R720p) 0%nat 0 (clip_named "a" 10)
                (snd (undecodable "a")) eq_refl eq_refl eq_refl eq_refl
                eq_refl) as [_ H].
    rewrite H. reflexivity.
Defined.

(** ** Edits in the inspector *)

Lemma loops_depend_on_durations (t : Q) (a b : list ImageAsset.t) :
  List.map ImageAsset.duration a = List.map ImageAsset.duration b ->
  forall i acc,
    drawCanvas_loop t a i acc = drawCanvas_loop t b i acc.
Proof.
  revert b. induction a as [|x a IH]; intros b H i acc.
  - destruct b; [reflexivity | discriminate H].
  - destruct b as [|y b]; [discriminate H|].
    simpl in H. inversion H as [[Hd Hrest]]. simpl. rewrite Hd.
    destruct (JS.ge t acc && JS.lt t (acc + ImageAsset.duration y));
      [reflexivity | apply IH; exact Hrest].
Qed.

Lemma timeline_depends_on_durations (a b : list ImageAsset.t) :
  List.map ImageAsset.duration a = List.map ImageAsset.duration b ->
  List.length a = List.length b
  /\ totalImageDuration a = totalImageDuration b
  /\ forall t,
       drawCanvas_loop t a 0 0 = drawCanvas_loop t b 0 0
       /\ getActiveImageIndex a t = getActiveImageIndex b t.
Proof.
  intro H.
  assert (Hlen : List.length a = List.length b).
  { rewrite <- (length_map ImageAsset.duration a), H. apply length_map. }
  split; [exact Hlen|]. split.
  - unfold totalImageDuration. generalize 0 as acc. revert b H Hlen.
    induction a as [|x a IH]; intros b H Hlen acc.
    + destruct b; [reflexivity | discriminate H].
    + destruct b as [|y b]; [discriminate H|].
      simpl in H. inversion H as [[Hd Hrest]]. simpl. rewrite Hd.
      apply IH; [exact Hrest | simpl in Hlen; lia].
  - intro t.
    pose proof (loops_depend_on_durations t a b H 0%nat 0) as Hl.
    split; [exact Hl|].
    unfold getActiveImageIndex. rewrite Hlen.
    pose proof (loops_agree t a 0 0) as Ha.
    pose proof (loops_agree t b 0 0) as Hb. rewrite Hl in Ha.
    destruct (getActiveImageIndex_loop t a 0 0),
      (getActiveImageIndex_loop t b 0 0);
      destruct (List.length b =? 0)%nat; try reflexivity;
      rewrite Ha in Hb; try lia; try (f_equal; lia).
Qed.

Lemma map_same_durations (f : ImageAsset.t -> ImageAsset.t)
  (l : list ImageAsset.t) :
  (forall img, ImageAsset.duration (f img) = ImageAsset.duration img) ->
  List.map ImageAsset.duration l = List.map ImageAsset.duration (List.map f l).
Proof.
  intro Hf. rewrite map_map. apply map_ext. intro img. symmetry. apply Hf.
Qed.

Lemma map_same_ids (f : ImageAsset.t -> ImageAsset.t)
  (l : list ImageAsset.t) :
  (forall img, ImageAsset.id (f img) = ImageAsset.id img) ->
  List.map ImageAsset.id (List.map f l) = List.map ImageAsset.id l.
Proof.
  intro Hf. rewrite map_map. apply map_ext. intro img. apply Hf.
Qed.

(** Closes the two goals on ids and durations for an edit written as a
    [map] under guards. *)
Ltac edit_keeps f :=
  unfold f, Inspector.updateSelectedImage;
  repeat match goal with
         | |- context [match ?x with _ => _ end] =>
             match x with
             | List.map _ _ => fail 1
             | _ => destruct x; try reflexivity
             end
         end;
  first [ apply map_same_durations | apply map_same_ids ];
  intro img;
  repeat match goal with
         | |- context [if ?b then _ else _] => destruct b
         end;
  reflexivity.

(** X13.  Editing the crop or the adjustments of the selected clip,
    applying a preset, saving the crop dialog, adding a text overlay and
    dragging one never touch the timeline: the sequence keeps its ids in
    order and its durations, hence its length, its total duration and the
    clip that either clock loop resolves at any time. *)
Theorem inspector_edits_keep_timeline
  (sel selText : option string) (cu : Inspector.CropUpdates.t)
  (au : Inspector.AdjustmentUpdates.t) (preset : ImageAdjustments.t)
  (tempCrop : CropData.t) (newId : string) (dragging : bool)
  (container : option (Q * Q)) (dx dy : Q) (images : list ImageAsset.t) :
  forall edited,
    In edited
      [ Inspector.updateSelectedImageCrop sel cu images;
        Inspector.updateSelectedImageAdjustments sel au images;
        Inspector.applyPreset sel preset images;
        Inspector.saveCrop sel tempCrop images;
        Inspector.addTextToSelected newId sel images;
        Inspector.handleTextMouseMove dragging sel selText container dx dy
          images ] ->
    List.map ImageAsset.id edited = List.map ImageAsset.id images
    /\ List.map ImageAsset.duration edited
       = List.map ImageAsset.duration images
    /\ List.length edited = List.length images
    /\ totalImageDuration edited = totalImageDuration images
    /\ forall t,
         getActiveImageIndex edited t = getActiveImageIndex images t
         /\ drawCanvas_loop t edited 0 0 = drawCanvas_loop t images 0 0.
Proof.
  intros edited Hin.
  assert (H : List.map ImageAsset.id edited = List.map ImageAsset.id images
              /\ List.map ImageAsset.duration images
                 = List.map ImageAsset.duration edited).
  { simpl in Hin.
    destruct Hin as [<-|[<-|[<-|[<-|[<-|[<-|[]]]]]]]; split.
    - edit_keeps Inspector.updateSelectedImageCrop.
    - edit_keeps Inspector.updateSelectedImageCrop.
    - edit_keeps Inspector.updateSelectedImageAdjustments.
    - edit_keeps Inspector.updateSelectedImageAdjustments.
    - unfold Inspector.applyPreset.
      edit_keeps Inspector.updateSelectedImageAdjustments.
    - unfold Inspector.applyPreset.
      edit_keeps Inspector.updateSelectedImageAdjustments.
    - edit_keeps Inspector.saveCrop.
    - edit_keeps Inspector.saveCrop.
    - edit_keeps Inspector.addTextToSelected.
    - edit_keeps Inspector.addTextToSelected.
    - edit_keeps Inspector.handleTextMouseMove.
    - edit_keeps Inspector.handleTextMouseMove. }
  destruct H as [Hid Hd].
  destruct (timeline_depends_on_durations images edited Hd)
    as (Hlen & Htot & Hclock).
  repeat split; try congruence; symmetry; apply Hclock.
Qed.

Lemma inspector_edits_keep_timeline_witness :
  totalImageDuration
    (Inspector.saveCrop (Some "a"%string) (CropData.mk 40 0 2)
       [clip_named "a" 4; clip_named "b" 6])
  = totalImageDuration [clip_named "a" 4; clip_named "b" 6].
Proof.
  apply (inspector_edits_keep_timeline (Some "a"%string) None
           (Inspector.CropUpdates.mk None None None)
           (Inspector.AdjustmentUpdates.mk None None None None None None)
           default_adjustments (CropData.mk 40 0 2) "n" false None 0 0
           [clip_named "a" 4; clip_named "b" 6]).
  do 3 right. left. reflexivity.
Defined.

(** X14.  While the crop is dragged, each offset moves by twice the mouse
    movement and snaps to the centre: the new offset is 0 exactly when the
    moved offset is less than 30 away from 0, and is the moved offset
    otherwise, so it is never strictly between 0 and 30 in size; the zoom
    is untouched, and nothing changes when no drag is going on. *)
Theorem crop_drag_snaps_to_centre (dx dy : Q) (prev : CropData.t) :
  let moved := Inspector.handleCropMouseMove true dx dy prev in
  (Qabs (CropData.x prev + dx * 2) < 30 -> CropData.x moved = 0)
  /\ (30 <= Qabs (CropData.x prev + dx * 2) ->
      CropData.x moved == CropData.x prev + dx * 2)
  /\ (Qabs (CropData.y prev + dy * 2) < 30 -> CropData.y moved = 0)
  /\ (30 <= Qabs (CropData.y prev + dy * 2) ->
      CropData.y moved == CropData.y prev + dy * 2)
  /\ (CropData.x moved == 0 \/ 30 <= Qabs (CropData.x moved))
  /\ (CropData.y moved == 0 \/ 30 <= Qabs (CropData.y moved))
  /\ CropData.scale moved = CropData.scale prev
  /\ Inspector.handleCropMouseMove false dx dy prev = prev.
Proof.
  intro moved. unfold moved, Inspector.handleCropMouseMove. cbn [negb].
  cbv zeta. cbn [CropData.x CropData.y CropData.scale].
  assert (E2 : forall a d : Q, a + d * (1280 / 640) == a + d * 2)
    by (intros; field).
  assert (Habs : forall a d : Q,
            Qabs (a + d * (1280 / 640)) == Qabs (a + d * 2))
    by (intros a d; rewrite E2; reflexivity).
  repeat split.
  - intro H. rewrite <- Habs in H. apply JS_lt_iff in H. rewrite H.
    reflexivity.
  - intro H. rewrite <- Habs in H.
    destruct (JS.lt (Qabs (CropData.x prev + dx * (1280 / 640))) 30) eqn:E.
    + apply JS_lt_iff in E. lra.
    + apply E2.
  - intro H. rewrite <- Habs in H. apply JS_lt_iff in H. rewrite H.
    reflexivity.
  - intro H. rewrite <- Habs in H.
    destruct (JS.lt (Qabs (CropData.y prev + dy * (1280 / 640))) 30) eqn:E.
    + apply JS_lt_iff in E. lra.
    + apply E2.
  - destruct (JS.lt (Qabs (CropData.x prev + dx * (1280 / 640))) 30) eqn:E.
    + left. reflexivity.
    + right. apply not_true_iff_false in E. rewrite JS_lt_iff in E.
      apply Qnot_lt_le. exact E.
  - destruct (JS.lt (Qabs (CropData.y prev + dy * (1280 / 640))) 30) eqn:E.
    + left. reflexivity.
    + right. apply not_true_iff_false in E. rewrite JS_lt_iff in E.
      apply Qnot_lt_le. exact E.
Qed.

Lemma crop_drag_snaps_to_centre_witness :
  CropData.x (Inspector.handleCropMouseMove true 10 0 (CropData.mk 5 0 1))
  = 0.
Proof.
  apply (crop_drag_snaps_to_centre 10 0 (CropData.mk 5 0 1)).
  vm_compute. reflexivity.
Defined.

(** ** Dragging a clip back *)

Lemma firstn_exact {A : Type} (a b : list A) :
  firstn (List.length a) (a ++ b) = a.
Proof.
  rewrite firstn_app, Nat.sub_diag, firstn_all. simpl. apply app_nil_r.
Qed.

Lemma skipn_exact {A : Type} (a b : list A) :
  skipn (List.length a) (a ++ b) = b.
Proof.
  rewrite skipn_app, Nat.sub_diag, skipn_all. reflexivity.
Qed.

(** X15.  Dragging the clip at [fromIndex] to the place of another clip at
    [toIndex] and then dragging it from [toIndex] back to [fromIndex]
    restores the clip sequence. *)
Theorem drag_back_restores_order (images : list ImageAsset.t)
  (fromIndex toIndex : nat) :
  (fromIndex < List.length images)%nat ->
  (toIndex < List.length images)%nat ->
  exists moved,
    Editing.handleTimelineReorder fromIndex toIndex images
    = List.map Some moved
    /\ nth_error moved toIndex = nth_error images fromIndex
    /\ Editing.handleTimelineReorder toIndex fromIndex moved
       = List.map Some images.
Proof.
  intros Hfrom Hto.
  destruct (Nat.eq_dec fromIndex toIndex) as [->|Hne].
  - exists images. unfold Editing.handleTimelineReorder.
    rewrite Nat.eqb_refl. auto.
  - destruct (nth_error images fromIndex) as [x|] eqn:Hx;
      [|apply nth_error_None in Hx; lia].
    set (rest := firstn fromIndex images ++ skipn (S fromIndex) images).
    assert (Hrest : List.length rest = (List.length images - 1)%nat).
    { unfold rest. rewrite length_app, firstn_length_le, length_skipn; lia. }
    set (moved := firstn toIndex rest ++ x :: skipn toIndex rest).
    assert (Hlt : List.length (firstn toIndex rest) = toIndex)
      by (apply firstn_length_le; lia).
    assert (Hmx : nth_error moved toIndex = Some x).
    { unfold moved. rewrite nth_error_app2 by lia.
      rewrite Hlt, Nat.sub_diag. reflexivity. }
    exists moved. split.
    + apply handleTimelineReorder_in_range; assumption.
    + split; [exact Hmx|].
      rewrite (handleTimelineReorder_in_range toIndex fromIndex moved x Hmx)
        by auto.
      f_equal.
      assert (E : firstn toIndex moved ++ skipn (S toIndex) moved = rest).
      { unfold moved. rewrite <- Hlt at 1. rewrite firstn_exact.
        change (firstn toIndex rest ++ x :: skipn toIndex rest)
          with (firstn toIndex rest ++ [x] ++ skipn toIndex rest).
        rewrite app_assoc.
        assert (Hl1 : List.length (firstn toIndex rest ++ [x]) = S toIndex)
          by (rewrite length_app, Hlt; simpl; lia).
        rewrite <- Hl1, skipn_exact. apply firstn_skipn. }
      rewrite E. unfold rest.
      assert (Hlf : List.length (firstn fromIndex images) = fromIndex)
        by (apply firstn_length_le; lia).
      rewrite <- Hlf at 1. rewrite firstn_exact.
      rewrite <- Hlf at 2. rewrite skipn_exact.
      apply firstn_skipn_middle. exact Hx.
Qed.

Lemma drag_back_restores_order_witness :
  exists moved,
    Editing.handleTimelineReorder 0 2
      [clip_named "a" 4; clip_named "b" 6; clip_named "c" 5]
    = List.map Some moved
    /\ Editing.handleTimelineReorder 2 0 moved
       = List.map Some
           [clip_named "a" 4; clip_named "b" 6; clip_named "c" 5].
Proof.
  destruct (drag_back_restores_order
              [clip_named "a" 4; clip_named "b" 6; clip_named "c" 5] 0 2
              ltac:(simpl; lia) ltac:(simpl; lia)) as (moved & H1 & _ & H2).
  exists moved. split; assumption.
Defined.

(** ** Saving and loading *)

Lemma image_url_round_trip (u : string) (img : ImageAsset.t) :
  Storage.image_with_url u (Storage.image_with_url "" img)
  = Storage.image_with_url u img.
Proof. reflexivity. Qed.

(** X17.  What [loadProject] returns after [saveProject] is what was saved,
    but for the object URLs: the store holds every clip and audio asset with
    an empty URL, and the loaded ones carry a fresh URL made from their
    file; ids, files, crops, adjustments, durations and overlays of the
    clips, in order, the audio durations, the subtitles, the background
    volume and the settings come back unchanged, and so does the length of
    the timeline.  An empty store loads as [null]. *)
Theorem save_load_round_trip (createObjectURL : File.t -> string)
  (images : list ImageAsset.t)
  (audioAsset bgAudioAsset : option AudioAsset.t) (bgMusicVolume : Q)
  (subtitles : list Subtitle.t) (settings : Storage.ProjectSettings) :
  let db := Storage.saveProject images audioAsset bgAudioAsset bgMusicVolume
              subtitles settings in
  (exists stored,
     db = Some stored
     /\ Forall (fun img => ImageAsset.url img = ""%string)
          (Storage.images stored))
  /\ (exists p,
        Storage.loadProject createObjectURL db = Some p
        /\ Storage.images p
           = List.map (fun img =>
                         Storage.image_with_url
                           (createObjectURL (ImageAsset.file img)) img)
               images
        /\ List.map (Storage.image_with_url "") (Storage.images p)
           = List.map (Storage.image_with_url "") images
        /\ Storage.audioAsset p
           = option_map (fun a => Storage.audio_with_url
                                    (createObjectURL (AudioAsset.file a)) a)
               audioAsset
        /\ Storage.bgAudioAsset p
           = option_map (fun a => Storage.audio_with_url
                                    (createObjectURL (AudioAsset.file a)) a)
               bgAudioAsset
        /\ Storage.subtitles p = subtitles
        /\ Storage.bgMusicVolume p = bgMusicVolume
        /\ Storage.settings p = settings
        /\ totalDuration (Storage.audioAsset p) (Storage.images p)
           = totalDuration audioAsset images)
  /\ Storage.loadProject createObjectURL None = None.
Proof.
  intro db. split; [|split; [|reflexivity]].
  - eexists. split; [reflexivity|]. simpl.
    induction images as [|img images IH]; constructor;
      [reflexivity | exact IH].
  - eexists. split; [reflexivity|]. cbn [Storage.images Storage.audioAsset
      Storage.bgAudioAsset Storage.subtitles Storage.bgMusicVolume
      Storage.settings].
    assert (Himgs :
      List.map (fun img => Storage.image_with_url
                             (createObjectURL (ImageAsset.file img)) img)
        (List.map (Storage.image_with_url "") images)
      = List.map (fun img => Storage.image_with_url
                               (createObjectURL (ImageAsset.file img)) img)
          images).
    { rewrite map_map. apply map_ext. intro img. reflexivity. }
    rewrite Himgs.
    split; [reflexivity|]. split.
    { rewrite map_map. apply map_ext. intro img. reflexivity. }
    split; [destruct audioAsset; reflexivity|].
    split; [destruct bgAudioAsset; reflexivity|].
    repeat (split; [reflexivity|]).
    unfold totalDuration. f_equal.
    + destruct audioAsset; reflexivity.
    + f_equal. symmetry.
      apply (timeline_depends_on_durations images).
      rewrite map_map. apply map_ext. intro img. reflexivity.
Qed.

(** X18.  Loading after saving brings the editor back to the saved
    project from whatever state it is in: the clips (with fresh URLs), the
    subtitles, both volumes, the resolution, the frame rate and the
    transition settings are those saved.  The main audio is the saved one
    when there was one; when the project was saved without main audio, the
    audio loaded in the editor at that moment stays.  With an empty store,
    or when the database fails, loading changes nothing but the toasts. *)
Theorem load_restores_saved_project (createObjectURL : File.t -> string)
  (db0 : Storage.Database) (saved current : Storage.Project) :
  let db := fst (Storage.handleSave true db0 saved) in
  let loaded := Storage.handleLoad true createObjectURL db current in
  Storage.p_images loaded
  = List.map (fun img => Storage.image_with_url
                           (createObjectURL (ImageAsset.file img)) img)
      (Storage.p_images saved)
  /\ Storage.p_lyrics loaded = Storage.p_lyrics saved
  /\ Storage.p_bgMusicVolume loaded = Storage.p_bgMusicVolume saved
  /\ Storage.p_mainAudioVolume loaded = Storage.p_mainAudioVolume saved
  /\ Storage.p_resolution loaded = Storage.p_resolution saved
  /\ Storage.p_frameRate loaded = Storage.p_frameRate saved
  /\ Storage.p_transitionEffect loaded = Storage.p_transitionEffect saved
  /\ Storage.p_transitionDuration loaded = Storage.p_transitionDuration saved
  /\ totalImageDuration (Storage.p_images loaded)
     = totalImageDuration (Storage.p_images saved)
  /\ (forall a, Storage.p_audioAsset saved = Some a ->
      Storage.p_audioAsset loaded
      = Some (Storage.audio_with_url
                (createObjectURL (AudioAsset.file a)) a))
  /\ (Storage.p_audioAsset saved = None ->
      Storage.p_audioAsset loaded = Storage.p_audioAsset current)
  /\ Storage.handleLoad true createObjectURL None current
     = Storage.toast "No save." ToastInfo current
  /\ Storage.handleLoad false createObjectURL db current
     = Storage.toast "Load failed." ToastError current
  /\ Storage.handleSave false db0 saved
     = (db0, Storage.toast "Save failed." ToastError saved).
Proof.
  intros db loaded. unfold loaded, db. destruct saved, current. simpl.
  assert (Himgs :
    List.map (fun img => Storage.image_with_url
                           (createObjectURL (ImageAsset.file img)) img)
      (List.map (Storage.image_with_url "") p_images)
    = List.map (fun img => Storage.image_with_url
                             (createObjectURL (ImageAsset.file img)) img)
        p_images).
  { rewrite map_map. apply map_ext. intro img. reflexivity. }
  rewrite Himgs.
  repeat (split; [reflexivity|]).
  split.
  { symmetry. apply (timeline_depends_on_durations p_images).
    rewrite map_map. apply map_ext. intro img. reflexivity. }
  split; [intros a ->; reflexivity|].
  split; [intros ->; reflexivity|].
  repeat split.
Qed.

Lemma load_restores_saved_project_witness :
  Storage.p_audioAsset
    (Storage.handleLoad true (fun _ => "blob:1"%string)
       (fst (Storage.handleSave true None project_with_song))
       project_without_audio)
  = Some (Storage.audio_with_url "blob:1" (song 180)).
Proof.
  pose proof (load_restores_saved_project (fun _ => "blob:1"%string) None
                project_with_song project_without_audio) as H.
  cbv zeta in H.
  destruct H as (_ & _ & _ & _ & _ & _ & _ & _ & _ & Haudio & _).
  apply (Haudio (song 180)). reflexivity.
Defined.

(** ** An export from start to end *)

Section ExportRuns.

Import Exporter ExportPhases.

Lemma andThen_done (a b : Try) (st : App) :
  snd (andThen a b st) = Done ->
  snd (a st) = Done
  /\ snd (b (fst (a st))) = Done
  /\ fst (andThen a b st) = fst (b (fst (a st))).
Proof.
  rewrite andThen_run. destruct (snd (a st)); [auto | discriminate].
Qed.

Lemma buildStream_state (e : Env) (st : App) :
  fst (buildStream e st) = st.
Proof.
  unfold buildStream. destruct (destNode e); [reflexivity|].
  destruct (audio st); [|reflexivity].
  rewrite andThen_run.
  destruct (audioHasCaptureStream e); cbn;
    destruct (throws e AudioCaptureStream); reflexivity.
Qed.

Ltac peel H :=
  apply andThen_done in H;
  let K := fresh "K" in destruct H as (K & H & ->).

(** The state that a setup which does not throw ends in. *)
Lemma setup_done_state (e : Env) (totalDuration : Q) (st : App) :
  snd (setup e totalDuration st) = Done ->
  let st' := setCurrentTime 0 (set_recorder (Some (newRecorder e)) st) in
  fst (setup e totalDuration st)
  = match audioAsset e, audio st with
    | Some _, Some _ =>
        set_onended true
          (setIsPlaying true
             (with_bgAudio play
                (with_audio play
                   (set_recorder_state Recording
                      (with_bgAudio (seek 0) (with_audio (seek 0) st'))))))
    | _, _ =>
        set_timers (timers st ++ [totalDuration * 1000])
          (setIsPlaying true (set_recorder_state Recording st'))
    end.
Proof.
  intros H st'. unfold setup in *.
  do 5 peel H.
  cbn [call exec fst] in *. rewrite buildStream_state in *.
  fold st' in H |- *.
  assert (Haudio : audio st' = audio st) by (destruct st; reflexivity).
  rewrite Haudio in *.
  destruct (audioAsset e) as [asset|], (audio st) as [el|] eqn:Hel;
    try (unfold startWithTimer in *; do 3 peel H;
         cbn [call exec fst]; destruct st; reflexivity).
  unfold startWithAudio in *.
  do 8 peel H.
  cbn [call exec fst] in *.
  match goal with
  | |- context [match bgAudio ?s with _ => _ end] =>
      destruct (bgAudio s) eqn:Hbg
  end.
  - match goal with
    | K : snd (andThen (call e BgAudioPlay) _ _) = Done |- _ =>
        rewrite andThen_run in K |- *; cbn [call fst snd] in K |- *;
        destruct (throws e BgAudioPlay); [discriminate K | reflexivity]
    end.
  - cbn [fst]. f_equal. f_equal.
    match goal with
    | |- ?s = with_bgAudio play ?s =>
        destruct s; cbn in Hbg; subst; reflexivity
    end.
Qed.

(** When no platform call throws and there is an audio stream to record,
    the setup does not throw. *)
Lemma setup_no_throw (e : Env) (totalDuration : Q) (st : App) :
  (forall step, throws e step = false) ->
  destNode e = true \/ audio st <> None ->
  snd (setup e totalDuration st) = Done.
Proof.
  intros Hthrows Hstream.
  assert (Hbuild : forall s, audio s = audio st ->
                             snd (buildStream e s) = Done).
  { intros s Hs. unfold buildStream. destruct (destNode e) eqn:Ed.
    - cbn. rewrite Hthrows. reflexivity.
    - destruct Hstream as [Hd|Ha]; [discriminate Hd|].
      rewrite Hs. destruct (audio st); [|congruence].
      rewrite andThen_run. destruct (audioHasCaptureStream e);
        cbn; rewrite ?Hthrows; cbn; rewrite ?Hthrows; reflexivity. }
  unfold setup.
  rewrite andThen_run. cbn [call fst snd]. rewrite Hthrows.
  rewrite andThen_run, (Hbuild st eq_refl), buildStream_state.
  rewrite andThen_run. cbn [call fst snd]. rewrite Hthrows.
  rewrite andThen_run. cbn [exec fst snd].
  rewrite andThen_run. cbn [exec fst snd].
  destruct (audioAsset e),
    (audio (setCurrentTime 0 (set_recorder (Some (newRecorder e)) st)));
    unfold startWithAudio, startWithTimer;
    repeat (rewrite andThen_run; cbn [call exec fst snd];
            rewrite ?Hthrows);
    try reflexivity;
    match goal with
    | |- context [match bgAudio ?s with _ => _ end] =>
        destruct (bgAudio s);
        repeat (rewrite ?andThen_run; cbn [call exec fst snd];
                rewrite ?Hthrows);
        reflexivity
    end.
Qed.

(** A setup that does not throw leaves the recorder recording and exactly
    one callback pending: the timer without main audio, the [ended]
    handler with it. *)
Lemma setup_done (e : Env) (totalDuration : Q) (st : App) :
  timers st = [] -> onended st = false ->
  snd (setup e totalDuration st) = Done ->
  let s := fst (setup e totalDuration st) in
  option_map state (recorder s) = Some Recording
  /\ ((timers s = [totalDuration * 1000] /\ onended s = false)
      \/ (timers s = [] /\ onended s = true)).
Proof.
  intros Ht Ho H s. unfold s. rewrite (setup_done_state e _ st H).
  destruct st as [a p t g au bg r oe tm ts ds]. cbn in Ht, Ho. subst tm oe.
  destruct (audioAsset e), au; cbn; split; auto.
Qed.

Lemma quiescent_step_frame (ev : Event) (st : App) :
  quiescent st ->
  quiescent (step ev st)
  /\ downloads (step ev st) = downloads st
  /\ appState (step ev st) = appState st
  /\ speakersGain (step ev st) = speakersGain st.
Proof.
  intros (Ht & Ho & Hr). destruct ev; simpl.
  - rewrite Ht. repeat split; assumption.
  - destruct st. simpl in *. subst. repeat split; auto.
  - destruct (recorder st) as [r|] eqn:Er.
    + destruct (state r) eqn:Es; try congruence;
        (repeat split; try assumption; rewrite Er; congruence).
    + repeat split; try assumption. rewrite Er. exact I.
Qed.

Lemma phase_step (d0 : list string) (g0 : option Q) (ev : Event)
  (s : App) :
  phase d0 g0 s -> phase d0 g0 (step ev s).
Proof.
  intros [Hrest|[Hrec|Hstop]].
  - left. destruct Hrest as (Hq & Ha & Hd).
    destruct (quiescent_step_frame ev s Hq) as (Hq' & Hd' & Ha' & Hg').
    split; [exact Hq'|]. split; [congruence|].
    rewrite Hd', Ha', Hg'. exact Hd.
  - destruct Hrec as (Ha & Hg & Hd & Hr & Hcb).
    destruct s as [a p t g au bg [r|] oe tm ts ds]; cbn in *;
      [|discriminate Hr].
    destruct r as [rs mt vb]. cbn in Hr. inversion Hr; subst rs.
    destruct ev; cbn.
    + destruct Hcb as [[[delay Htm] Hoe]|[Htm Hoe]]; subst.
      * right. right. cbn. repeat split.
      * right. left. cbn. repeat split. right. auto.
    + destruct Hcb as [[[delay Htm] Hoe]|[Htm Hoe]]; subst; cbn.
      * right. left. cbn. repeat split.
        left. split; [exists delay; reflexivity | reflexivity].
      * right. right. cbn. repeat split.
    + right. left. cbn. repeat split; assumption.
  - destruct Hstop as (Ha & Hg & Hd & Hr & Htm & Hoe).
    destruct s as [a p t g au bg [r|] oe tm ts ds]; cbn in *;
      [|discriminate Hr].
    destruct r as [rs mt vb]. cbn in Hr. inversion Hr; subst rs.
    subst. destruct ev; cbn.
    + right. right. cbn. repeat split.
    + right. right. cbn. repeat split.
    + left. cbn. split; [repeat split; discriminate|].
      split; [discriminate|]. right. repeat split.
      destruct g0; reflexivity.
Qed.

Lemma phase_run (d0 : list string) (g0 : option Q) (evs : list Event)
  (s : App) :
  phase d0 g0 s -> phase d0 g0 (run evs s).
Proof.
  unfold run. revert s. induction evs as [|ev evs IH]; intros s H; simpl.
  - exact H.
  - apply IH. apply phase_step. exact H.
Qed.

Lemma handleExport_phase (e : Env) (st : App) :
  quiescent st -> appState st <> EXPORTING ->
  phase (downloads st) (speakersGain st) (handleExport e st).
Proof.
  intros Hq Ha. unfold handleExport.
  destruct (nothingToExport e) eqn:Hguard.
  - left. split; [exact Hq|]. split; [exact Ha|]. left. reflexivity.
  - destruct (callback_last_setup e (totalDuration (audioAsset e) (images e))
                (beginExport st)) as ((Sa & Sg & St & Sd) & Sn & Scb).
    destruct (beginExport_fields st)
      as (Ba & Bg & Bt & Bd & Btm & Boe & Br).
    destruct Hq as (Qt & Qo & Qr).
    pose proof (setup_done e (totalDuration (audioAsset e) (images e))
                  (beginExport st)) as Hdone.
    rewrite Btm, Boe in Hdone. specialize (Hdone Qt Qo).
    destruct (setup e (totalDuration (audioAsset e) (images e))
                (beginExport st)) as [s1 [|]].
    + right. left. cbn [fst snd] in *.
      destruct (Hdone eq_refl) as (Hrec & Hcb).
      split; [congruence|]. split; [congruence|]. split; [congruence|].
      split; [exact Hrec|].
      destruct Hcb as [(H1 & H2)|(H1 & H2)];
        [left; split; [eauto | exact H2] | right; auto].
    + left. cbn [fst snd] in *.
      destruct (Scb eq_refl) as [Htm Hoe].
      destruct (onCatch_fields s1) as (Ca & Cg & Ct & Cd & Ctm & Coe & Cr).
      split.
      * split; [congruence|]. split; [congruence|].
        rewrite Cr. apply Sn. unfold notStopping. rewrite Br. exact Qr.
      * split; [rewrite Ca; discriminate|]. left. congruence.
Qed.

(** X19.  From the app at rest (no export running, no callback pending),
    whatever the project, whichever platform calls throw and whatever
    events follow in whatever order: an export offers at most one file,
    [lyricalflow.webm], and when it has, the app is back in [READY] with
    the speakers gain at 1; and as long as the app shows the exporting
    state, the speakers are muted and nothing has been offered. *)
Theorem export_offers_at_most_one_file (e : Env) (st : App)
  (evs : list Event) :
  quiescent st -> appState st <> EXPORTING ->
  let final := run evs (handleExport e st) in
  (downloads final = downloads st
   \/ (downloads final = downloads st ++ ["lyricalflow.webm"%string]
       /\ appState final = READY
       /\ speakersGain final = option_map (fun _ => 1) (speakersGain st)))
  /\ (appState final = EXPORTING ->
      speakersGain final = option_map (fun _ => 0) (speakersGain st)
      /\ downloads final = downloads st).
Proof.
  intros Hq Ha final.
  pose proof (phase_run _ _ evs _ (handleExport_phase e st Hq Ha)) as Hp.
  fold final in Hp.
  destruct Hp as [(_ & Hne & Hd)|[(Hx & Hg & Hd & _)|(Hx & Hg & Hd & _)]].
  - split; [exact Hd|]. intro H. contradiction.
  - split; [left; exact Hd | auto].
  - split; [left; exact Hd | auto].
Qed.

Lemma export_offers_at_most_one_file_witness :
  downloads
    (run [AudioEnded; TimerFired; RecorderStopped; TimerFired;
          RecorderStopped]
       (handleExport (exportEnv [clip 4] None nothingFails) appAtRest))
  = ["lyricalflow.webm"%string].
Proof.
  destruct (export_offers_at_most_one_file
              (exportEnv [clip 4] None nothingFails) appAtRest
              [AudioEnded; TimerFired; RecorderStopped; TimerFired;
               RecorderStopped]
              ltac:(repeat split) ltac:(discriminate)) as [_ _].
  reflexivity.
Defined.

(** X20.  With a main audio loaded and its element mounted, an export whose
    setup does not throw is driven by the audio: it rewinds and plays the
    main audio, records, sets no timer, and mutes the speakers; when the
    audio ends the recorder is stopped and the handler removed, and the
    recorder's [stop] event offers the file, returns to [READY] and puts
    the speakers gain back to 1.  A timer that fires meanwhile changes
    nothing. *)
Theorem export_with_audio_ends_with_the_audio (e : Env) (st : App)
  (a : AudioAsset.t) (el : AudioElement) :
  audioAsset e = Some a -> audio st = Some el ->
  canvasPresent e = true ->
  (forall step, throws e step = false) ->
  timers st = [] -> onended st = false ->
  let st1 := handleExport e st in
  appState st1 = EXPORTING
  /\ isPlaying st1 = true
  /\ currentTime st1 = 0
  /\ audio st1 = Some {| paused := false; position := 0 |}
  /\ option_map state (recorder st1) = Some Recording
  /\ timers st1 = [] /\ onended st1 = true
  /\ speakersGain st1 = option_map (fun _ => 0) (speakersGain st)
  /\ step TimerFired st1 = st1
  /\ (let st2 := run [AudioEnded; RecorderStopped] st1 in
      downloads st2 = downloads st ++ ["lyricalflow.webm"%string]
      /\ appState st2 = READY
      /\ isPlaying st2 = false
      /\ onended st2 = false
      /\ option_map state (recorder st2) = Some Inactive
      /\ speakersGain st2 = option_map (fun _ => 1) (speakersGain st)).
Proof.
  intros Haudio Hel Hc Hthrows Htm Hoe st1.
  assert (Hguard : nothingToExport e = false).
  { unfold nothingToExport. rewrite Hc, Haudio.
    rewrite andb_false_r. reflexivity. }
  assert (Hb : audio (beginExport st)
               = Some {| paused := true; position := position el |}).
  { destruct st. cbn in Hel. subst. reflexivity. }
  assert (Hdone : snd (setup e (totalDuration (audioAsset e) (images e))
                         (beginExport st)) = Done).
  { apply setup_no_throw; [exact Hthrows|]. right. rewrite Hb. discriminate. }
  pose proof (setup_done_state e _ (beginExport st) Hdone) as Hstate.
  cbv zeta in Hstate. rewrite Hb in Hstate.
  assert (Hst1 : st1 = fst (setup e (totalDuration (audioAsset e) (images e))
                               (beginExport st))).
  { unfold st1, handleExport. rewrite Hguard.
    destruct (setup e (totalDuration (audioAsset e) (images e))
                (beginExport st)) as [s1 o].
    cbn [snd] in Hdone. subst o. reflexivity. }
  rewrite Hst1, Hstate, Haudio.
  destruct st as [ap p t g au bg r oe tm ts ds]. cbn in Hel, Htm, Hoe.
  subst au tm oe. destruct el as [pa po].
  cbv zeta.
  repeat match goal with |- _ /\ _ => split end;
    try (vm_compute; reflexivity);
    destruct g; vm_compute; reflexivity.
Qed.

Lemma export_with_audio_ends_with_the_audio_witness :
  downloads
    (run [AudioEnded; RecorderStopped]
       (handleExport (exportEnv [clip 4] (Some (song 10)) nothingFails)
          appAtRest))
  = ["lyricalflow.webm"%string].
Proof.
  pose proof (export_with_audio_ends_with_the_audio
                (exportEnv [clip 4] (Some (song 10)) nothingFails) appAtRest
                (song 10) (Build_AudioElement true 0)
                eq_refl eq_refl eq_refl ltac:(reflexivity)
                eq_refl eq_refl) as H.
  cbv zeta in H.
  destruct H as (_ & _ & _ & _ & _ & _ & _ & _ & _ & Hd & _).
  exact Hd.
Defined.

End ExportRuns.

(** ** Captions and lyrics from the remote service *)

Lemma subtitlesWithIds_lines (randomId : nat -> string)
  (lines : list Assist.Line) :
  forall k,
    List.map (fun l => Assist.Build_Line (Subtitle.startTime l)
                         (Subtitle.endTime l) (Subtitle.text l))
      (Assist.subtitlesWithIds randomId k lines)
    = lines.
Proof.
  induction lines as [|l lines IH]; intro k; simpl.
  - reflexivity.
  - rewrite IH. destruct l. reflexivity.
Qed.

(** X21.  Syncing lyrics replaces the subtitles only when the transcription
    arrives: without a main audio, without an API key, when reading the
    file or the remote call fails, or when the answer does not parse, the
    subtitles stay as they were and the last toast is an error; when it
    arrives, the subtitles are exactly the transcribed lines, in order,
    each with an id.  After a sync with audio the syncing flag is off. *)
Theorem sync_lyrics_keeps_subtitles_on_failure
  (audioAsset : option AudioAsset.t) (apiKey : bool)
  (base64 : Assist.Settled string)
  (response : Assist.Settled (option string))
  (parse : string -> option (list Assist.Line))
  (randomId : nat -> string) (st : Assist.Sync) :
  let generated := Assist.generateLyrics apiKey base64 response parse in
  let st' := Assist.handleSyncLyrics audioAsset generated randomId st in
  (audioAsset = None \/ generated = Assist.Rejected ->
   Assist.lyrics st' = Assist.lyrics st
   /\ exists before message,
        Assist.toasts st' = before ++ [(message, ToastError)])
  /\ (audioAsset <> None -> Assist.isSyncingLyrics st' = false)
  /\ (forall lines,
        audioAsset <> None -> generated = Assist.Resolved lines ->
        List.map (fun l => Assist.Build_Line (Subtitle.startTime l)
                             (Subtitle.endTime l) (Subtitle.text l))
          (Assist.lyrics st')
        = lines
        /\ Assist.toasts st'
           = Assist.toasts st
             ++ [("Transcribing audio..."%string, ToastInfo);
                 ("Lyrics synced!"%string, ToastSuccess)])
  /\ (apiKey = false \/ base64 = Assist.Rejected
      \/ response = Assist.Rejected ->
      generated = Assist.Rejected)
  /\ (forall text,
        apiKey = true -> base64 <> Assist.Rejected ->
        response = Assist.Resolved (Some text) -> text <> ""%string ->
        generated = match parse text with
                    | Some lines => Assist.Resolved lines
                    | None => Assist.Rejected
                    end).
Proof.
  intros generated st'. unfold st', Assist.handleSyncLyrics.
  split; [|split; [|split; [|split]]].
  - intros [->|Hg].
    + split; [reflexivity|]. cbn. eauto.
    + rewrite Hg. destruct audioAsset; cbn; split; try reflexivity.
      * exists (Assist.toasts st
                ++ [("Transcribing audio..."%string, ToastInfo)]). eauto.
      * eauto.
  - intro Ha. destruct audioAsset; [|congruence].
    destruct generated; reflexivity.
  - intros lines Ha ->. destruct audioAsset; [|congruence]. cbn.
    split; [apply subtitlesWithIds_lines|].
    rewrite <- app_assoc. reflexivity.
  - unfold generated, Assist.generateLyrics.
    intros [-> | [-> | ->]]; [reflexivity| |].
    + destruct apiKey; reflexivity.
    + destruct apiKey, base64; reflexivity.
  - intros text -> Hb -> Ht. unfold generated, Assist.generateLyrics. cbn.
    destruct base64; [|congruence].
    destruct (String.eqb text "") eqn:E; [|reflexivity].
    apply String.eqb_eq in E. contradiction.
Qed.

Lemma sync_lyrics_keeps_subtitles_on_failure_witness :
  Assist.lyrics
    (Assist.handleSyncLyrics (Some (song 180))
       (Assist.generateLyrics false (Assist.Resolved ""%string)
          (Assist.Resolved None) (fun _ => None))
       (fun _ => "id"%string)
       (Assist.Build_Sync [hello] false []))
  = [hello].
Proof.
  pose proof (sync_lyrics_keeps_subtitles_on_failure (Some (song 180)) false
                (Assist.Resolved ""%string) (Assist.Resolved None)
                (fun _ => None) (fun _ => "id"%string)
                (Assist.Build_Sync [hello] false [])) as H.
  cbv zeta in H. destruct H as (H & _).
  apply H. right. reflexivity.
Defined.

(** X22.  A caption is never empty and asking for one never fails: it is
    the text of the answer when there is an API key, the file was read and
    the answer has a text, and "Cool Vibes" in every other case.  Adding
    the caption to the selected clip leaves the ids and the durations of
    the clips, hence the timeline, as they are. *)
Theorem caption_is_never_empty (apiKey : bool)
  (base64 : Assist.Settled string)
  (response : Assist.Settled (option string))
  (newId : string) (selectedImageId : option string)
  (images : list ImageAsset.t) :
  let caption := Assist.generateImageCaption apiKey base64 response in
  let captioned :=
    Assist.handleGenerateCaption newId selectedImageId caption images in
  caption <> ""%string
  /\ (forall text,
        apiKey = true -> base64 <> Assist.Rejected ->
        response = Assist.Resolved (Some text) -> text <> ""%string ->
        caption = text)
  /\ (apiKey = false \/ base64 = Assist.Rejected
      \/ response = Assist.Rejected \/ response = Assist.Resolved None
      \/ response = Assist.Resolved (Some ""%string) ->
      caption = "Cool Vibes"%string)
  /\ List.map ImageAsset.id captioned = List.map ImageAsset.id images
  /\ List.map ImageAsset.duration captioned
     = List.map ImageAsset.duration images
  /\ totalImageDuration captioned = totalImageDuration images.
Proof.
  intros caption captioned.
  assert (Hid : List.map ImageAsset.id captioned
                = List.map ImageAsset.id images).
  { unfold captioned, Assist.handleGenerateCaption.
    destruct selectedImageId as [sel|]; [|reflexivity].
    destruct (find _ images); [|reflexivity].
    unfold Inspector.updateSelectedImage.
    destruct (Inspector.truthy (Some sel)); [|reflexivity].
    apply map_same_ids. intro img.
    destruct (String.eqb (ImageAsset.id img) s); reflexivity. }
  assert (Hd : List.map ImageAsset.duration images
               = List.map ImageAsset.duration captioned).
  { unfold captioned, Assist.handleGenerateCaption.
    destruct selectedImageId as [sel|]; [|reflexivity].
    destruct (find _ images); [|reflexivity].
    unfold Inspector.updateSelectedImage.
    destruct (Inspector.truthy (Some sel)); [|reflexivity].
    apply map_same_durations. intro img.
    destruct (String.eqb (ImageAsset.id img) s); reflexivity. }
  split; [|split; [|split; [|split; [exact Hid | split]]]].
  - unfold caption, Assist.generateImageCaption.
    destruct apiKey; cbn; [|discriminate].
    destruct base64; [|discriminate].
    destruct response as [[text|]|]; try discriminate.
    destruct (String.eqb text "") eqn:E; [discriminate|].
    apply String.eqb_neq in E. exact E.
  - intros text -> Hb -> Ht. unfold caption, Assist.generateImageCaption.
    cbn. destruct base64; [|congruence].
    destruct (String.eqb text "") eqn:E; [|reflexivity].
    apply String.eqb_eq in E. contradiction.
  - unfold caption, Assist.generateImageCaption.
    intros [-> | [-> | [-> | [-> | ->]]]]; try reflexivity;
      destruct apiKey; try reflexivity; destruct base64; reflexivity.
  - symmetry. exact Hd.
  - symmetry. apply (timeline_depends_on_durations images captioned Hd).
Qed.

Lemma caption_is_never_empty_witness :
  Assist.generateImageCaption true (Assist.Resolved "aGk="%string)
    (Assist.Resolved (Some "Sunset over water"%string))
  = "Sunset over water"%string.
Proof.
  pose proof (caption_is_never_empty true (Assist.Resolved "aGk="%string)
                (Assist.Resolved (Some "Sunset over water"%string))
                "n" None []) as H.
  cbv zeta in H. destruct H as (_ & H & _).
  apply H; [reflexivity | discriminate | reflexivity | discriminate].
Defined.

(** ** The audio graph *)

Section AudioGraphInvariant.

Import AudioGraph.

Lemma wellFormed_empty : wellFormed empty.
Proof.
  unfold wellFormed. cbn.
  repeat split; try discriminate; try constructor; try contradiction;
    intros; try contradiction; try discriminate.
Qed.

Lemma createContext_wellFormed (g : Graph) :
  wellFormed g ->
  wellFormed (createContext g) /\ audioContext (createContext g) = true.
Proof.
  intro Hwf. unfold createContext.
  destruct (audioContext g) eqn:Ec; [auto|].
  destruct Hwf as (H1 & _). rewrite (H1 Ec). cbn. split; [|reflexivity].
  unfold wellFormed. cbn.
  split; [discriminate|].
  split; [intros _; repeat split; discriminate|].
  split; [repeat constructor; cbn; intuition discriminate|].
  split; [constructor|].
  split; [split; [contradiction | discriminate]|].
  split; [split; [contradiction | discriminate]|].
  split; [intros n [H|[H|[]]]; inversion H; reflexivity|].
  split; [discriminate|]. split; [discriminate|].
  intros a b [H|[H|[]]]; inversion H; subst;
    split; intros [E|E]; discriminate E.
Qed.

Lemma setupMain_wellFormed (audioElement : bool) (volume : Q) (g : Graph) :
  wellFormed g -> audioContext g = true ->
  wellFormed (setupMain audioElement volume g)
  /\ audioContext (setupMain audioElement volume g) = true.
Proof.
  intros Hwf Hc. unfold setupMain.
  destruct (audioElement && negb (source g)) eqn:E; [|auto].
  apply andb_true_iff in E. destruct E as [_ Es].
  apply negb_true_iff in Es.
  destruct Hwf as (_ & H2 & H3 & H4 & H5 & H6 & H7 & H8 & H9 & H10).
  destruct (H2 Hc) as (Ha & Hd & Hs).
  split; [|exact Hc]. unfold wellFormed. cbn. rewrite Ha, Hd. cbn.
  split; [congruence|].
  split; [intros _; auto|].
  split.
  { apply NoDup_app; [exact H3 | |].
    - repeat constructor; cbn; intuition discriminate.
    - intros [a b] Hin Hnew. destruct (H10 a b Hin) as [Hm _].
      cbn in Hnew. destruct Hnew as [H|[H|[H|[]]]]; inversion H; subst;
        rewrite Hm in Es; auto; discriminate. }
  split.
  { apply NoDup_app; [exact H4 | repeat constructor; intros [] |].
    intros x Hin [<-|[]]. apply H5 in Hin. congruence. }
  split; [split; [reflexivity | intros _; apply in_or_app; right; left;
                                 reflexivity]|].
  split.
  { rewrite in_app_iff, H6. split; [intros [H|[H|[]]]; [exact H | discriminate H]
                                   | auto]. }
  split.
  { intros n Hin. apply in_app_or in Hin. destruct Hin as [Hin|Hin].
    - apply H7. exact Hin.
    - cbn in Hin. destruct Hin as [H|[H|[H|[]]]]; inversion H. }
  split.
  { intros _. repeat split; apply in_or_app; right; cbn; auto. }
  split.
  { intro Hb. destruct (H9 Hb) as (B1 & B2 & B3).
    repeat split; apply in_or_app; left; assumption. }
  intros a b Hin. split; [reflexivity|].
  apply in_app_or in Hin. destruct Hin as [Hin|Hin].
  - apply (H10 a b Hin).
  - cbn in Hin. destruct Hin as [H|[H|[H|[]]]]; inversion H; subst;
      intros [E|E]; discriminate E.
Qed.

Lemma setupBg_wellFormed (bgElement : bool) (volume : Q) (g : Graph) :
  wellFormed g -> audioContext g = true ->
  wellFormed (setupBg bgElement volume g)
  /\ audioContext (setupBg bgElement volume g) = true.
Proof.
  intros Hwf Hc. unfold setupBg.
  destruct (bgElement && negb (bgSource g)) eqn:E; [|auto].
  apply andb_true_iff in E. destruct E as [_ Es].
  apply negb_true_iff in Es.
  destruct Hwf as (_ & H2 & H3 & H4 & H5 & H6 & H7 & H8 & H9 & H10).
  destruct (H2 Hc) as (Ha & Hd & Hs).
  destruct (speakersGain g) as [sg|] eqn:Esg; [|congruence].
  split; [|exact Hc]. unfold wellFormed. cbn. rewrite Ha, Hd. cbn.
  split; [congruence|].
  split; [intros _; repeat split; discriminate|].
  split.
  { apply NoDup_app; [exact H3 | |].
    - repeat constructor; cbn; intuition discriminate.
    - intros [a b] Hin Hnew. destruct (H10 a b Hin) as [_ Hm].
      cbn in Hnew. destruct Hnew as [H|[H|[H|[]]]]; inversion H; subst;
        rewrite Hm in Es; auto; discriminate. }
  split.
  { apply NoDup_app; [exact H4 | repeat constructor; intros [] |].
    intros x Hin [<-|[]]. apply H6 in Hin. congruence. }
  split.
  { rewrite in_app_iff, H5. split; [intros [H|[H|[]]]; [exact H | discriminate H]
                                   | auto]. }
  split; [split; [reflexivity | intros _; apply in_or_app; right; left;
                                 reflexivity]|].
  split.
  { intros n Hin. apply in_app_or in Hin. destruct Hin as [Hin|Hin].
    - apply H7. exact Hin.
    - cbn in Hin. destruct Hin as [H|[H|[H|[]]]]; inversion H. }
  split.
  { intro Hm. destruct (H8 Hm) as (B1 & B2 & B3).
    repeat split; apply in_or_app; left; assumption. }
  split.
  { intros _. repeat split; apply in_or_app; right; cbn; auto. }
  intros a b Hin. split; [|reflexivity].
  apply in_app_or in Hin. destruct Hin as [Hin|Hin].
  - apply (H10 a b Hin).
  - cbn in Hin. destruct Hin as [H|[H|[H|[]]]]; inversion H; subst;
      intros [E|E]; discriminate E.
Qed.

Lemma initAudioContext_wellFormed (c : Call) (g : Graph) :
  wellFormed g ->
  wellFormed (initAudioContext (audioElement c) (bgElement c)
                (mainAudioVolume c) (bgMusicVolume c) g).
Proof.
  intro Hwf. unfold initAudioContext.
  destruct (createContext_wellFormed g Hwf) as [H1 C1].
  destruct (setupMain_wellFormed (audioElement c) (mainAudioVolume c) _ H1 C1)
    as [H2 C2].
  apply (setupBg_wellFormed (bgElement c) (bgMusicVolume c) _ H2 C2).
Qed.

Lemma calls_wellFormed (cs : list Call) (g : Graph) :
  wellFormed g -> wellFormed (calls cs g).
Proof.
  unfold calls. revert g. induction cs as [|c cs IH]; intros g Hwf; simpl.
  - exact Hwf.
  - apply IH. apply initAudioContext_wellFormed. exact Hwf.
Qed.

Lemma initAudioContext_sources (a b : bool) (v w : Q) (g : Graph) :
  let g' := initAudioContext a b v w g in
  audioContext g' = true
  /\ (a = true -> source g' = true)
  /\ (b = true -> bgSource g' = true).
Proof.
  unfold initAudioContext, setupBg, setupMain, createContext.
  destruct g as [ctx an de sg so mg bs bgn cn cr].
  destruct ctx, a, b, so, bs; cbn; repeat split; auto.
Qed.

(** X23.  However often [initAudioContext] is called, with whatever
    elements mounted and volumes set: no connection is made twice and no
    element gets a second media source; the speakers gain is the only node
    connected to the output of the context; a track that has a source has
    its gain connected to the stream that is recorded, and the background
    gain is connected to the speakers gain as well.  Calling it again with
    the same elements mounted changes nothing, whatever the volumes. *)
Theorem audio_graph_is_built_once (cs : list Call) (c : Call) (g : Graph) :
  let built := calls cs empty in
  NoDup (connections built)
  /\ NoDup (sourcesCreated built)
  /\ (forall n, In (n, ContextDestination) (connections built) ->
                n = SpeakersGain)
  /\ (source built = true ->
      In (MainGain, StreamDestination) (connections built))
  /\ (bgSource built = true ->
      In (BgGain, StreamDestination) (connections built)
      /\ In (BgGain, SpeakersGain) (connections built))
  /\ (forall v w,
        initAudioContext (audioElement c) (bgElement c) v w
          (initAudioContext (audioElement c) (bgElement c)
             (mainAudioVolume c) (bgMusicVolume c) g)
        = initAudioContext (audioElement c) (bgElement c)
            (mainAudioVolume c) (bgMusicVolume c) g).
Proof.
  intro built.
  destruct (calls_wellFormed cs empty wellFormed_empty)
    as (_ & _ & H3 & H4 & _ & _ & H7 & H8 & H9 & _).
  fold built in H3, H4, H7, H8, H9.
  split; [exact H3|]. split; [exact H4|]. split; [exact H7|].
  split; [intro H; apply (H8 H)|].
  split; [intro H; destruct (H9 H) as (_ & B2 & B3); auto|].
  intros v w.
  destruct (initAudioContext_sources (audioElement c) (bgElement c)
              (mainAudioVolume c) (bgMusicVolume c) g) as (Hc & Hs & Hb).
  set (g1 := initAudioContext (audioElement c) (bgElement c)
               (mainAudioVolume c) (bgMusicVolume c) g) in *.
  unfold initAudioContext at 1. unfold createContext. rewrite Hc.
  unfold setupMain.
  assert (E1 : audioElement c && negb (source g1) = false).
  { destruct (audioElement c); [rewrite (Hs eq_refl)|]; reflexivity. }
  rewrite E1. unfold setupBg.
  assert (E2 : bgElement c && negb (bgSource g1) = false).
  { destruct (bgElement c); [rewrite (Hb eq_refl)|]; reflexivity. }
  rewrite E2. reflexivity.
Qed.

End AudioGraphInvariant.
